(** * Screenshot server: URL validator, output-path validator, semaphore

    A shallow embedding of [src/validators/url.ts], [src/validators/path.ts]
    and [src/utils/semaphore.ts].

    Conventions of the embedding.
    - A JavaScript string is a [string]; each [ascii] stands for the code
      unit with the same number (U+0000 to U+00FF).
    - A JavaScript number that holds an integer is a [Z]; where the source
      goes through [parseInt] the rounding to a double is written out.
    - A promise that rejects, or a call that throws, is a [Throw] completion
      and [try]/[catch] is [tryCatch].
    - The platform functions the source imports ([URL], [dns.lookup],
      [fs.realpath], [process.cwd]) are parameters; the functions of Node's
      [path] module are modelled after their POSIX semantics. *)

(** The later parts cover the helpers ([src/utils/helpers.ts]), the window
    look-up and the providers of system screenshots ([src/utils/macos.ts],
    [src/utils/macos-provider.ts], [src/utils/linux-provider.ts],
    [src/utils/screenshot-provider.ts], the escaping functions of
    [src/utils/windows-provider.ts]), the configuration
    ([src/config/index.ts], [src/config/runtime.ts]) and the two tools
    ([src/tools/take-screenshot.ts], [src/tools/take-system-screenshot.ts]).
    There a method with effects is a function of the state that gives the
    actions performed, in order, the completion and the new state; what
    the commands, the browser and the file system answer is given by
    functions. *)

From Stdlib Require Import ZArith List String Ascii Bool Lia DecimalString.
Import ListNotations.
Local Open Scope string_scope.
Local Open Scope Z_scope.

(** ** JavaScript strings and numbers *)

Module JS.

Definition charCode (c : ascii) : Z := Z.of_N (N_of_ascii c).

Definition fromCharCode (z : Z) : ascii := ascii_of_N (Z.to_N z).

Definition between (lo hi : Z) (c : ascii) : bool :=
  (lo <=? charCode c) && (charCode c <=? hi).

(** [\d] *)
Definition isDigit (c : ascii) : bool := between 48 57 c.

(** [[0-9a-f]] *)
Definition isLowerHex (c : ascii) : bool := isDigit c || between 97 102 c.

(** WhiteSpace and LineTerminator code units below U+0100. *)
Definition isWhiteSpace (c : ascii) : bool :=
  between 9 13 c || (charCode c =? 32) || (charCode c =? 160).

(** Upper-case letters below U+0100 (Basic Latin and Latin-1). *)
Definition isUpper (c : ascii) : bool :=
  between 65 90 c || (between 192 222 c && negb (charCode c =? 215)).

Definition toLowerChar (c : ascii) : ascii :=
  if isUpper c then fromCharCode (charCode c + 32) else c.

(** [String.prototype.toLowerCase] *)
Fixpoint toLowerCase (s : string) : string :=
  match s with
  | EmptyString => EmptyString
  | String c r => String (toLowerChar c) (toLowerCase r)
  end.

(** [String.prototype.startsWith] *)
Fixpoint startsWith (p s : string) : bool :=
  match p, s with
  | EmptyString, _ => true
  | String a p', String b s' => Ascii.eqb a b && startsWith p' s'
  | String _ _, EmptyString => false
  end.

(** [String.prototype.includes] *)
Fixpoint includes (p s : string) : bool :=
  startsWith p s ||
  match s with
  | EmptyString => false
  | String _ s' => includes p s'
  end.

Fixpoint rev_string (acc s : string) : string :=
  match s with
  | EmptyString => acc
  | String c r => rev_string (String c acc) r
  end.

Definition reverse (s : string) : string := rev_string EmptyString s.

Definition endsWith (p s : string) : bool :=
  startsWith (reverse p) (reverse s).

Fixpoint dropWhile (f : ascii -> bool) (s : string) : string :=
  match s with
  | EmptyString => EmptyString
  | String c r => if f c then dropWhile f r else s
  end.

(** [String.prototype.trim] *)
Definition trim (s : string) : string :=
  reverse (dropWhile isWhiteSpace (reverse (dropWhile isWhiteSpace s))).

(** [s.substring(n)] for [0 <= n] *)
Fixpoint substringFrom (n : nat) (s : string) : string :=
  match n, s with
  | O, _ => s
  | S n', String _ r => substringFrom n' r
  | S _, EmptyString => EmptyString
  end.

(** [s.slice(1, -1)] *)
Definition slice_1_m1 (s : string) : string :=
  match s with
  | EmptyString => EmptyString
  | String _ r =>
      match reverse r with
      | EmptyString => EmptyString
      | String _ r' => reverse r'
      end
  end.

(** [s.split(sep)] for a one-character separator. *)
Fixpoint split (sep : ascii) (s : string) : list string :=
  match s with
  | EmptyString => [EmptyString]
  | String c r =>
      if Ascii.eqb c sep then EmptyString :: split sep r
      else match split sep r with
           | g :: gs => String c g :: gs
           | [] => [String c EmptyString]
           end
  end.

(** Every character of [s] is in the class [f]. *)
Fixpoint allChars (f : ascii -> bool) (s : string) : bool :=
  match s with
  | EmptyString => true
  | String c r => f c && allChars f r
  end.

(** Greedy [cls{0,n}]: the longest run of at most [n] characters of the
    class at the head of [s], and what follows it. *)
Fixpoint span (f : ascii -> bool) (n : nat) (s : string) : string * string :=
  match n, s with
  | S n', String c r =>
      if f c then let (g, rest) := span f n' r in (String c g, rest)
      else (EmptyString, s)
  | _, _ => (EmptyString, s)
  end.

(** [Number(s)] on a string of decimal digits. *)
Fixpoint NumberFrom (acc : Z) (s : string) : Z :=
  match s with
  | EmptyString => acc
  | String c r => NumberFrom (acc * 10 + (charCode c - 48)) r
  end.

Definition Number (s : string) : Z := NumberFrom 0 s.

(** Template-literal conversion [`${n}`] of an integer. *)
Definition numToString (n : Z) : string := NilZero.string_of_int (Z.to_int n).

(** A Number value, as far as [parseInt] can produce one. *)
Inductive number : Type :=
| NaN
| Infinity (negative : bool)
| Int (z : Z).

Definition isNaN (x : number) : bool :=
  match x with NaN => true | _ => false end.

(** Value of a digit in radix 16, either case. *)
Definition hexDigit (c : ascii) : option Z :=
  if isDigit c then Some (charCode c - 48)
  else if between 97 102 c then Some (charCode c - 87)
  else if between 65 70 c then Some (charCode c - 55)
  else None.

(** The mathematical integer of the longest prefix of radix-16 digits;
    [None] when there is no digit at all. *)
Fixpoint hexPrefix (acc : option Z) (s : string) : option Z :=
  match s with
  | EmptyString => acc
  | String c r =>
      match hexDigit c with
      | Some d =>
          hexPrefix (Some (match acc with Some a => a * 16 + d | None => d end)) r
      | None => acc
      end
  end.

(** Round a non-negative integer to the nearest double, ties to even;
    [None] when the result is not finite. *)
Definition roundToDouble (n : Z) : option Z :=
  let bits := Z.log2 n + 1 in
  if bits <=? 53 then Some n
  else
    let k := bits - 53 in
    let q := Z.shiftr n k in
    let r := Z.land n (Z.ones k) in
    let half := Z.shiftl 1 (k - 1) in
    let q' := if (half <? r) || ((r =? half) && Z.odd q) then q + 1 else q in
    let v := Z.shiftl q' k in
    if 2 ^ 1024 <=? v then None else Some v.

(** [parseInt(s, 16)]: leading white space, a sign and a [0x] prefix are
    skipped, then the longest run of digits is read. *)
Definition parseInt16 (s : string) : number :=
  let s1 := dropWhile isWhiteSpace s in
  let neg := startsWith "-" s1 in
  let s2 :=
    if startsWith "-" s1 || startsWith "+" s1 then substringFrom 1 s1 else s1 in
  let s3 :=
    if startsWith "0x" s2 || startsWith "0X" s2 then substringFrom 2 s2 else s2 in
  match hexPrefix None s3 with
  | None => NaN
  | Some m =>
      match roundToDouble m with
      | None => Infinity neg
      | Some v => Int (if neg then - v else v)
      end
  end.

(** ToInt32 *)
Definition toInt32 (x : number) : Z :=
  match x with
  | Int z => (z + 2 ^ 31) mod 2 ^ 32 - 2 ^ 31
  | _ => 0
  end.

(** [`${x}`] of a value that may be [undefined] *)
Definition template (x : option string) : string :=
  match x with
  | Some s => s
  | None => "undefined"
  end.

(** A value is falsy when it is [undefined] or the empty string. *)
Definition falsy (x : option string) : bool :=
  match x with
  | None => true
  | Some s => String.eqb s EmptyString
  end.

(** What a [throw] carries: an [Error] with its [message], or another
    value with its [String(...)] conversion. *)
Inductive thrown : Type :=
| ErrorObject (message : string)
| OtherValue (asString : string).

(** Outcome of a call that may throw, or of an awaited promise. *)
Inductive completion (A : Type) : Type :=
| Normal (a : A)
| Throw (e : thrown).

Arguments Normal {A} a.
Arguments Throw {A} e.

Definition bind {A B : Type} (x : completion A) (k : A -> completion B)
  : completion B :=
  match x with
  | Normal a => k a
  | Throw e => Throw e
  end.

(** [try { body } catch (e) { handler }] *)
Definition tryCatch {A : Type} (body : completion A)
  (handler : thrown -> completion A) : completion A :=
  match body with
  | Normal a => Normal a
  | Throw e => handler e
  end.

(** A guarded [return] in the middle of a function body: [early] is the
    value returned there, if any, and [rest] is the remainder of the body. *)
Definition orElse {A : Type} (early : option A) (rest : A) : A :=
  match early with
  | Some r => r
  | None => rest
  end.

End JS.

Notation "x <- c1 ;; c2" := (JS.bind c1 (fun x => c2))
  (at level 61, c1 at next level, right associativity).

(** ** URL validator ([src/validators/url.ts]) *)

Module Url.
Import JS.

Record BlockCheck : Type := { blocked : bool; reason : option string }.

Definition notBlocked : BlockCheck := {| blocked := false; reason := None |}.
Definition blockedFor (why : string) : BlockCheck :=
  {| blocked := true; reason := Some why |}.

(** [(\d{1,3})] *)
Definition reDigits13 (s : string) : option (string * string) :=
  let (g, rest) := span isDigit 3 s in
  if String.eqb g EmptyString then None else Some (g, rest).

(** [([0-9a-f]{1,4})] *)
Definition reHex14 (s : string) : option (string * string) :=
  let (g, rest) := span isLowerHex 4 s in
  if String.eqb g EmptyString then None else Some (g, rest).

(** A literal character of a pattern. *)
Definition reChar (c : ascii) (s : string) : option string :=
  match s with
  | String c' r => if Ascii.eqb c' c then Some r else None
  | EmptyString => None
  end.

(** A literal prefix of a pattern. *)
Fixpoint reLit (p s : string) : option string :=
  match p with
  | EmptyString => Some s
  | String c p' =>
      match reChar c s with
      | Some r => reLit p' r
      | None => None
      end
  end.

Definition obind {A B : Type} (x : option A) (k : A -> option B) : option B :=
  match x with
  | Some a => k a
  | None => None
  end.

(** [/^(\d{1,3})\.(\d{1,3})\.(\d{1,3})\.(\d{1,3})$/]: the four groups. *)
Definition matchIPv4 (s : string) : option (string * string * string * string) :=
  obind (reDigits13 s) (fun '(a, s) =>
  obind (reChar "." s) (fun s =>
  obind (reDigits13 s) (fun '(b, s) =>
  obind (reChar "." s) (fun s =>
  obind (reDigits13 s) (fun '(c, s) =>
  obind (reChar "." s) (fun s =>
  obind (reDigits13 s) (fun '(d, s) =>
  if String.eqb s EmptyString then Some (a, b, c, d) else None))))))).

(** [/^::ffff:(\d{1,3}\.\d{1,3}\.\d{1,3}\.\d{1,3})$/]: the group. *)
Definition matchMappedDotted (s : string) : option string :=
  obind (reLit "::ffff:" s) (fun inner =>
  obind (matchIPv4 inner) (fun _ => Some inner)).

(** [/^::ffff:([0-9a-f]{1,4}):([0-9a-f]{1,4})$/]: the two groups. *)
Definition matchMappedHex (s : string) : option (string * string) :=
  obind (reLit "::ffff:" s) (fun s =>
  obind (reHex14 s) (fun '(hi, s) =>
  obind (reChar ":" s) (fun s =>
  obind (reHex14 s) (fun '(lo, s) =>
  if String.eqb s EmptyString then Some (hi, lo) else None)))).

Definition isBlockedIPv4 (ip : string) : BlockCheck :=
  match matchIPv4 ip with
  | None => notBlocked
  | Some (ga, gb, gc, gd) =>
      let a := Number ga in
      let b := Number gb in
      let c := Number gc in
      let d := Number gd in
      if a =? 127 then
        blockedFor "Access to loopback addresses is not allowed"
      else if a =? 10 then
        blockedFor "Access to private network (10.x.x.x) is not allowed"
      else if (a =? 172) && (16 <=? b) && (b <=? 31) then
        blockedFor "Access to private network (172.16-31.x.x) is not allowed"
      else if (a =? 192) && (b =? 168) then
        blockedFor "Access to private network (192.168.x.x) is not allowed"
      else if (a =? 169) && (b =? 254) then
        blockedFor "Access to link-local/metadata addresses (169.254.x.x) is not allowed"
      else if a =? 0 then
        blockedFor "Access to 0.x.x.x addresses is not allowed"
      else if (a =? 100) && (64 <=? b) && (b <=? 127) then
        blockedFor "Access to shared/CGNAT addresses (100.64-127.x.x) is not allowed"
      else if (a =? 198) && ((b =? 18) || (b =? 19)) then
        blockedFor "Access to benchmark addresses (198.18-19.x.x) is not allowed"
      else if (a =? 255) && (b =? 255) && (c =? 255) && (d =? 255) then
        blockedFor "Access to broadcast address is not allowed"
      else notBlocked
  end.

Definition mappedReason (ipv4Check : BlockCheck) : BlockCheck :=
  blockedFor ("Access to IPv4-mapped blocked address: "
              ++ template (reason ipv4Check)).

Definition isBlockedIPv6 (ip : string) : BlockCheck :=
  let normalized := toLowerCase ip in
  orElse
    (if String.eqb normalized "::1"
     then Some (blockedFor "Access to IPv6 localhost is not allowed")
     else None) (
  let firstGroup := hd EmptyString (split ":" normalized) in
  orElse
    (if negb (String.eqb firstGroup EmptyString) then
       let groupValue := parseInt16 firstGroup in
       if negb (isNaN groupValue)
          && (Z.land (toInt32 groupValue) 0xffc0 =? 0xfe80)
       then Some (blockedFor "Access to IPv6 link-local addresses is not allowed")
       else None
     else None) (
  orElse
    (if startsWith "fc" normalized || startsWith "fd" normalized
     then Some (blockedFor "Access to IPv6 private addresses is not allowed")
     else None) (
  orElse
    (match matchMappedDotted normalized with
     | Some inner =>
         let ipv4Check := isBlockedIPv4 inner in
         if blocked ipv4Check then Some (mappedReason ipv4Check) else None
     | None => None
     end) (
  orElse
    (match matchMappedHex normalized with
     | Some (g1, g2) =>
         let high := toInt32 (parseInt16 g1) in
         let low := toInt32 (parseInt16 g2) in
         let a := Z.land (Z.shiftr high 8) 0xff in
         let b := Z.land high 0xff in
         let c := Z.land (Z.shiftr low 8) 0xff in
         let d := Z.land low 0xff in
         let ipv4 := numToString a ++ "." ++ numToString b ++ "."
                     ++ numToString c ++ "." ++ numToString d in
         let ipv4Check := isBlockedIPv4 ipv4 in
         if blocked ipv4Check then Some (mappedReason ipv4Check) else None
     | None => None
     end)
  notBlocked)))).

(** [LookupAddress] of Node's [dns] module. *)
Record LookupAddress : Type := { address : string; family : Z }.

(** The fields of a parsed [URL] that the validator reads. *)
Record URL : Type := { protocol : string; url_hostname : string }.

Record UrlValidationResult : Type := {
  valid : bool;
  error : option string;
  resolvedIp : option string;
  hostname : option string;
}.

Definition invalid (why : option string) : UrlValidationResult :=
  {| valid := false; error := why; resolvedIp := None; hostname := None |}.

(** [DnsResolver.lookup(hostname, { all: true })], awaited. *)
Definition DnsResolver : Type := string -> completion (list LookupAddress).

(** The [for (const addr of addresses)] loop of [validateUrl]: [inl] is the
    result returned from inside the loop, [inr] the value of
    [firstNonBlockedIp] when the loop runs to its end. *)
Fixpoint checkAddresses (addresses : list LookupAddress)
  (firstNonBlockedIp : option string)
  : UrlValidationResult + option string :=
  match addresses with
  | [] => inr firstNonBlockedIp
  | addr :: more =>
      if family addr =? 4 then
        let ipCheck := isBlockedIPv4 (address addr) in
        if blocked ipCheck then
          inl (invalid (Some ("DNS resolved to blocked IP: "
                              ++ template (reason ipCheck))))
        else
          checkAddresses more
            (if falsy firstNonBlockedIp then Some (address addr)
             else firstNonBlockedIp)
      else if family addr =? 6 then
        let ipCheck := isBlockedIPv6 (address addr) in
        if blocked ipCheck then
          inl (invalid (Some ("DNS resolved to blocked IP: "
                              ++ template (reason ipCheck))))
        else
          checkAddresses more
            (if falsy firstNonBlockedIp then Some (address addr)
             else firstNonBlockedIp)
      else checkAddresses more firstNonBlockedIp
  end.

(** [dnsError instanceof Error ? dnsError.message : String(dnsError)] *)
Definition errorMessage (dnsError : thrown) : string :=
  match dnsError with
  | ErrorObject message => message
  | OtherValue asString => asString
  end.

Section ValidateUrl.

(** [new URL(urlString)] of the platform: the parsed URL, or a throw. *)
Variable newURL : string -> completion URL.

Definition validateUrl (urlString : string) (dnsResolver : DnsResolver)
  : completion UrlValidationResult :=
  match newURL urlString with
  | Throw _ => Normal (invalid (Some "Invalid URL format"))
  | Normal parsed =>
      if negb (String.eqb (protocol parsed) "http:")
         && negb (String.eqb (protocol parsed) "https:") then
        Normal (invalid (Some "Only http and https protocols are allowed"))
      else
        let hostname := toLowerCase (url_hostname parsed) in
        if String.eqb hostname "localhost"
           || String.eqb hostname "localhost.localdomain" then
          Normal (invalid (Some "Access to localhost is not allowed"))
        else if String.eqb hostname "[::1]" then
          Normal (invalid (Some "Access to IPv6 localhost is not allowed"))
        else
          let isLiteralIPv4 :=
            match matchIPv4 hostname with Some _ => true | None => false end in
          let isLiteralIPv6 := startsWith "[" hostname && endsWith "]" hostname in
          if isLiteralIPv4 then
            let ipCheck := isBlockedIPv4 hostname in
            if blocked ipCheck then Normal (invalid (reason ipCheck))
            else Normal {| valid := true; error := None;
                           resolvedIp := Some hostname;
                           hostname := Some hostname |}
          else if isLiteralIPv6 then
            let ipv6 := slice_1_m1 hostname in
            let ipCheck := isBlockedIPv6 ipv6 in
            if blocked ipCheck then Normal (invalid (reason ipCheck))
            else Normal {| valid := true; error := None;
                           resolvedIp := Some ipv6;
                           hostname := Some hostname |}
          else
            tryCatch
              (addresses <- dnsResolver hostname ;;
               if (Z.of_nat (List.length addresses) =? 0) then
                 Normal (invalid (Some "DNS resolution returned no addresses"))
               else
                 match checkAddresses addresses None with
                 | inl result => Normal result
                 | inr firstNonBlockedIp =>
                     Normal {| valid := true; error := None;
                               resolvedIp := firstNonBlockedIp;
                               hostname := Some hostname |}
                 end)
              (fun dnsError =>
                 Normal (invalid (Some ("DNS resolution failed: "
                                        ++ errorMessage dnsError))))
  end.

End ValidateUrl.

End Url.

(** ** Output-path validator ([src/validators/path.ts]) *)

(** Node's [path] module as it is on POSIX ([path.posix]).  On Windows
    [path] is [path.win32], with drives and two separators; it is not
    modelled, and what is proved of paths is proved for POSIX. *)
Module NodePath.
Import JS.

Definition isDots (seg : string) : bool := String.eqb seg "..".

(** [normalizeString(path, allowAboveRoot)], segment by segment: empty
    segments and [.] are dropped, [..] removes the segment before it, or is
    kept (when [allowAboveRoot]) if there is none to remove.  [stack] holds
    the segments kept so far, last one first. *)
Fixpoint normalizeSegments (allowAboveRoot : bool) (stack segs : list string)
  : list string :=
  match segs with
  | [] => rev stack
  | seg :: more =>
      if String.eqb seg EmptyString || String.eqb seg "." then
        normalizeSegments allowAboveRoot stack more
      else if isDots seg then
        match stack with
        | top :: below =>
            if isDots top then
              normalizeSegments allowAboveRoot
                (if allowAboveRoot then seg :: stack else stack) more
            else normalizeSegments allowAboveRoot below more
        | [] =>
            normalizeSegments allowAboveRoot
              (if allowAboveRoot then [seg] else []) more
        end
      else normalizeSegments allowAboveRoot (seg :: stack) more
  end.

Definition normalizeString (path : string) (allowAboveRoot : bool) : string :=
  String.concat "/" (normalizeSegments allowAboveRoot [] (split "/" path)).

(** [path.normalize] *)
Definition normalize (path : string) : string :=
  if String.eqb path EmptyString then "."
  else
    let isAbsolute := startsWith "/" path in
    let trailingSeparator := endsWith "/" path in
    let path := normalizeString path (negb isAbsolute) in
    if String.eqb path EmptyString then
      if isAbsolute then "/" else if trailingSeparator then "./" else "."
    else
      let path := if trailingSeparator then path ++ "/" else path in
      if isAbsolute then "/" ++ path else path.

(** [path.join] *)
Definition join (args : list string) : string :=
  match filter (fun arg => negb (String.eqb arg EmptyString)) args with
  | [] => "."
  | parts => normalize (String.concat "/" parts)
  end.

(** The loop of [path.resolve]: arguments are taken from the last to the
    first, then the working directory, until an absolute one is met. *)
Fixpoint resolveLoop (cwd : string) (fromLast : list string)
  (resolvedPath : string) : string * bool :=
  match fromLast with
  | [] =>
      if String.eqb cwd EmptyString then (resolvedPath, false)
      else (cwd ++ "/" ++ resolvedPath, startsWith "/" cwd)
  | path :: more =>
      if String.eqb path EmptyString then resolveLoop cwd more resolvedPath
      else if startsWith "/" path then (path ++ "/" ++ resolvedPath, true)
      else resolveLoop cwd more (path ++ "/" ++ resolvedPath)
  end.

(** [path.resolve], with [process.cwd()] as [cwd] *)
Definition resolve (cwd : string) (args : list string) : string :=
  let (resolvedPath, resolvedAbsolute) := resolveLoop cwd (rev args) EmptyString in
  let resolvedPath := normalizeString resolvedPath (negb resolvedAbsolute) in
  if resolvedAbsolute then "/" ++ resolvedPath
  else if String.eqb resolvedPath EmptyString then "." else resolvedPath.

(** The backwards scan of [path.dirname] over [path[1..]], given last
    character first: the number of characters from the end of the path to
    the separator that ends the directory part, if there is one. *)
Fixpoint dirnameScan (fromEnd : string) (matchedSlash : bool) (skipped : nat)
  : option nat :=
  match fromEnd with
  | EmptyString => None
  | String c r =>
      if Ascii.eqb c "/" then
        if matchedSlash then dirnameScan r true (S skipped)
        else Some (S skipped)
      else dirnameScan r false (S skipped)
  end.

(** [path.dirname] *)
Definition dirname (path : string) : string :=
  match path with
  | EmptyString => "."
  | String first tail =>
      let hasRoot := Ascii.eqb first "/" in
      match dirnameScan (reverse tail) true O with
      | None => if hasRoot then "/" else "."
      | Some k =>
          let endIndex := (String.length path - k)%nat in
          if hasRoot && Nat.eqb endIndex 1 then "//"
          else substring 0 endIndex path
      end
  end.

(** The first loop of [path.relative] over [from[1..]] and [to[1..]]: the
    length of the common prefix and the index of its last separator. *)
Fixpoint commonPrefix (from to : string) (i lastCommonSep : Z) : Z * Z :=
  match from, to with
  | String x from', String y to' =>
      if Ascii.eqb x y then
        commonPrefix from' to' (i + 1)
          (if Ascii.eqb x "/" then i else lastCommonSep)
      else (i, lastCommonSep)
  | _, _ => (i, lastCommonSep)
  end.

(** The second loop of [path.relative]: one [..] for every segment of
    [from] after the common part. *)
Fixpoint climb (fromRest out : string) : string :=
  let up := if String.eqb out EmptyString then ".." else "/.." in
  match fromRest with
  | EmptyString => out ++ up
  | String c r => climb r (if Ascii.eqb c "/" then out ++ up else out)
  end.

Definition charAt (i : Z) (s : string) : option ascii :=
  if i <? 0 then None else String.get (Z.to_nat i) s.

Definition isSlashAt (i : Z) (s : string) : bool :=
  match charAt i s with
  | Some c => Ascii.eqb c "/"
  | None => false
  end.

(** [path.relative] *)
Definition relative (cwd from to : string) : string :=
  if String.eqb from to then EmptyString
  else
    let from := resolve cwd [from] in
    let to := resolve cwd [to] in
    if String.eqb from to then EmptyString
    else
      let fromTail := substringFrom 1 from in
      let toTail := substringFrom 1 to in
      let fromLen := Z.of_nat (String.length fromTail) in
      let toLen := Z.of_nat (String.length toTail) in
      let length := Z.min fromLen toLen in
      let (i, lastCommonSep) := commonPrefix fromTail toTail 0 (-1) in
      let finish (lastCommonSep : Z) :=
        climb (substringFrom (Z.to_nat (lastCommonSep + 1)) fromTail) EmptyString
        ++ substringFrom (Z.to_nat (1 + lastCommonSep)) to in
      if i =? length then
        if length <? toLen then
          if isSlashAt i toTail then substringFrom (Z.to_nat (i + 1)) toTail
          else if i =? 0 then substringFrom (Z.to_nat i) toTail
          else finish lastCommonSep
        else if length <? fromLen then
          if isSlashAt i fromTail then finish i
          else if i =? 0 then finish 0
          else finish lastCommonSep
        else finish lastCommonSep
      else finish lastCommonSep.

End NodePath.

Module Path.
Import JS NodePath.

(** [FileSystem.realpath], awaited. *)
Definition FileSystem : Type := string -> completion string.

Record PathConfig : Type := {
  allowedOutputDirs : list string;
  defaultOutDir : string;
}.

Record PathValidationResult : Type := {
  valid : bool;
  path : option string;
  error : option string;
}.

Definition accepted (p : string) : PathValidationResult :=
  {| valid := true; path := Some p; error := None |}.

Definition rejected (why : string) : PathValidationResult :=
  {| valid := false; path := None; error := Some why |}.

Section ValidateOutputPath.

(** [process.cwd()] *)
Variable cwd : string.

(** One allowed directory of the loop: its real path, or its resolved form
    when [realpath] throws. *)
Definition realAllowedDir (fileSystem : FileSystem) (allowedDir : string)
  : string :=
  match fileSystem allowedDir with
  | Normal real => real
  | Throw _ => resolve cwd [allowedDir]
  end.

(** The [for (const allowedDir of config.allowedOutputDirs)] loop: the
    result returned from inside it, if any. *)
Fixpoint checkAllowedDirs (fileSystem : FileSystem) (realPath : string)
  (dirs : list string) : option PathValidationResult :=
  match dirs with
  | [] => None
  | allowedDir :: more =>
      let relativePath :=
        relative cwd (realAllowedDir fileSystem allowedDir) realPath in
      if negb (startsWith ".." relativePath)
         && negb (startsWith "/" relativePath)
      then Some (accepted realPath)
      else checkAllowedDirs fileSystem realPath more
  end.

Definition outsideMessage : string :=
  "Output path must be within allowed directories (~/Desktop/Screenshots, ~/Downloads, ~/Documents, or /tmp). Symlinks to other locations are not permitted.".

(** [!customPath || customPath.trim() === ''] *)
Definition noCustomPath (customPath : option string) : bool :=
  match customPath with
  | None => true
  | Some p => String.eqb p EmptyString || String.eqb (trim p) EmptyString
  end.

Definition validateOutputPath (customPath : option string)
  (defaultName : string) (config : PathConfig) (fileSystem : FileSystem)
  : PathValidationResult :=
  if noCustomPath customPath then
    accepted (join [defaultOutDir config; defaultName])
  else
    let customPath := template customPath in
    if includes (String zero EmptyString) customPath
       || includes "%00" customPath then
      rejected "Path contains null bytes"
    else
      let targetPath :=
        if startsWith "/" customPath then resolve cwd [customPath]
        else resolve cwd [defaultOutDir config; customPath] in
      let containment (realPath : string) : PathValidationResult :=
        orElse
          (checkAllowedDirs fileSystem realPath (allowedOutputDirs config))
          (rejected outsideMessage) in
      match fileSystem targetPath with
      | Normal realPath => containment realPath
      | Throw _ =>
          let parentDir := dirname targetPath in
          let fileName :=
            substringFrom (String.length parentDir + 1) targetPath in
          match fileSystem parentDir with
          | Normal realParent => containment (join [realParent; fileName])
          | Throw _ =>
              rejected ("Parent directory does not exist: " ++ parentDir)
          end
      end.

End ValidateOutputPath.

End Path.

(** ** Semaphore ([src/utils/semaphore.ts]) *)

Module Semaphore.

Section Gate.

(** The [resolve] callbacks queued by suspended [acquire()] calls; a value
    of [W] names the caller that the callback resumes. *)
Variable W : Type.

(** The private fields.  [permits] is a JavaScript number: the integer
    here is what the counter holds as long as it stays among the integers
    a double holds exactly, from [-2^53] to [2^53]. *)
Record Semaphore : Type := {
  permits : Z;
  waiting : list W;
}.

(** [new Semaphore(permits)] *)
Definition create (permits : Z) : Semaphore :=
  {| permits := permits; waiting := [] |}.

(** [acquire()], called with the [resolve] callback of its promise: [true]
    when the call completes at once, [false] when the caller is queued. *)
Definition acquire (resolve : W) (s : Semaphore) : bool * Semaphore :=
  if 0 <? permits s then
    (true, {| permits := permits s - 1; waiting := waiting s |})
  else
    (false, {| permits := permits s; waiting := waiting s ++ [resolve] |}).

(** [tryAcquire()] *)
Definition tryAcquire (s : Semaphore) : bool * Semaphore :=
  if 0 <? permits s then
    (true, {| permits := permits s - 1; waiting := waiting s |})
  else (false, s).

(** [release()]: the callback it calls, if any. *)
Definition release (s : Semaphore) : option W * Semaphore :=
  match waiting s with
  | next :: rest => (Some next, {| permits := permits s; waiting := rest |})
  | [] => (None, {| permits := permits s + 1; waiting := [] |})
  end.

(** [get available()], [get waitingCount()] *)
Definition available (s : Semaphore) : Z := permits s.
Definition waitingCount (s : Semaphore) : Z := Z.of_nat (List.length (waiting s)).

(** A run of the gate: the calls made on it, and what each call did. *)
Inductive call : Type :=
| CallAcquire (resolve : W)
| CallTryAcquire
| CallRelease.

Inductive event : Type :=
| Acquired (w : W)        (* acquire() completed at once *)
| Suspended (w : W)       (* acquire() queued its caller *)
| Tried (granted : bool)  (* tryAcquire() returned *)
| Resumed (w : W)         (* release() resumed a queued caller *)
| Returned.               (* release() gave the permit back to the counter *)

Definition step (c : call) (s : Semaphore) : event * Semaphore :=
  match c with
  | CallAcquire w =>
      let (now, s') := acquire w s in
      (if now then Acquired w else Suspended w, s')
  | CallTryAcquire =>
      let (granted, s') := tryAcquire s in (Tried granted, s')
  | CallRelease =>
      let (next, s') := release s in
      (match next with Some w => Resumed w | None => Returned end, s')
  end.

(** The events of a sequence of calls, oldest first, and the final state. *)
Fixpoint run (calls : list call) (s : Semaphore) : list event * Semaphore :=
  match calls with
  | [] => ([], s)
  | c :: more =>
      let (e, s') := step c s in
      let (es, s'') := run more s' in
      (e :: es, s'')
  end.

(** Units granted by an event, and units given up by it. *)
Definition grants (e : event) : Z :=
  match e with
  | Acquired _ | Tried true | Resumed _ => 1
  | _ => 0
  end.

Definition releases (e : event) : Z :=
  match e with
  | Resumed _ | Returned => 1
  | _ => 0
  end.

(** Acquired-but-unreleased units after a history of events. *)
Fixpoint outstanding (history : list event) : Z :=
  match history with
  | [] => 0
  | e :: more => grants e - releases e + outstanding more
  end.

(** Callers in the order they were suspended, and in the order they were
    resumed. *)
Fixpoint suspendedOrder (history : list event) : list W :=
  match history with
  | [] => []
  | Suspended w :: more => w :: suspendedOrder more
  | _ :: more => suspendedOrder more
  end.

Fixpoint resumedOrder (history : list event) : list W :=
  match history with
  | [] => []
  | Resumed w :: more => w :: resumedOrder more
  | _ :: more => resumedOrder more
  end.

(** Every [release()] of [calls] is made while a unit is outstanding:
    [held] is the number outstanding before the first call. *)
Fixpoint paired (calls : list call) (held : Z) (s : Semaphore) : bool :=
  match calls with
  | [] => true
  | c :: more =>
      let (e, s') := step c s in
      match c with
      | CallRelease => (0 <? held) && paired more (held + grants e - releases e) s'
      | _ => paired more (held + grants e - releases e) s'
      end
  end.

(** What holds of the gate between calls: [held] units are outstanding. *)
Definition balanced (capacity held : Z) (s : Semaphore) : Prop :=
  permits s + held = capacity
  /\ 0 <= permits s
  /\ 0 <= held
  /\ (waiting s <> [] -> permits s = 0).

End Gate.

Arguments permits {W} s.
Arguments waiting {W} s.
Arguments create {W} permits.
Arguments acquire {W} resolve s.
Arguments tryAcquire {W} s.
Arguments release {W} s.
Arguments available {W} s.
Arguments waitingCount {W} s.
Arguments CallAcquire {W} resolve.
Arguments CallTryAcquire {W}.
Arguments CallRelease {W}.
Arguments Acquired {W} w.
Arguments Suspended {W} w.
Arguments Tried {W} granted.
Arguments Resumed {W} w.
Arguments Returned {W}.
Arguments step {W} c s.
Arguments run {W} calls s.
Arguments grants {W} e.
Arguments releases {W} e.
Arguments outstanding {W} history.
Arguments suspendedOrder {W} history.
Arguments resumedOrder {W} history.
Arguments paired {W} calls held s.
Arguments balanced {W} capacity held s.

End Semaphore.

(** ** Test doubles ([tests/mocks/dns.ts], [tests/mocks/fs.ts]) *)

Module Mocks.
Import JS.

(** [Map.prototype.get] on a map given by its entries, the entry set last
    first. *)
Fixpoint mapGet {A : Type} (key : string) (entries : list (string * A))
  : option A :=
  match entries with
  | [] => None
  | (k, v) :: more => if String.eqb k key then Some v else mapGet key more
  end.

(** [createMockDns] *)
Definition createMockDns (responses : list (string * list Url.LookupAddress))
  : Url.DnsResolver :=
  fun hostname =>
    match mapGet hostname responses with
    | Some result => Normal result
    | None => Throw (ErrorObject ("getaddrinfo ENOTFOUND " ++ hostname))
    end.

Definition mockDns_localhost : Url.DnsResolver :=
  createMockDns [("evil.com", [{| Url.address := "127.0.0.1"; Url.family := 4 |}])].

Definition mockDns_public : Url.DnsResolver :=
  createMockDns [("example.com", [{| Url.address := "93.184.216.34"; Url.family := 4 |}])].

Definition mockDns_nxdomain : Url.DnsResolver := createMockDns [].

Definition mockDns_timeout : Url.DnsResolver :=
  fun _ => Throw (ErrorObject "queryA ETIMEOUT example.com").

(** [createMockFs]: an entry is a real path or an error to throw. *)
Definition createMockFs (pathMappings : list (string * completion string))
  : Path.FileSystem :=
  fun path =>
    let enoent :=
      Throw (ErrorObject ("ENOENT: no such file or directory, realpath '"
                          ++ path ++ "'")) in
    match mapGet path pathMappings with
    | Some (Throw e) => Throw e
    | Some (Normal result) =>
        if String.eqb result EmptyString then enoent else Normal result
    | None => enoent
    end.

(** [TEST_CONFIG] and [buildMockFs] of [tests/validators/path.test.ts] *)
Definition TEST_CONFIG : Path.PathConfig :=
  {| Path.allowedOutputDirs :=
       ["/home/user/Desktop/Screenshots"; "/tmp"; "/home/user/Downloads";
        "/home/user/Documents"];
     Path.defaultOutDir := "/home/user/Desktop/Screenshots" |}.

Definition buildMockFs (extra : list (string * completion string))
  : Path.FileSystem :=
  createMockFs
    (extra ++
     [("/home/user/Desktop/Screenshots", Normal "/home/user/Desktop/Screenshots");
      ("/tmp", Normal "/tmp");
      ("/home/user/Downloads", Normal "/home/user/Downloads");
      ("/home/user/Documents", Normal "/home/user/Documents")]).

(** A stand-in for [new URL]: it knows the URLs listed with their parsed
    form and throws on every other string. *)
Definition tableURL (known : list (string * Url.URL)) (urlString : string)
  : completion Url.URL :=
  match mapGet urlString known with
  | Some parsed => Normal parsed
  | None => Throw (ErrorObject "Invalid URL")
  end.

Definition knownURLs : list (string * Url.URL) :=
  [("https://example.com",
    {| Url.protocol := "https:"; Url.url_hostname := "example.com" |});
   ("https://evil.com",
    {| Url.protocol := "https:"; Url.url_hostname := "evil.com" |});
   ("https://nonexistent.example",
    {| Url.protocol := "https:"; Url.url_hostname := "nonexistent.example" |});
   ("ftp://example.com/file",
    {| Url.protocol := "ftp:"; Url.url_hostname := "example.com" |});
   ("http://localhost:8080",
    {| Url.protocol := "http:"; Url.url_hostname := "localhost" |})].

End Mocks.

(** ** Address ranges and string shapes named by the specification *)

Module Spec.
Import JS.

(** The 32-bit value of the address [a.b.c.d]. *)
Definition ipv4 (a b c d : Z) : Z := a * 16777216 + b * 65536 + c * 256 + d.

(** [v] lies in the block [base/len]: the two agree on their first [len]
    bits. *)
Definition inCidr (base len v : Z) : bool :=
  Z.shiftr v (32 - len) =? Z.shiftr base (32 - len).

(** The blocked IPv4 ranges. *)
Definition inBlockedRange (v : Z) : bool :=
  inCidr (ipv4 127 0 0 0) 8 v
  || inCidr (ipv4 10 0 0 0) 8 v
  || inCidr (ipv4 172 16 0 0) 12 v
  || inCidr (ipv4 192 168 0 0) 16 v
  || inCidr (ipv4 169 254 0 0) 16 v
  || inCidr (ipv4 0 0 0 0) 8 v
  || inCidr (ipv4 100 64 0 0) 10 v
  || inCidr (ipv4 198 18 0 0) 15 v
  || (v =? ipv4 255 255 255 255).

(** Octets of an address. *)
Definition octet (x : Z) : Prop := 0 <= x <= 255.

(** Characters of a dotted quad. *)
Definition quadChar (c : ascii) : bool := isDigit c || Ascii.eqb c ".".

(** The blocked ranges read off the leading octets: first octet 127, 10
    or 0; 172 with second octet 16 to 31; 192.168; 169.254; 100 with second
    octet 64 to 127; 198 with second octet 18 or 19; and four octets 255. *)
Definition leadingOctetsBlocked (a b c d : Z) : bool :=
  (a =? 127) || (a =? 10)
  || ((a =? 172) && (16 <=? b) && (b <=? 31))
  || ((a =? 192) && (b =? 168))
  || ((a =? 169) && (b =? 254))
  || (a =? 0)
  || ((a =? 100) && (64 <=? b) && (b <=? 127))
  || ((a =? 198) && ((b =? 18) || (b =? 19)))
  || ((a =? 255) && (b =? 255) && (c =? 255) && (d =? 255)).

(** One to three decimal digits. *)
Definition isDigitGroup (g : string) : bool :=
  allChars isDigit g && (1 <=? String.length g)%nat && (String.length g <=? 3)%nat.

(** One to four hexadecimal digits, either case. *)
Definition isHexGroup (g : string) : bool :=
  allChars (fun c => match hexDigit c with Some _ => true | None => false end) g
  && (1 <=? String.length g)%nat && (String.length g <=? 4)%nat.

(** The value of a string of hexadecimal digits. *)
Fixpoint hexValueFrom (acc : Z) (g : string) : Z :=
  match g with
  | EmptyString => acc
  | String c r =>
      hexValueFrom (acc * 16 + match hexDigit c with Some d => d | None => 0 end) r
  end.

Definition hexValue (g : string) : Z := hexValueFrom 0 g.

(** Four dot-separated groups of one to three digits. *)
Definition isDottedQuad (s : string) : bool :=
  match split "." s with
  | [a; b; c; d] =>
      isDigitGroup a && isDigitGroup b && isDigitGroup c && isDigitGroup d
  | _ => false
  end.

Definition dotted (a b c d : string) : string :=
  a ++ "." ++ b ++ "." ++ c ++ "." ++ d.

(** Hosts refused by name. *)
Definition nameBlocked (host : string) : bool :=
  String.eqb host "localhost" || String.eqb host "localhost.localdomain"
  || String.eqb host "[::1]".

Definition allowedScheme (u : Url.URL) : bool :=
  String.eqb (Url.protocol u) "http:" || String.eqb (Url.protocol u) "https:".

(** A URL with an allowed scheme whose host is a name to resolve: it is not
    refused by name and is no IPv4 or bracketed IPv6 literal. *)
Definition isHostnameUrl (u : Url.URL) : bool :=
  let host := toLowerCase (Url.url_hostname u) in
  allowedScheme u && negb (nameBlocked host) && negb (isDottedQuad host)
  && negb (startsWith "[" host && endsWith "]" host).

(** A resolved address carries the family tag 4 or 6. *)
Definition familyTagged (addr : Url.LookupAddress) : Prop :=
  Url.family addr = 4 \/ Url.family addr = 6.

(** A resolved address is classified as blocked, by the classifier of its
    family. *)
Definition classifiedBlocked (addr : Url.LookupAddress) : bool :=
  if Url.family addr =? 4 then Url.blocked (Url.isBlockedIPv4 (Url.address addr))
  else if Url.family addr =? 6 then Url.blocked (Url.isBlockedIPv6 (Url.address addr))
  else false.

(** An absent or blank custom path. *)
Definition blank (customPath : option string) : bool :=
  match customPath with
  | None => true
  | Some p => allChars isWhiteSpace p
  end.

(** A raw or percent-encoded null byte occurs in the path. *)
Definition hasNullByte (p : string) : bool :=
  includes (String zero EmptyString) p || includes "%00" p.

(** The absolute form of a custom path: itself when it starts at the root,
    taken from the default directory otherwise. *)
Definition absoluteTarget (cwd : string) (config : Path.PathConfig)
  (p : string) : string :=
  if startsWith "/" p then NodePath.resolve cwd [p]
  else NodePath.resolve cwd [Path.defaultOutDir config; p].

(** The last segment of an absolute path. *)
Definition lastSegment (p : string) : string :=
  last (split "/" p) EmptyString.

(** The symlink-resolved target: the real path of the target, or of its
    parent directory with the file name appended. *)
Definition resolvedTarget (fileSystem : Path.FileSystem) (target : string)
  : option string :=
  match fileSystem target with
  | Normal real => Some real
  | Throw _ =>
      match fileSystem (NodePath.dirname target) with
      | Normal realParent => Some (NodePath.join [realParent; lastSegment target])
      | Throw _ => None
      end
  end.

(** [p] is the directory [dir] or lies below it (both absolute and
    normalised). *)
Definition within (dir p : string) : bool :=
  String.eqb p dir
  || startsWith (if String.eqb dir "/" then dir else dir ++ "/") p.

(** [p] is inside one of the symlink-resolved allowed directories. *)
Definition insideAllowed (cwd : string) (fileSystem : Path.FileSystem)
  (config : Path.PathConfig) (p : string) : bool :=
  existsb (fun dir => within (Path.realAllowedDir cwd fileSystem dir) p)
          (Path.allowedOutputDirs config).

End Spec.

(** ** Notions used to state further properties of the validators *)

Module Notions.
Import JS.

(** The entries of a lookup answer that the loop of [validateUrl] looks
    at: those of family 4 or 6. *)
Definition tagged (addr : Url.LookupAddress) : bool :=
  (Url.family addr =? 4) || (Url.family addr =? 6).

(** A tagged entry whose address is not the empty string. *)
Definition usable (addr : Url.LookupAddress) : bool :=
  tagged addr && negb (String.eqb (Url.address addr) EmptyString).

(** The address to pin: that of the first usable entry; the empty string
    when the tagged entries all have an empty address; nothing when no
    entry is tagged. *)
Definition pinned (addresses : list Url.LookupAddress) : option string :=
  match find usable addresses with
  | Some addr => Some (Url.address addr)
  | None => if existsb tagged addresses then Some EmptyString else None
  end.

(** A host in brackets. *)
Definition bracketed (host : string) : bool :=
  startsWith "[" host && endsWith "]" host.

(** An absolute path. *)
Definition absolute (p : string) : bool := startsWith "/" p.

End Notions.

(** ** More of JavaScript's strings and numbers *)

Module JSText.
Import JS.

(** [s.replace(/[cls]/g, replacement)]: every character of the class is
    replaced (the replacements used by the source hold no [$] pattern). *)
Fixpoint replaceAll (cls : ascii -> bool) (replacement s : string) : string :=
  match s with
  | EmptyString => EmptyString
  | String c r =>
      (if cls c then replacement else String c EmptyString)
      ++ replaceAll cls replacement r
  end.

(** The double quote, apostrophe, grave accent, dollar and line feed. *)
Definition doubleQuote : ascii := "034".
Definition apostrophe : ascii := "039".
Definition graveAccent : ascii := "096".
Definition dollar : ascii := "036".
Definition lineFeed : ascii := "010".

(** The mathematical integer of the longest prefix of decimal digits;
    [None] when there is no digit at all. *)
Fixpoint decPrefix (acc : option Z) (s : string) : option Z :=
  match s with
  | EmptyString => acc
  | String c r =>
      if isDigit c then
        decPrefix
          (Some (match acc with
                 | Some a => a * 10 + (charCode c - 48)
                 | None => charCode c - 48
                 end)) r
      else acc
  end.

(** [parseInt(s, 10)]: leading white space and a sign are skipped, then the
    longest run of digits is read and rounded to a double. *)
Definition parseInt10 (s : string) : number :=
  let s1 := dropWhile isWhiteSpace s in
  let neg := startsWith "-" s1 in
  let s2 :=
    if startsWith "-" s1 || startsWith "+" s1 then substringFrom 1 s1 else s1 in
  match decPrefix None s2 with
  | None => NaN
  | Some m =>
      match roundToDouble m with
      | None => Infinity neg
      | Some v => Int (if neg then - v else v)
      end
  end.

(** [x > 0] *)
Definition positive (x : number) : bool :=
  match x with
  | NaN => false
  | Infinity negative => negb negative
  | Int z => 0 <? z
  end.

(** [Boolean(x)] of a number *)
Definition truthyNumber (x : number) : bool :=
  match x with
  | NaN => false
  | Infinity _ => true
  | Int z => negb (z =? 0)
  end.

(** [Boolean(s)] of a string *)
Definition truthy (s : string) : bool := negb (String.eqb s EmptyString).

(** [Boolean(x)] of a string that may be [undefined] *)
Definition given (x : option string) : bool := negb (falsy x).

End JSText.

(** ** Shared helpers ([src/utils/helpers.ts]) *)

Module Helpers.
Import JS JSText.

Record TextContent : Type := { type : string; text : string }.

Record McpToolResponse : Type := {
  content : list TextContent;
  isError : option bool;
}.

Definition ok (text : string) : McpToolResponse :=
  {| content := [{| type := "text"; text := text |}]; isError := None |}.

Definition err (text : string) : McpToolResponse :=
  {| content := [{| type := "text"; text := text |}]; isError := Some true |}.

(** [timestamp()], given [new Date().toISOString()]. *)
Definition timestamp (isoNow : string) : string :=
  replaceAll (fun c => Ascii.eqb c ":" || Ascii.eqb c ".") "-" isoNow.

Section FileSystem.

(** [fs.existsSync] and [fs.mkdirSync(d, { recursive: true })] *)
Variable existsSync : string -> bool.
Variable mkdirSync : string -> completion unit.

Definition ensureDir (p : string) : completion unit :=
  let d := NodePath.dirname p in
  if negb (existsSync d) then mkdirSync d else Normal tt.

End FileSystem.

End Helpers.

(** ** Windows provider: the pure helpers ([src/utils/windows-provider.ts]) *)

Module WindowsProvider.
Import JS JSText.

Definition dotNetFormat (format : option string) : string :=
  match format with
  | Some f => if String.eqb f "jpg" then "Jpeg" else "Png"
  | None => "Png"
  end.

Definition isApostrophe (c : ascii) : bool := Ascii.eqb c apostrophe.

(** The class of the second replacement: grave accent, dollar and double
    quote. *)
Definition interpolates (c : ascii) : bool :=
  Ascii.eqb c graveAccent || Ascii.eqb c dollar || Ascii.eqb c doubleQuote.

Definition twoApostrophes : string :=
  String apostrophe (String apostrophe EmptyString).

Definition escapePath (p : string) : string :=
  replaceAll isApostrophe twoApostrophes p.

Definition escapeString (s : string) : string :=
  replaceAll interpolates EmptyString (replaceAll isApostrophe twoApostrophes s).

End WindowsProvider.

(** ** macOS window lookup ([src/utils/macos.ts]) *)

Module MacOS.
Import JS JSText.

(** [[a-zA-Z0-9 \-_]] *)
Definition isSafeChar (c : ascii) : bool :=
  between 97 122 c || between 65 90 c || isDigit c
  || Ascii.eqb c " " || Ascii.eqb c "-" || Ascii.eqb c "_".

(** [SAFE_APP_NAME_PATTERN.test(s)], the pattern being
    [/^[a-zA-Z0-9 \-_]+$/] *)
Definition SAFE_APP_NAME_PATTERN (s : string) : bool :=
  negb (String.eqb s EmptyString) && allChars isSafeChar s.

(** [CommandExecutor.execFile(command, args)], awaited: the [stdout]. *)
Definition CommandExecutor : Type := string -> list string -> completion string.

(** The Swift program sent to the executor, around the lower-cased name. *)
Definition swiftProgram (name : string) : string :=
  "import CoreGraphics;if let l=CGWindowListCopyWindowInfo(.optionOnScreenOnly,0)as?[[String:Any]]{for w in l{if let n=w[kCGWindowOwnerName as String]as?String,let i=w[kCGWindowNumber as String]as?Int,n.lowercased()=="
  ++ String doubleQuote name
  ++ String doubleQuote "{print(i);exit(0)}}};print(-1)".

Section Lookup.

(** [String.prototype.normalize('NFC')] *)
Variable normalizeNFC : string -> string.

(** [getWindowId]: the lines written with [console.error], and the
    completion of the promise it returns. *)
Definition getWindowId (appName : string) (executor : CommandExecutor)
  : list string * completion (option number) :=
  let normalized := normalizeNFC appName in
  if negb (SAFE_APP_NAME_PATTERN normalized) then
    (["Security: Rejected unsafe app name: " ++ normalized], Normal None)
  else
    ([],
     tryCatch
       (let swift := swiftProgram (toLowerCase normalized) in
        stdout <- executor "swift" ["-e"; swift] ;;
        let id := parseInt10 (trim stdout) in
        Normal (if positive id then Some id else None))
       (fun _ => Normal None)).

End Lookup.

End MacOS.

(** ** Reading back what the helpers write *)

Module Quoting.
Import JS JSText.

(** A body between apostrophes read with one rule: two apostrophes
    (U+0027) stand for one, and an apostrophe that is not doubled ends the
    reading with [None].  Every other character, whatever a shell makes of
    it, stands for itself. *)
Fixpoint unquote (body : string) : option string :=
  match body with
  | EmptyString => Some EmptyString
  | String c r =>
      if Ascii.eqb c apostrophe then
        match r with
        | String c' r' =>
            if Ascii.eqb c' apostrophe
            then option_map (String apostrophe) (unquote r')
            else None
        | EmptyString => None
        end
      else option_map (String c) (unquote r)
  end.

(** Lower-case letters, digits, space, hyphen and underscore. *)
Definition isPlainLower (c : ascii) : bool :=
  between 97 122 c || isDigit c
  || Ascii.eqb c " " || Ascii.eqb c "-" || Ascii.eqb c "_".

(** The executor of [tests/mocks/child-process.ts]: the first response
    whose pattern occurs in the command line. *)
Fixpoint mockResponse (key : string) (responses : list (string * completion string))
  : completion string :=
  match responses with
  | [] => Throw (ErrorObject ("Unexpected command: " ++ key))
  | (pattern, result) :: more =>
      if includes pattern key then result else mockResponse key more
  end.

Definition createMockExecutor (responses : list (string * completion string))
  : MacOS.CommandExecutor :=
  fun command args =>
    mockResponse (command ++ " " ++ String.concat " " args) responses.

End Quoting.

(** ** Methods with effects *)

(** A method performs actions and waits; it reads and writes the fields of
    its object (or the variables of its module) and may throw.  Its model
    takes the state and gives the actions performed, in order, the
    completion and the new state.  What the world answers to an action is
    given where the action is performed. *)
Module Effects.
Import JS.

Section Monad.

(** The actions, and the state. *)
Variable Act S : Type.

Definition M (A : Type) : Type := S -> list Act * completion A * S.

Definition ret {A : Type} (a : A) : M A := fun s => ([], Normal a, s).

(** [throw new Error(message)] *)
Definition throw {A : Type} (message : string) : M A :=
  fun s => ([], Throw (ErrorObject message), s).

Definition mbind {A B : Type} (m : M A) (k : A -> M B) : M B :=
  fun s =>
    let '(t1, r, s1) := m s in
    match r with
    | Throw e => (t1, Throw e, s1)
    | Normal a => let '(t2, r2, s2) := k a s1 in ((t1 ++ t2)%list, r2, s2)
    end.

(** [try { m } catch (e) { handler }] *)
Definition mtry {A : Type} (m : M A) (handler : thrown -> M A) : M A :=
  fun s =>
    let '(t1, r, s1) := m s in
    match r with
    | Normal a => (t1, Normal a, s1)
    | Throw e => let '(t2, r2, s2) := handler e s1 in ((t1 ++ t2)%list, r2, s2)
    end.

(** [try { m } finally { cleanup }]: the cleanup runs however [m]
    completes; the completion is that of [m] unless the cleanup throws. *)
Definition mfinally {A : Type} (m : M A) (cleanup : M unit) : M A :=
  fun s =>
    let '(t1, r, s1) := m s in
    let '(t2, r2, s2) := cleanup s1 in
    ((t1 ++ t2)%list,
     match r2 with
     | Normal _ => r
     | Throw e => Throw e
     end,
     s2).

Definition get : M S := fun s => ([], Normal s, s).
Definition put (s' : S) : M unit := fun _ => ([], Normal tt, s').

(** An action, with what the world answers to it. *)
Definition perform {A : Type} (a : Act) (answer : completion A) : M A :=
  fun s => ([a], answer, s).

End Monad.

Arguments ret {Act S A} a.
Arguments throw {Act S A} message.
Arguments mbind {Act S A B} m k.
Arguments mtry {Act S A} m handler.
Arguments mfinally {Act S A} m cleanup.
Arguments get {Act S}.
Arguments put {Act S} s'.
Arguments perform {Act S A} a answer.

(** What a method did, how it completed and the state it left. *)
Definition trace {Act S A : Type} (r : list Act * completion A * S)
  : list Act := fst (fst r).
Definition outcome {Act S A : Type} (r : list Act * completion A * S)
  : completion A := snd (fst r).
Definition final {Act S A : Type} (r : list Act * completion A * S)
  : S := snd r.

(** Methods whose actions all satisfy a test, and methods that leave the
    state alone. *)
Definition every {Act S A : Type} (P : Act -> bool) (m : M Act S A) : Prop :=
  forall s, forallb P (trace (m s)) = true.

Definition still {Act S A : Type} (m : M Act S A) : Prop :=
  forall s, final (m s) = s.

End Effects.

Notation "x <~ c1 ;; c2" := (Effects.mbind c1 (fun x => c2))
  (at level 61, c1 at next level, right associativity).
Notation "c1 ;;; c2" := (Effects.mbind c1 (fun _ => c2))
  (at level 61, right associativity).

(** ** Provider interface and Linux provider
       ([src/utils/screenshot-provider.ts], [src/utils/linux-provider.ts]) *)

Module Provider.
Import JS JSText Effects.

Section Options.

Variable Num : Type.

Record CaptureOptions : Type := {
  outputPath : string;
  format : option string;
  includeCursor : option bool;
  delay : option Num;
  display : option Num;
}.

Record WindowTarget : Type := {
  windowId : option Num;
  windowName : option string;
}.

Record RegionTarget : Type := { x : Num; y : Num; width : Num; height : Num }.

(** [Boolean(n)] and [n > 0] *)
Variable numTruthy : Num -> bool.
Variable numPositive : Num -> bool.

(** [opts.delay && opts.delay > 0] *)
Definition delayed (opts : CaptureOptions) : option Num :=
  match delay opts with
  | Some d => if numTruthy d && numPositive d then Some d else None
  | None => None
  end.

(** [Boolean(opts.windowId)], [Boolean(opts.windowName)] *)
Definition hasWindowId (target : WindowTarget) : bool :=
  match windowId target with
  | Some n => numTruthy n
  | None => false
  end.

Definition hasWindowName (target : WindowTarget) : bool :=
  given (windowName target).

End Options.

Arguments outputPath {Num} c.
Arguments format {Num} c.
Arguments includeCursor {Num} c.
Arguments delay {Num} c.
Arguments display {Num} c.
Arguments windowId {Num} w.
Arguments windowName {Num} w.
Arguments x {Num} r.
Arguments y {Num} r.
Arguments width {Num} r.
Arguments height {Num} r.
Arguments delayed {Num} numTruthy numPositive opts.
Arguments hasWindowId {Num} numTruthy target.
Arguments hasWindowName {Num} target.

(** What a provider does: it waits and it runs commands. *)
Inductive action (Num : Type) : Type :=
| Sleep (seconds : Num)                         (* [sleep(n)] *)
| SleepBriefly                                  (* [sleep(0.3)] *)
| Exec (command : string) (args : list string). (* [execFileAsync(c, args)] *)

Arguments Sleep {Num} seconds.
Arguments SleepBriefly {Num}.
Arguments Exec {Num} command args.

Section Helpers.

Variable Num S : Type.

(** [process.platform] *)
Variable platform : string.

(** What a command answers: the [stdout] of [execFileAsync], awaited. *)
Variable execFileAsync : string -> list string -> completion string.

Definition sleep (seconds : Num) : M (action Num) S unit :=
  perform (Sleep seconds) (Normal tt).

Definition sleepBriefly : M (action Num) S unit :=
  perform SleepBriefly (Normal tt).

Definition exec (command : string) (args : list string)
  : M (action Num) S string :=
  perform (Exec command args) (execFileAsync command args).

(** [commandExists] *)
Definition commandExists (cmd : string) : M (action Num) S bool :=
  mtry
    (let whichCmd := if String.eqb platform "win32" then "where" else "which" in
     exec whichCmd [cmd] ;;; ret true)
    (fun _ => ret false).

End Helpers.

Arguments sleep {Num S} seconds.
Arguments sleepBriefly {Num S}.
Arguments exec {Num S} execFileAsync command args.
Arguments commandExists {Num S} platform execFileAsync cmd.

End Provider.

Module LinuxProvider.
Import JS JSText Effects Provider.

Inductive LinuxBackend : Type :=
| gnome_screenshot | spectacle | scrot | maim | grim | import_.

(** The string a backend stands for: the name of its command. *)
Definition backendName (backend : LinuxBackend) : string :=
  match backend with
  | gnome_screenshot => "gnome-screenshot"
  | spectacle => "spectacle"
  | scrot => "scrot"
  | maim => "maim"
  | grim => "grim"
  | import_ => "import"
  end.

(** The private fields [_backend] and [_detected]. *)
Record fields : Type := { _backend : option LinuxBackend; _detected : bool }.

(** A provider as [new LinuxProvider()] makes it. *)
Definition fresh : fields := {| _backend := None; _detected := false |}.

Definition candidates : list LinuxBackend :=
  [maim; scrot; gnome_screenshot; spectacle; grim; import_].

(** The fields while the look-ups of a first [detectBackend] are awaited:
    the flag is set before the first look-up, the backend after the last
    one.  A method started then finds the provider in this state. *)
Definition detecting : fields := {| _backend := None; _detected := true |}.

(** A method is modelled as run to its end, from the fields it finds to
    the fields it leaves: no other method of the same provider runs while
    its commands are awaited. *)
Section Methods.

Variable Num : Type.
Variable numTruthy : Num -> bool.
Variable numPositive : Num -> bool.

(** [String(n)], which is also what a template literal writes for [n]. *)
Variable showNum : Num -> string.

Variable platform : string.
Variable execFileAsync : string -> list string -> completion string.

Notation M := (Effects.M (action Num) fields).
Notation run := (exec execFileAsync).

(** The loop of [detectBackend] over the candidates. *)
Fixpoint probe (cmds : list LinuxBackend) : M unit :=
  match cmds with
  | [] => ret tt
  | cmd :: more =>
      found <~ commandExists platform execFileAsync (backendName cmd) ;;
      if found then
        s <~ get ;; put {| _backend := Some cmd; _detected := _detected s |}
      else probe more
  end.

Definition detectBackend : M unit :=
  s <~ get ;;
  if _detected s then ret tt
  else
    put {| _backend := _backend s; _detected := true |} ;;;
    probe candidates.

Definition isAvailable : M bool :=
  detectBackend ;;;
  s <~ get ;;
  ret (match _backend s with Some _ => true | None => false end).

Definition getBackend : M LinuxBackend :=
  detectBackend ;;;
  s <~ get ;;
  match _backend s with
  | None =>
      throw "No screenshot tool found. Install one of: maim, scrot, gnome-screenshot, spectacle, grim, or ImageMagick (import)."
  | Some backend => ret backend
  end.

(** [findXWindowId] *)
Definition findXWindowId (name : string) : M (option string) :=
  mtry
    (stdout <~ run "xdotool" ["search"; "--name"; name] ;;
     let ids := filter truthy (split lineFeed (trim stdout)) in
     ret (hd_error ids))
    (fun _ => ret None).

(** [focusWindow] *)
Definition focusWindow (windowId : string) : M unit :=
  mtry
    (run "xdotool" ["windowactivate"; "--sync"; windowId] ;;; sleepBriefly)
    (fun _ => ret tt).

(** [if (opts.delay && opts.delay > 0) await sleep(opts.delay)] *)
Definition wait (opts : CaptureOptions Num) : M unit :=
  match delayed numTruthy numPositive opts with
  | Some d => sleep d
  | None => ret tt
  end.

Definition captureFullscreen (opts : CaptureOptions Num) : M unit :=
  backend <~ getBackend ;;
  wait opts ;;;
  match backend with
  | gnome_screenshot => run "gnome-screenshot" ["-f"; outputPath opts] ;;; ret tt
  | spectacle =>
      run "spectacle" ["-b"; "-n"; "-f"; "-o"; outputPath opts] ;;; ret tt
  | scrot => run "scrot" [outputPath opts] ;;; ret tt
  | maim => run "maim" [outputPath opts] ;;; ret tt
  | grim => run "grim" [outputPath opts] ;;; ret tt
  | import_ => run "import" ["-window"; "root"; outputPath opts] ;;; ret tt
  end.

(** [if (xWindowId) await this.focusWindow(xWindowId)] *)
Definition focusIfKnown (xWindowId : option string) : M unit :=
  if given xWindowId then focusWindow (template xWindowId) else ret tt.

Definition captureWindow (opts : CaptureOptions Num)
  (target : WindowTarget Num) : M unit :=
  backend <~ getBackend ;;
  wait opts ;;;
  xWindowId <~
    (if hasWindowName target && negb (hasWindowId numTruthy target) then
       findXWindowId (template (windowName target))
     else if hasWindowId numTruthy target then
       ret (option_map showNum (windowId target))
     else ret None) ;;
  match backend with
  | gnome_screenshot =>
      focusIfKnown xWindowId ;;;
      run "gnome-screenshot" ["-w"; "-f"; outputPath opts] ;;; ret tt
  | spectacle =>
      focusIfKnown xWindowId ;;;
      run "spectacle" ["-b"; "-n"; "-a"; "-o"; outputPath opts] ;;; ret tt
  | scrot =>
      focusIfKnown xWindowId ;;;
      run "scrot" ["-u"; outputPath opts] ;;; ret tt
  | maim =>
      if given xWindowId then
        run "maim" ["-i"; template xWindowId; outputPath opts] ;;; ret tt
      else
        throw "maim requires a window ID or xdotool for window-by-name capture"
  | grim =>
      throw "Window capture is not supported on Wayland with grim. Use fullscreen or region mode."
  | import_ =>
      if given xWindowId then
        run "import" ["-window"; template xWindowId; outputPath opts] ;;; ret tt
      else throw "import requires a window ID for window capture"
  end.

Definition captureRegion (opts : CaptureOptions Num)
  (region : RegionTarget Num) : M unit :=
  backend <~ getBackend ;;
  wait opts ;;;
  let geometry :=
    showNum (width region) ++ "x" ++ showNum (height region)
    ++ "+" ++ showNum (x region) ++ "+" ++ showNum (y region) in
  match backend with
  | gnome_screenshot =>
      throw ("gnome-screenshot does not support region capture with coordinates. "
             ++ "Install maim or scrot for region support.")
  | spectacle =>
      throw ("spectacle does not support non-interactive region capture. "
             ++ "Install maim or scrot for region support.")
  | scrot =>
      run "scrot"
        ["-a";
         showNum (x region) ++ "," ++ showNum (y region) ++ ","
         ++ showNum (width region) ++ "," ++ showNum (height region);
         outputPath opts] ;;; ret tt
  | maim => run "maim" ["-g"; geometry; outputPath opts] ;;; ret tt
  | grim =>
      run "grim"
        ["-g";
         showNum (x region) ++ "," ++ showNum (y region) ++ " "
         ++ showNum (width region) ++ "x" ++ showNum (height region);
         outputPath opts] ;;; ret tt
  | import_ =>
      run "import" ["-crop"; geometry; "-window"; "root"; outputPath opts] ;;; ret tt
  end.

End Methods.

End LinuxProvider.

(** Notions used to state what the Linux provider does. *)
Module LinuxNotions.
Import JS JSText Effects Provider LinuxProvider.

Section Observations.

Variable Num : Type.
Variable platform : string.
Variable execFileAsync : string -> list string -> completion string.

(** The command that looks a command up on the PATH. *)
Definition lookupCommand : string :=
  if String.eqb platform "win32" then "where" else "which".

(** The look-up of a backend's command succeeds. *)
Definition installed (backend : LinuxBackend) : bool :=
  match execFileAsync lookupCommand [backendName backend] with
  | Normal _ => true
  | Throw _ => false
  end.

(** The backends looked up: those before the first installed one, and it. *)
Fixpoint probed (cmds : list LinuxBackend) : list LinuxBackend :=
  match cmds with
  | [] => []
  | cmd :: more => cmd :: (if installed cmd then [] else probed more)
  end.

Definition lookup (backend : LinuxBackend) : action Num :=
  Exec lookupCommand [backendName backend].

(** Calls of [isAvailable] made one after the other, each awaited before
    the next, each with what the look-ups would answer at its time: what
    each call ran and answered. *)
Fixpoint inTurn (calls : list (string -> list string -> completion string))
  (s : fields) : list (list (action Num) * completion bool) :=
  match calls with
  | [] => []
  | answers :: more =>
      let r := isAvailable Num platform answers s in
      (trace r, outcome r) :: inTurn more (final r)
  end.

End Observations.

(** The programs the provider runs. *)
Definition programs : list string :=
  ["which"; "where"; "xdotool";
   "maim"; "scrot"; "gnome-screenshot"; "spectacle"; "grim"; "import"].

Definition fixedProgram {Num : Type} (a : action Num) : bool :=
  match a with
  | Exec command _ => existsb (String.eqb command) programs
  | _ => true
  end.

(** Statements about every run of a method. *)
Section Runs.

Variable Num S A : Type.

(** A method that runs fixed programs only. *)
Definition onlyFixed (m : M (action Num) S A) : Prop :=
  forall s, forallb fixedProgram (trace (m s)) = true.

(** A method that leaves the fields alone. *)
Definition quiet (m : M (action Num) S A) : Prop := forall s, final (m s) = s.

(** A trace that ends with the command of [backend] writing to [path]. *)
Definition writesLast (backend : LinuxBackend) (path : string)
  (t : list (action Num)) : Prop :=
  exists before args,
    t = (before ++ [Exec (backendName backend) (args ++ [path])])%list.

(** A quiet method whose last command, when it completes, is that one. *)
Definition ends (backend : LinuxBackend) (path : string)
  (m : M (action Num) S A) : Prop :=
  forall s,
    final (m s) = s
    /\ forall a, outcome (m s) = Normal a -> writesLast backend path (trace (m s)).

End Runs.

Arguments onlyFixed {Num S A} m.
Arguments quiet {Num S A} m.
Arguments writesLast {Num} backend path t.
Arguments ends {Num S A} backend path m.

(** The trace ends with the command of the backend in the fields, writing
    to [path]. *)
Definition writesTo {Num : Type} (s : LinuxProvider.fields) (path : string)
  (t : list (action Num)) : Prop :=
  exists backend,
    LinuxProvider._backend s = Some backend /\ writesLast backend path t.

(** The text before the first line feed. *)
Fixpoint firstLine (s : string) : string :=
  match s with
  | EmptyString => EmptyString
  | String c r =>
      if Ascii.eqb c lineFeed then EmptyString else String c (firstLine r)
  end.

(** The first line of the output of [xdotool search], white space around
    the output apart; nothing when the output is blank. *)
Definition firstId (stdout : string) : option string :=
  if allChars isWhiteSpace stdout then None
  else Some (firstLine (trim stdout)).

End LinuxNotions.

(** A system on which every command succeeds and prints nothing, and the
    numbers of the options as integers. *)
Module LinuxExample.
Import JS Provider.

Definition everyCommand : string -> list string -> completion string :=
  fun _ _ => Normal EmptyString.

Definition intTruthy (n : Z) : bool := negb (n =? 0).
Definition intPositive (n : Z) : bool := 0 <? n.

Definition toTmp : CaptureOptions Z :=
  {| outputPath := "/tmp/shot.png"; format := None; includeCursor := None;
     delay := Some 2; display := None |}.

Definition noWindow : WindowTarget Z :=
  {| windowId := None; windowName := None |}.

Definition corner : RegionTarget Z :=
  {| x := 0; y := 0; width := 100; height := 100 |}.

End LinuxExample.

(** ** Configuration and module state
       ([src/config/index.ts], [src/config/runtime.ts]) *)

Module Config.
Import JS JSText NodePath.

Definition MAX_CONCURRENT_SCREENSHOTS : Z := 3.

Section Environment.

(** [process.env.HOME] *)
Variable HOME : option string.

Definition homeDir : string := if falsy HOME then "/tmp" else template HOME.

Definition ALLOWED_OUTPUT_DIRS : list string :=
  [join [homeDir; "Desktop"; "Screenshots"];
   "/tmp";
   join [homeDir; "Downloads"];
   join [homeDir; "Documents"]].

(** [defaultOutDir] of [runtime.ts] *)
Definition defaultOutDir : string := join [homeDir; "Desktop"; "Screenshots"].

End Environment.

End Config.

Module Runtime.
Import JS JSText Effects.

(** What the tools do to the world outside the browser. *)
Inductive fileAction : Type :=
| Mkdir (dir : string)        (* [mkdirSync(dir, { recursive: true })] *)
| EnsureDir (path : string).  (* [ensureDir(path)] *)

Section State.

(** The callers a semaphore can hold in its queue. *)
Variable W : Type.

(** The variables of the module: the only semaphore of the code base, and
    the flag of the lazy creation of the default directory. *)
Record globals : Type := {
  puppeteerSemaphore : Semaphore.Semaphore W;
  _defaultDirCreated : bool;
}.

(** The module as loaded. *)
Definition loaded : globals :=
  {| puppeteerSemaphore := Semaphore.create Config.MAX_CONCURRENT_SCREENSHOTS;
     _defaultDirCreated := false |}.

Variable Act : Type.
Variable file : fileAction -> Act.

Variable HOME : option string.
Variable mkdirSync : string -> completion unit.

Definition ensureDefaultDirectory : M Act globals unit :=
  g <~ get ;;
  if negb (_defaultDirCreated g) then
    perform (file (Mkdir (Config.defaultOutDir HOME)))
      (mkdirSync (Config.defaultOutDir HOME)) ;;;
    g <~ get ;;
    put {| puppeteerSemaphore := puppeteerSemaphore g;
           _defaultDirCreated := true |}
  else ret tt.

End State.

Arguments puppeteerSemaphore {W} g.
Arguments _defaultDirCreated {W} g.
Arguments ensureDefaultDirectory {W Act} file HOME mkdirSync.

End Runtime.

(** ** The take_screenshot tool ([src/tools/take-screenshot.ts]) *)

Module TakeScreenshot.
Import JS JSText Effects Helpers Runtime.

(** *** The request listener *)

(** A request as the listener uses it: what [isNavigationRequest()] and
    [url()] give, and how a call of [continue()] and of [abort(code)]
    completes.  The listener does not await these two calls: the
    completion is that of the call itself, not of the promise it
    returns. *)
Record HTTPRequest : Type := {
  isNavigationRequest : bool;
  req_url : string;
  continue : completion unit;
  abort : string -> completion unit;
}.

(** The calls the listener makes on the request. *)
Inductive decision : Type :=
| Continue
| Abort (errorCode : string).

Section Listener.

Variable newURL : string -> completion Url.URL.

(** The resolver [validateUrl] uses when it is given none. *)
Variable defaultResolver : Url.DnsResolver.

(** The listener registered by [page.on('request', ...)], for the URL the
    tool was called with. *)
Definition onRequest (url : string) (req : HTTPRequest)
  : M decision unit unit :=
  mtry
    (if isNavigationRequest req then
       let reqUrl := req_url req in
       if String.eqb reqUrl url then
         perform Continue (continue req)
       else
         redirectValidation <~
           (fun s => ([], Url.validateUrl newURL reqUrl defaultResolver, s)) ;;
         if negb (Url.valid redirectValidation) then
           perform (Abort "blockedbyclient") (abort req "blockedbyclient")
         else perform Continue (continue req)
     else perform Continue (continue req))
    (fun _ =>
       mtry (perform (Abort "failed") (abort req "failed"))
         (fun _ => ret tt)).

End Listener.

(** *** The tool *)

Section Tool.

(** Numbers of the arguments: only [Boolean(n)] is used. *)
Variable Num : Type.
Variable numTruthy : Num -> bool.

Variable W : Type.

Record arguments : Type := {
  url : string;
  width : option Num;
  height : option Num;
  fullPage : option bool;
  selector : option string;
  waitForSelector : option string;
  waitForTimeout : option Num;
  outputPath : option string;
}.

(** What the tool does, in the order it does it. *)
Inductive action : Type :=
| File (a : fileAction)
| TryAcquire (granted : bool)         (* [puppeteerSemaphore.tryAcquire()] *)
| Release (resumed : option W)        (* [puppeteerSemaphore.release()] *)
| Launch (args : list string)         (* [puppeteer.launch] *)
| NewPage
| SetViewport (width height : Num)
| SetRequestInterception
| OnRequest                           (* [page.on('request', listener)] *)
| Goto (url : string)
| WaitForSelector (selector : string)
| Timeout (ms : Num)                  (* the [setTimeout] promise *)
| Query (selector : string)           (* [page.$(selector)] *)
| ElementScreenshot (path : string)
| PageScreenshot (path : string) (fullPage : bool)
| Close.                              (* [browser.close()] *)

(** What the browser answers; [query] tells whether an element was found. *)
Record Puppeteer : Type := {
  launch : list string -> completion unit;
  newPage : completion unit;
  setViewport : Num -> Num -> completion unit;
  setRequestInterception : completion unit;
  goto : string -> completion unit;
  page_waitForSelector : string -> completion unit;
  query : string -> completion bool;
  elementScreenshot : string -> completion unit;
  pageScreenshot : string -> bool -> completion unit;
  close : completion unit;
}.

(** The variables of the module and the variable [browser] of the call:
    whether it holds a browser. *)
Record frame : Type := {
  module : globals W;
  browser : bool;
}.

Notation M := (Effects.M action frame).

(** A function of the module, called from the tool. *)
Definition onModule {A : Type} (m : Effects.M action (globals W) A) : M A :=
  fun f =>
    let '(t, r, g) := m (module f) in
    (t, r, {| module := g; browser := browser f |}).

Definition setBrowser (b : bool) : M unit :=
  f <~ get ;; put {| module := module f; browser := b |}.

(** [puppeteerSemaphore.tryAcquire()] and [puppeteerSemaphore.release()] *)
Definition tryAcquire : Effects.M action (globals W) bool :=
  fun g =>
    let (granted, s) := Semaphore.tryAcquire (puppeteerSemaphore g) in
    ([TryAcquire granted], Normal granted,
     {| puppeteerSemaphore := s; _defaultDirCreated := _defaultDirCreated g |}).

Definition release : Effects.M action (globals W) unit :=
  fun g =>
    let (next, s) := Semaphore.release (puppeteerSemaphore g) in
    ([Release next], Normal tt,
     {| puppeteerSemaphore := s; _defaultDirCreated := _defaultDirCreated g |}).

Variable HOME : option string.
Variable cwd : string.

(** [new Date().toISOString()] at the call *)
Variable isoNow : string.

Variable newURL : string -> completion Url.URL.
Variable defaultResolver : Url.DnsResolver.
Variable realpath : Path.FileSystem.
Variable existsSync : string -> bool.
Variable mkdirSync : string -> completion unit.
Variable puppeteer : Puppeteer.

(** [width && height] *)
Definition viewport (a : arguments) : option (Num * Num) :=
  match width a, height a with
  | Some w, Some h => if numTruthy w && numTruthy h then Some (w, h) else None
  | _, _ => None
  end.

(** [Boolean(waitForTimeout)] *)
Definition pause (a : arguments) : option Num :=
  match waitForTimeout a with
  | Some ms => if numTruthy ms then Some ms else None
  | None => None
  end.

(** [fullPage || false] *)
Definition wholePage (a : arguments) : bool :=
  match fullPage a with
  | Some b => b
  | None => false
  end.

(** The arguments of the browser. *)
Definition browserArgs (urlValidation : Url.UrlValidationResult)
  : list string :=
  List.app ["--no-sandbox"; "--disable-setuid-sandbox"]
    (if given (Url.resolvedIp urlValidation)
        && given (Url.hostname urlValidation)
     then ["--host-resolver-rules=MAP "
           ++ template (Url.hostname urlValidation) ++ " "
           ++ template (Url.resolvedIp urlValidation)]
     else []).

(** The body of the [try]. *)
Definition capture (a : arguments) (urlValidation : Url.UrlValidationResult)
  (dest : string) : M McpToolResponse :=
  perform (Launch (browserArgs urlValidation))
    (launch puppeteer (browserArgs urlValidation)) ;;;
  setBrowser true ;;;
  perform NewPage (newPage puppeteer) ;;;
  match viewport a with
  | Some (w, h) => perform (SetViewport w h) (setViewport puppeteer w h)
  | None => ret tt
  end ;;;
  perform SetRequestInterception (setRequestInterception puppeteer) ;;;
  perform OnRequest (Normal tt) ;;;
  perform (Goto (url a)) (goto puppeteer (url a)) ;;;
  (if given (waitForSelector a) then
     perform (WaitForSelector (template (waitForSelector a)))
       (page_waitForSelector puppeteer (template (waitForSelector a)))
   else ret tt) ;;;
  match pause a with
  | Some ms => perform (Timeout ms) (Normal tt)
  | None => ret tt
  end ;;;
  perform (File (EnsureDir dest)) (ensureDir existsSync mkdirSync dest) ;;;
  if given (selector a) then
    el <~ perform (Query (template (selector a)))
            (query puppeteer (template (selector a))) ;;
    if negb el then
      ret (err ("Element not found: " ++ template (selector a)))
    else
      perform (ElementScreenshot dest) (elementScreenshot puppeteer dest) ;;;
      ret (ok ("Screenshot saved: " ++ dest))
  else
    perform (PageScreenshot dest (wholePage a))
      (pageScreenshot puppeteer dest (wholePage a)) ;;;
    ret (ok ("Screenshot saved: " ++ dest)).

(** The [finally]. *)
Definition cleanup : M unit :=
  f <~ get ;;
  (if browser f then
     mtry (perform Close (close puppeteer)) (fun _ => ret tt)
   else ret tt) ;;;
  onModule release.

Definition pathConfig : Path.PathConfig :=
  {| Path.allowedOutputDirs := Config.ALLOWED_OUTPUT_DIRS HOME;
     Path.defaultOutDir := Config.defaultOutDir HOME |}.

(** From [let browser] to the end: the [try] with its [catch] and its
    [finally]. *)
Definition attempt (a : arguments) (urlValidation : Url.UrlValidationResult)
  (dest : string) : M McpToolResponse :=
  setBrowser false ;;;
  mfinally
    (mtry (capture a urlValidation dest)
       (fun e => ret (err ("Screenshot error: " ++ Url.errorMessage e))))
    cleanup.

(** The checks, and the attempt when they pass.  A result of the path
    validator that is valid holds a path, which is [dest]. *)
Definition checked (a : arguments) : M McpToolResponse :=
  urlValidation <~
    (fun f => ([], Url.validateUrl newURL (url a) defaultResolver, f)) ;;
  if negb (Url.valid urlValidation) then
    ret (err ("URL validation failed: " ++ template (Url.error urlValidation)))
  else
    let pathValidation :=
      Path.validateOutputPath cwd (outputPath a)
        ("screenshot-" ++ timestamp isoNow ++ ".png") pathConfig realpath in
    if negb (Path.valid pathValidation) then
      ret (err ("Output path validation failed: "
                ++ template (Path.error pathValidation)))
    else
      let dest := template (Path.path pathValidation) in
      granted <~ onModule tryAcquire ;;
      if negb granted then
        ret (err ("Concurrent screenshot limit reached (max "
                  ++ numToString Config.MAX_CONCURRENT_SCREENSHOTS ++ "). "
                  ++ "Please wait for existing screenshots to complete."))
      else attempt a urlValidation dest.

(** The tool, on the variables of a call. *)
Definition run (a : arguments) : M McpToolResponse :=
  onModule (ensureDefaultDirectory File HOME mkdirSync) ;;;
  checked a.

(** The tool as registered: a call of it on the module. *)
Definition take_screenshot (a : arguments)
  : Effects.M action (globals W) McpToolResponse :=
  fun g =>
    let '(t, r, f) := run a {| module := g; browser := false |} in
    (t, r, module f).

End Tool.

Arguments File {Num W} a.
Arguments TryAcquire {Num W} granted.
Arguments Release {Num W} resumed.
Arguments Launch {Num W} args.
Arguments NewPage {Num W}.
Arguments SetViewport {Num W} width height.
Arguments SetRequestInterception {Num W}.
Arguments OnRequest {Num W}.
Arguments Goto {Num W} url.
Arguments WaitForSelector {Num W} selector.
Arguments Timeout {Num W} ms.
Arguments Query {Num W} selector.
Arguments ElementScreenshot {Num W} path.
Arguments PageScreenshot {Num W} path fullPage.
Arguments Close {Num W}.
Arguments module {W} f.
Arguments browser {W} f.

End TakeScreenshot.

(** Notions used to state what the take_screenshot tool does. *)
Module ToolNotions.
Import JS JSText Effects TakeScreenshot.

Section Listener.

Variable newURL : string -> completion Url.URL.
Variable defaultResolver : Url.DnsResolver.

(** [validateUrl] accepts the URL. *)
Definition accepts (u : string) : bool :=
  match Url.validateUrl newURL u defaultResolver with
  | Normal v => Url.valid v
  | Throw _ => false
  end.

(** What is decided for a request: a navigation to another URL than the
    one of the call, which [validateUrl] does not accept, is aborted;
    every other request is continued. *)
Definition verdict (url : string) (req : HTTPRequest) : decision :=
  if isNavigationRequest req
     && negb (String.eqb (req_url req) url)
     && negb (accepts (req_url req))
  then Abort "blockedbyclient"
  else Continue.

(** What the request answers to a call. *)
Definition answer (req : HTTPRequest) (d : decision) : completion unit :=
  match d with
  | Continue => continue req
  | Abort errorCode => abort req errorCode
  end.

End Listener.

Section Tool.

Variable Num W : Type.

(** The actions on the semaphore and on the life of the browser. *)
Definition isLifecycle (a : action Num W) : bool :=
  match a with
  | TryAcquire _ | Release _ | Launch _ | Close => true
  | _ => false
  end.

Definition lifecycle (t : list (action Num W)) : list (action Num W) :=
  filter isLifecycle t.

(** The actions on the semaphore. *)
Definition onSemaphore (a : action Num W) : bool :=
  match a with
  | TryAcquire _ | Release _ => true
  | _ => false
  end.

(** A screenshot call for [dest] that the browser completed. *)
Definition taken (puppeteer : Puppeteer Num) (dest : string)
  (a : action Num W) : Prop :=
  (a = ElementScreenshot dest
   /\ elementScreenshot Num puppeteer dest = Normal tt)
  \/ (exists whole,
        a = PageScreenshot dest whole
        /\ pageScreenshot Num puppeteer dest whole = Normal tt).

(** A method that answers without an error only with the message that
    [dest] was saved, and only when the last thing it did is a screenshot
    call for [dest] that the browser completed. *)
Definition saves {S : Type} (puppeteer : Puppeteer Num) (dest : string)
  (m : M (action Num W) S Helpers.McpToolResponse) : Prop :=
  forall s resp,
    outcome (m s) = Normal resp ->
    Helpers.isError resp = None ->
    resp = Helpers.ok ("Screenshot saved: " ++ dest)
    /\ exists before shot,
         trace (m s) = (before ++ [shot])%list /\ taken puppeteer dest shot.

End Tool.

Arguments isLifecycle {Num W} a.
Arguments lifecycle {Num W} t.
Arguments onSemaphore {Num W} a.
Arguments taken {Num W} puppeteer dest a.
Arguments saves {Num W S} puppeteer dest m.

End ToolNotions.

(** A call of the tool on a browser that does everything it is asked, for
    a page of the table of known URLs. *)
Module ToolExample.
Import JS TakeScreenshot.

Definition working : Puppeteer Z :=
  {| launch := fun _ => Normal tt;
     newPage := Normal tt;
     setViewport := fun _ _ => Normal tt;
     setRequestInterception := Normal tt;
     goto := fun _ => Normal tt;
     page_waitForSelector := fun _ => Normal tt;
     query := fun _ => Normal true;
     elementScreenshot := fun _ => Normal tt;
     pageScreenshot := fun _ _ => Normal tt;
     close := Normal tt |}.

Definition page : arguments Z :=
  {| url := "https://example.com"; width := Some 800; height := Some 600;
     fullPage := None; selector := None; waitForSelector := None;
     waitForTimeout := None; outputPath := None |}.

Definition tool :=
  take_screenshot Z LinuxExample.intTruthy unit (Some "/home/user") "/"
    "2024-01-01T00:00:00.000Z" (Mocks.tableURL Mocks.knownURLs)
    Mocks.mockDns_public (Mocks.buildMockFs []) (fun _ => true)
    (fun _ => Normal tt) working.

End ToolExample.

(** ** macOS provider ([src/utils/macos-provider.ts]) *)

Module MacOSProvider.
Import JS JSText Effects Provider MacOS.

Section Methods.

Variable Num : Type.
Variable numTruthy : Num -> bool.
Variable numPositive : Num -> bool.
Variable showNum : Num -> string.
Variable platform : string.
Variable execFileAsync : string -> list string -> completion string.
Variable normalizeNFC : string -> string.

(** [String(x)] of a number that [getWindowId] gave. *)
Variable showNumber : number -> string.

Notation M := (Effects.M (action Num) unit).
Notation run := (exec execFileAsync).

Definition isAvailable : M bool :=
  commandExists platform execFileAsync "screencapture".

(** [buildBaseArgs] *)
Definition buildBaseArgs (opts : CaptureOptions Num) : list string :=
  (["-x"]
   ++ (match includeCursor opts with Some true => ["-C"] | _ => [] end)
   ++ (if given (format opts) then ["-t"; template (format opts)] else [])
   ++ (match delayed numTruthy numPositive opts with
       | Some d => ["-T"; showNum d]
       | None => []
       end)
   ++ (match display opts with
       | Some n => if numTruthy n then ["-D"; showNum n] else []
       | None => []
       end))%list.

Definition captureFullscreen (opts : CaptureOptions Num) : M unit :=
  let args := (buildBaseArgs opts ++ [outputPath opts])%list in
  run "screencapture" args ;;; ret tt.

(** [getWindowId(appName)] with the default executor, which runs the
    command with [execFileAsync]; the lines it logs are left out. *)
Definition lookupWindow (appName : string) : M (option number) :=
  let normalized := normalizeNFC appName in
  if negb (SAFE_APP_NAME_PATTERN normalized) then ret None
  else
    mtry
      (let swift := swiftProgram (toLowerCase normalized) in
       stdout <~ run "swift" ["-e"; swift] ;;
       let id := parseInt10 (trim stdout) in
       ret (if positive id then Some id else None))
      (fun _ => ret None).

(** The variable [wid]: the number of the options, or the number that
    [getWindowId] gave. *)
Definition truthyWid (wid : option (Num + number)) : bool :=
  match wid with
  | Some (inl n) => numTruthy n
  | Some (inr x) => truthyNumber x
  | None => false
  end.

Definition showWid (wid : option (Num + number)) : string :=
  match wid with
  | Some (inl n) => showNum n
  | Some (inr x) => showNumber x
  | None => "undefined"
  end.

Definition captureWindow (opts : CaptureOptions Num)
  (target : WindowTarget Num) : M unit :=
  let wid := option_map inl (windowId target) in
  wid <~
    (if negb (truthyWid wid) && hasWindowName target then
       found <~ lookupWindow (template (windowName target)) ;;
       ret (option_map inr found)
     else ret wid) ;;
  if negb (truthyWid wid) then
    throw (if hasWindowName target
           then "Window not found: " ++ template (windowName target)
           else "Window mode requires windowId or windowName")
  else
    let args :=
      (buildBaseArgs opts ++ ["-l"; showWid wid] ++ [outputPath opts])%list in
    run "screencapture" args ;;; ret tt.

Definition captureRegion (opts : CaptureOptions Num)
  (region : RegionTarget Num) : M unit :=
  let rectangle :=
    showNum (x region) ++ "," ++ showNum (y region) ++ ","
    ++ showNum (width region) ++ "," ++ showNum (height region) in
  let args :=
    (buildBaseArgs opts ++ ["-R"; rectangle] ++ [outputPath opts])%list in
  run "screencapture" args ;;; ret tt.

End Methods.

End MacOSProvider.

(** Notions used to state what the macOS provider does. *)
Module MacOSNotions.
Import JS JSText Effects Provider MacOS.

(** A run of [swift] on the program made for a name of lower-case
    letters, digits, spaces, hyphens and underscores. *)
Definition windowLookup {Num : Type} (a : action Num) : Prop :=
  exists name,
    allChars Quoting.isPlainLower name = true
    /\ a = Exec "swift" ["-e"; swiftProgram name].

(** Arguments of [screencapture] that start with [-x] and end with
    [path]. *)
Definition silentTo (path : string) (args : list string) : Prop :=
  exists middle, args = ("-x" :: middle ++ [path])%list.

End MacOSNotions.

(** ** The provider factory and the take_system_screenshot tool
       ([src/utils/screenshot-provider.ts],
        [src/tools/take-system-screenshot.ts]) *)

Module TakeSystemScreenshot.
Import JS JSText Effects Helpers Runtime Provider.

Section Tool.

Variable Num : Type.
Variable W : Type.

(** A provider as the tool uses it: its name, and what its methods answer
    when they are awaited. *)
Record ScreenshotProvider : Type := {
  platform : string;
  isAvailable : completion bool;
  captureFullscreen : CaptureOptions Num -> completion unit;
  captureWindow : CaptureOptions Num -> WindowTarget Num -> completion unit;
  captureRegion : CaptureOptions Num -> RegionTarget Num -> completion unit;
}.

(** The variables of the two modules. *)
Record state : Type := {
  module : globals W;
  _cachedProvider : option ScreenshotProvider;
}.

Inductive mode : Type := fullscreen | window | region.

Record arguments : Type := {
  arg_mode : mode;
  arg_windowId : option Num;
  arg_windowName : option string;
  arg_region : option (RegionTarget Num);
  arg_display : option Num;
  arg_includeCursor : option bool;
  arg_format : option string;
  arg_delay : option Num;
  arg_outputPath : option string;
}.

(** What the tool does, in the order it does it. *)
Inductive action : Type :=
| File (a : fileAction)
| IsAvailable (platform : string)
| CaptureFullscreen (opts : CaptureOptions Num)
| CaptureWindow (opts : CaptureOptions Num) (target : WindowTarget Num)
| CaptureRegion (opts : CaptureOptions Num) (target : RegionTarget Num).

Notation M := (Effects.M action state).

Definition onModule {A : Type} (m : Effects.M action (globals W) A) : M A :=
  fun s =>
    let '(t, r, g) := m (module s) in
    (t, r, {| module := g; _cachedProvider := _cachedProvider s |}).

(** [process.platform], and what [new MacOSProvider()],
    [new LinuxProvider()] and [new WindowsProvider()] give. *)
Variable process_platform : string.
Variable newMacOSProvider newLinuxProvider newWindowsProvider
  : ScreenshotProvider.

(** [getScreenshotProvider] *)
Definition getScreenshotProvider : M ScreenshotProvider :=
  s <~ get ;;
  match _cachedProvider s with
  | Some cached => ret cached
  | None =>
      provider <~
        (if String.eqb process_platform "darwin" then ret newMacOSProvider
         else if String.eqb process_platform "linux" then ret newLinuxProvider
         else if String.eqb process_platform "win32" then
           ret newWindowsProvider
         else throw ("Unsupported platform: " ++ process_platform)) ;;
      available <~
        perform (IsAvailable (platform provider)) (isAvailable provider) ;;
      if negb available then
        throw ("No screenshot tools found for " ++ platform provider ++ ". "
               ++ "See README for required system dependencies.")
      else
        s <~ get ;;
        put {| module := module s; _cachedProvider := Some provider |} ;;;
        ret provider
  end.

Variable HOME : option string.
Variable cwd : string.
Variable isoNow : string.
Variable realpath : Path.FileSystem.
Variable mkdirSync : string -> completion unit.

(** [existsSync] when [ensureDir] asks, and when the tool asks after the
    capture. *)
Variable existsBefore existsAfter : string -> bool.

(** The text of the answer when the file is missing after the capture; it
    holds a dash that is not a character of the first 256. *)
Variable fileNotCreated : string.

Definition pathConfig : Path.PathConfig :=
  {| Path.allowedOutputDirs := Config.ALLOWED_OUTPUT_DIRS HOME;
     Path.defaultOutDir := Config.defaultOutDir HOME |}.

(** The [if] on the mode: the answer returned from inside it, if any. *)
Definition captureByMode (provider : ScreenshotProvider) (a : arguments)
  (captureOpts : CaptureOptions Num) : M (option McpToolResponse) :=
  match arg_mode a with
  | fullscreen =>
      perform (CaptureFullscreen captureOpts)
        (captureFullscreen provider captureOpts) ;;;
      ret None
  | window =>
      let target :=
        {| windowId := arg_windowId a; windowName := arg_windowName a |} in
      perform (CaptureWindow captureOpts target)
        (captureWindow provider captureOpts target) ;;;
      ret None
  | region =>
      match arg_region a with
      | None => ret (Some (err "Region mode requires region coordinates"))
      | Some r =>
          perform (CaptureRegion captureOpts r)
            (captureRegion provider captureOpts r) ;;;
          ret None
      end
  end.

(** The body of the [try] once the provider is known.  A result of the
    path validator that is valid holds a path, which is [dest]. *)
Definition withProvider (provider : ScreenshotProvider) (a : arguments)
  : M McpToolResponse :=
  let ext := if given (arg_format a) then template (arg_format a) else "png" in
  let pathValidation :=
    Path.validateOutputPath cwd (arg_outputPath a)
      ("system-screenshot-" ++ timestamp isoNow ++ "." ++ ext)
      pathConfig realpath in
  if negb (Path.valid pathValidation) then
    ret (err ("Output path validation failed: "
              ++ template (Path.error pathValidation)))
  else
    let dest := template (Path.path pathValidation) in
    perform (File (EnsureDir dest)) (ensureDir existsBefore mkdirSync dest) ;;;
    let captureOpts :=
      {| outputPath := dest; format := arg_format a;
         includeCursor := arg_includeCursor a; delay := arg_delay a;
         display := arg_display a |} in
    early <~ captureByMode provider a captureOpts ;;
    match early with
    | Some response => ret response
    | None =>
        if negb (existsAfter dest) then ret (err fileNotCreated)
        else ret (ok ("System screenshot saved: " ++ dest))
    end.

(** The body of the [try]. *)
Definition capture (a : arguments) : M McpToolResponse :=
  provider <~ getScreenshotProvider ;;
  withProvider provider a.

(** The tool. *)
Definition take_system_screenshot (a : arguments) : M McpToolResponse :=
  onModule (ensureDefaultDirectory File HOME mkdirSync) ;;;
  mtry (capture a)
    (fun e => ret (err ("System screenshot error: " ++ Url.errorMessage e))).

End Tool.

Arguments platform {Num} s.
Arguments isAvailable {Num} s.
Arguments captureFullscreen {Num} s opts.
Arguments captureWindow {Num} s opts target.
Arguments captureRegion {Num} s opts target.
Arguments module {Num W} s.
Arguments _cachedProvider {Num W} s.
Arguments File {Num} a.
Arguments IsAvailable {Num} platform.
Arguments CaptureFullscreen {Num} opts.
Arguments CaptureWindow {Num} opts target.
Arguments CaptureRegion {Num} opts target.

End TakeSystemScreenshot.

(** Notions used to state what the take_system_screenshot tool does. *)
Module SystemNotions.
Import JS JSText Effects Helpers Provider TakeSystemScreenshot.

Section Tool.

Variable Num : Type.

(** The options of a capture. *)
Definition captured (act : action Num) : option (CaptureOptions Num) :=
  match act with
  | CaptureFullscreen opts
  | CaptureWindow opts _
  | CaptureRegion opts _ => Some opts
  | _ => None
  end.

(** The capture that the arguments ask of the provider, with what the
    provider answers to it; nothing for the region mode without a
    region. *)
Definition shot (provider : ScreenshotProvider Num) (a : arguments Num)
  (opts : CaptureOptions Num) : option (action Num * completion unit) :=
  match arg_mode Num a with
  | fullscreen =>
      Some (CaptureFullscreen opts, captureFullscreen provider opts)
  | window =>
      let target :=
        {| windowId := arg_windowId Num a;
           windowName := arg_windowName Num a |} in
      Some (CaptureWindow opts target, captureWindow provider opts target)
  | region =>
      match arg_region Num a with
      | Some r => Some (CaptureRegion opts r, captureRegion provider opts r)
      | None => None
      end
  end.

(** The options the tool hands to the provider for [dest]. *)
Definition optionsFor (a : arguments Num) (dest : string)
  : CaptureOptions Num :=
  {| outputPath := dest; format := arg_format Num a;
     includeCursor := arg_includeCursor Num a; delay := arg_delay Num a;
     display := arg_display Num a |}.

(** The name of the file when the arguments give no path. *)
Definition defaultName (isoNow : string) (a : arguments Num) : string :=
  "system-screenshot-" ++ timestamp isoNow ++ "."
  ++ (if given (arg_format Num a) then template (arg_format Num a) else "png").

End Tool.

Arguments captured {Num} act.
Arguments shot {Num} provider a opts.
Arguments optionsFor {Num} a dest.
Arguments defaultName {Num} isoNow a.

End SystemNotions.

(** A call of the system tool for the whole screen, on a Linux whose
    provider does what it is asked. *)
Module SystemExample.
Import JS Provider TakeSystemScreenshot.

Definition obliging : ScreenshotProvider Z :=
  {| platform := "Linux";
     isAvailable := Normal true;
     captureFullscreen := fun _ => Normal tt;
     captureWindow := fun _ _ => Normal tt;
     captureRegion := fun _ _ => Normal tt |}.




Definition tool :=
  take_system_screenshot Z unit "linux" obliging obliging obliging
    (Some "/home/user") "/" "2024-01-01T00:00:00.000Z" (Mocks.buildMockFs [])
    (fun _ => Normal tt) (fun _ => true) (fun _ => true) "Screenshot failed".

End SystemExample.

(** ** Resolved paths and URLs, for repeated validation *)

Module Resolved.
Import JS.



(** An already-resolved path: absolute, left as it is by [path.resolve],
    and either its own real path or, where it has no real path yet, a path
    whose directory is its own real path and is not the root. *)
Definition resolvedPath (cwd : string) (fileSystem : Path.FileSystem)
  (q : string) : Prop :=
  Notions.absolute q = true
  /\ NodePath.resolve cwd [q] = q
  /\ (fileSystem q = Normal q
      \/ ((exists e, fileSystem q = Throw e)
          /\ fileSystem (NodePath.dirname q) = Normal (NodePath.dirname q)
          /\ NodePath.dirname q <> "/")).


End Resolved.

Module RepeatExample.
Import JS.





End RepeatExample.

(** * Properties *)

(** ** Facts about the string helpers *)

Module JSFacts.
Import JS.

Lemma span_app (f : ascii -> bool) (g : string) :
  forall (n : nat) (c : ascii) (rest : string),
    allChars f g = true -> (String.length g <= n)%nat -> f c = false ->
    span f n (g ++ String c rest) = (g, String c rest).
Proof.
  induction g as [|x g IH]; intros n c rest Hall Hlen Hc; simpl in *.
  - destruct n; simpl; [reflexivity | now rewrite Hc].
  - apply andb_true_iff in Hall as [Hx Hg].
    destruct n as [|n]; [lia|]. simpl. rewrite Hx.
    rewrite IH by (auto; lia). reflexivity.
Qed.

Lemma span_all (f : ascii -> bool) (g : string) :
  forall n : nat,
    allChars f g = true -> (String.length g <= n)%nat ->
    span f n g = (g, EmptyString).
Proof.
  induction g as [|x g IH]; intros n Hall Hlen; simpl in *.
  - destruct n; reflexivity.
  - apply andb_true_iff in Hall as [Hx Hg].
    destruct n as [|n]; [lia|]. simpl. rewrite Hx.
    rewrite IH by (auto; lia). reflexivity.
Qed.

Lemma span_inv (f : ascii -> bool) :
  forall (n : nat) (s g rest : string),
    span f n s = (g, rest) ->
    s = g ++ rest /\ allChars f g = true /\ (String.length g <= n)%nat.
Proof.
  induction n as [|n IH]; intros s g rest H; simpl in H.
  - destruct s; inversion H; subst; simpl; repeat split; lia.
  - destruct s as [|c s].
    + inversion H; subst; simpl; repeat split; lia.
    + destruct (f c) eqn:Hc.
      * destruct (span f n s) as [g' rest'] eqn:Hs.
        inversion H; subst; clear H.
        destruct (IH _ _ _ Hs) as (-> & Hall & Hlen).
        simpl. rewrite Hc, Hall. repeat split; lia.
      * inversion H; subst; simpl; repeat split; lia.
Qed.

Lemma eqb_empty_length (g : string) :
  String.eqb g EmptyString = false <-> (1 <= String.length g)%nat.
Proof.
  destruct g; simpl; split; intro H; try reflexivity; try discriminate; lia.
Qed.

Lemma append_nil_r_string (s : string) : s ++ EmptyString = s.
Proof. induction s as [|c s IH]; simpl; [reflexivity | now rewrite IH]. Qed.

Lemma NumberFrom_nonneg (g : string) :
  forall acc, allChars isDigit g = true -> 0 <= acc -> 0 <= NumberFrom acc g.
Proof.
  induction g as [|c g IH]; intros acc Hall Hacc; simpl in *; [assumption|].
  apply andb_true_iff in Hall as [Hc Hg].
  apply IH; [assumption|].
  unfold isDigit, between in Hc. apply andb_true_iff in Hc as [H1 H2].
  apply Z.leb_le in H1. lia.
Qed.

Lemma Number_nonneg (g : string) :
  allChars isDigit g = true -> 0 <= Number g.
Proof. intro H. apply NumberFrom_nonneg; [assumption | lia]. Qed.

Lemma split_app (f : ascii -> bool) (sep : ascii) (g rest : string) :
  allChars f g = true -> f sep = false ->
  split sep (g ++ String sep rest) = g :: split sep rest.
Proof.
  intros Hall Hsep. induction g as [|x g IH]; simpl in *.
  - now rewrite Ascii.eqb_refl.
  - apply andb_true_iff in Hall as [Hx Hg].
    destruct (Ascii.eqb_spec x sep) as [->|_]; [congruence|].
    now rewrite IH.
Qed.

Lemma split_none (f : ascii -> bool) (sep : ascii) (g : string) :
  allChars f g = true -> f sep = false -> split sep g = [g].
Proof.
  intros Hall Hsep. induction g as [|x g IH]; simpl in *; [reflexivity|].
  apply andb_true_iff in Hall as [Hx Hg].
  destruct (Ascii.eqb_spec x sep) as [->|_]; [congruence|].
  now rewrite IH.
Qed.

Lemma allChars_app (f : ascii -> bool) (s t : string) :
  allChars f (s ++ t) = allChars f s && allChars f t.
Proof.
  induction s as [|c s IH]; simpl; [reflexivity|].
  now rewrite IH, andb_assoc.
Qed.

Lemma allChars_weaken (f g : ascii -> bool) (s : string) :
  (forall c, f c = true -> g c = true) ->
  allChars f s = true -> allChars g s = true.
Proof.
  intros Hfg. induction s as [|c s IH]; simpl; [reflexivity|].
  intro H. apply andb_true_iff in H as [Hc Hs].
  now rewrite (Hfg _ Hc), IH.
Qed.

Lemma toLowerCase_app (s t : string) :
  toLowerCase (s ++ t) = toLowerCase s ++ toLowerCase t.
Proof. induction s as [|c s IH]; simpl; [reflexivity | now rewrite IH]. Qed.

Lemma toLowerCase_length (s : string) :
  String.length (toLowerCase s) = String.length s.
Proof. induction s as [|c s IH]; simpl; [reflexivity | now rewrite IH]. Qed.

Lemma toLowerCase_fixed (s : string) :
  allChars (fun c => negb (isUpper c)) s = true -> toLowerCase s = s.
Proof.
  induction s as [|c s IH]; simpl; [reflexivity|].
  intro H. apply andb_true_iff in H as [Hc Hs].
  unfold toLowerChar. apply negb_true_iff in Hc. now rewrite Hc, IH.
Qed.

Lemma digit_not_upper (c : ascii) : isDigit c = true -> negb (isUpper c) = true.
Proof.
  unfold isDigit, isUpper, between. intro H.
  apply andb_true_iff in H as [H1 H2]. apply Z.leb_le in H1, H2.
  apply negb_true_iff, orb_false_iff. split; apply andb_false_iff.
  - left. apply Z.leb_gt. lia.
  - left. apply andb_false_iff. left. apply Z.leb_gt. lia.
Qed.

(** Lower-casing a hexadecimal digit gives a lower-case hexadecimal digit
    of the same value. *)
Lemma hexDigit_toLower (c : ascii) (d : Z) :
  hexDigit c = Some d ->
  isLowerHex (toLowerChar c) = true /\ hexDigit (toLowerChar c) = Some d.
Proof.
  destruct c as [[] [] [] [] [] [] [] []]; vm_compute; intro H;
    (discriminate H || (split; [reflexivity | exact H])).
Qed.

Lemma hexDigit_range (c : ascii) (d : Z) :
  hexDigit c = Some d -> 0 <= d <= 15.
Proof.
  unfold hexDigit, isDigit, between.
  repeat match goal with
         | |- context [(?x <=? ?y) && (?u <=? ?v)] =>
             destruct (Z.leb_spec x y); destruct (Z.leb_spec u v); simpl
         end;
    intro Heq; inversion Heq; lia.
Qed.

Lemma lowerHex_hexDigit (c : ascii) :
  isLowerHex c = true -> exists d, hexDigit c = Some d.
Proof.
  unfold isLowerHex, hexDigit. destruct (isDigit c); simpl; [eauto|].
  intros ->. eauto.
Qed.

Lemma lowerHex_plain (c : ascii) :
  isLowerHex c = true ->
  isWhiteSpace c = false /\ c <> "-"%char /\ c <> "+"%char
  /\ c <> "x"%char /\ c <> "X"%char /\ c <> ":"%char /\ c <> "."%char.
Proof.
  destruct c as [[] [] [] [] [] [] [] []]; vm_compute; intro H;
    (discriminate H || (repeat split; (reflexivity || discriminate))).
Qed.

Lemma hexPrefix_lower (g : string) :
  forall acc : Z,
    allChars isLowerHex g = true ->
    hexPrefix (Some acc) g = Some (Spec.hexValueFrom acc g).
Proof.
  induction g as [|c g IH]; intros acc Hall; simpl in *; [reflexivity|].
  apply andb_true_iff in Hall as [Hc Hg].
  destruct (lowerHex_hexDigit _ Hc) as [d ->]. now apply IH.
Qed.

Lemma hexValueFrom_bound (g : string) :
  forall acc : Z,
    0 <= acc -> allChars isLowerHex g = true ->
    0 <= Spec.hexValueFrom acc g < (acc + 1) * 16 ^ Z.of_nat (String.length g).
Proof.
  induction g as [|c g IH]; intros acc Hacc Hall.
  - simpl. lia.
  - cbn [Spec.hexValueFrom String.length allChars] in *.
    apply andb_true_iff in Hall as [Hc Hg].
    destruct (lowerHex_hexDigit _ Hc) as [d Hd]. rewrite Hd.
    pose proof (hexDigit_range _ _ Hd) as Hr.
    specialize (IH (acc * 16 + d) ltac:(lia) Hg).
    rewrite Nat2Z.inj_succ, Z.pow_succ_r by lia.
    assert (0 < 16 ^ Z.of_nat (String.length g)) by (apply Z.pow_pos_nonneg; lia).
    nia.
Qed.

Lemma hexValue_group_bound (g : string) :
  allChars isLowerHex g = true -> (String.length g <= 4)%nat ->
  0 <= Spec.hexValue g < 65536.
Proof.
  intros Hall Hlen. unfold Spec.hexValue.
  pose proof (hexValueFrom_bound g 0 ltac:(lia) Hall) as H.
  assert (16 ^ Z.of_nat (String.length g) <= 16 ^ 4)
    by (apply Z.pow_le_mono_r; lia).
  change (16 ^ 4) with 65536 in *. lia.
Qed.

Lemma roundToDouble_small (v : Z) :
  0 <= v < 2 ^ 53 -> roundToDouble v = Some v.
Proof.
  intros [H0 H1]. unfold roundToDouble.
  assert (Z.log2 v + 1 <= 53) as Hb.
  { destruct (Z.eq_dec v 0) as [->|Hne]; [simpl; lia|].
    assert (Z.log2 v < 53) by (apply Z.log2_lt_pow2; lia). lia. }
  apply Z.leb_le in Hb. cbv zeta. now rewrite Hb.
Qed.

Lemma toInt32_small (v : Z) :
  - 2 ^ 31 <= v < 2 ^ 31 -> toInt32 (Int v) = v.
Proof.
  intros H. unfold toInt32.
  change (2 ^ 31) with 2147483648 in *. change (2 ^ 32) with 4294967296.
  rewrite Z.mod_small by lia. lia.
Qed.

(** [parseInt] of a non-empty string of lower-case hexadecimal digits that
    a double holds exactly. *)
Lemma parseInt16_lowerHex (g : string) :
  allChars isLowerHex g = true -> (1 <= String.length g)%nat ->
  Spec.hexValue g < 2 ^ 53 ->
  parseInt16 g = Int (Spec.hexValue g).
Proof.
  intros Hall Hlen Hv.
  pose proof (hexValueFrom_bound g 0 ltac:(lia) Hall) as [Hge _].
  fold (Spec.hexValue g) in Hge.
  destruct g as [|c g]; [simpl in Hlen; lia|].
  pose proof Hall as Hall'. simpl in Hall'.
  apply andb_true_iff in Hall' as [Hc Hg].
  destruct (lowerHex_plain _ Hc) as (Hws & Hm & Hp & _).
  unfold parseInt16. cbn [dropWhile]. rewrite Hws.
  assert (startsWith "-" (String c g) = false) as ->.
  { cbn [startsWith]. destruct (Ascii.eqb_spec "-" c); [congruence | reflexivity]. }
  assert (startsWith "+" (String c g) = false) as ->.
  { cbn [startsWith]. destruct (Ascii.eqb_spec "+" c); [congruence | reflexivity]. }
  cbn [orb].
  assert (forall x, (x = "x" \/ x = "X")%char ->
            startsWith (String "0" (String x EmptyString)) (String c g) = false)
    as H0x.
  { intros x Hx. cbn [startsWith]. destruct (Ascii.eqb "0" c); [|reflexivity].
    destruct g as [|c2 g]; [reflexivity|].
    simpl in Hg. apply andb_true_iff in Hg as [Hc2 _].
    destruct (lowerHex_plain _ Hc2) as (_ & _ & _ & Hx1 & Hx2 & _).
    destruct (Ascii.eqb_spec x c2); [|reflexivity].
    destruct Hx; congruence. }
  rewrite (H0x "x"%char), (H0x "X"%char) by auto. cbn [orb].
  cbn [hexPrefix]. destruct (lowerHex_hexDigit _ Hc) as [d Hd]. rewrite Hd.
  rewrite hexPrefix_lower by assumption.
  assert (Spec.hexValueFrom d g = Spec.hexValue (String c g)) as ->.
  { unfold Spec.hexValue. cbn [Spec.hexValueFrom]. now rewrite Hd. }
  now rewrite roundToDouble_small by lia.
Qed.

Lemma split_nonempty (sep : ascii) (s : string) : split sep s <> [].
Proof.
  destruct s as [|c s]; simpl; [discriminate|].
  destruct (Ascii.eqb c sep); [discriminate|].
  destruct (split sep s); discriminate.
Qed.

Lemma concat_cons (sep x y : string) (l : list string) :
  String.concat sep (x :: y :: l) = x ++ sep ++ String.concat sep (y :: l).
Proof. reflexivity. Qed.

(** Joining the pieces of [split] gives the string back. *)
Lemma concat_split (sep : ascii) (s : string) :
  String.concat (String sep EmptyString) (split sep s) = s.
Proof.
  induction s as [|c s IH]; [reflexivity|].
  pose proof (split_nonempty sep s) as Hne.
  cbn [split]. destruct (Ascii.eqb_spec c sep) as [->|Hc].
  - destruct (split sep s) as [|g gs]; [congruence|].
    rewrite concat_cons, IH. reflexivity.
  - destruct (split sep s) as [|g gs]; [congruence|].
    destruct gs as [|g' gs].
    + cbn [String.concat] in *. now rewrite IH.
    + rewrite concat_cons in *. cbn [append] in *. now rewrite IH.
Qed.

Lemma allChars_rev_string (f : ascii -> bool) (s : string) :
  forall acc, allChars f (rev_string acc s) = allChars f s && allChars f acc.
Proof.
  induction s as [|c s IH]; intro acc; simpl; [reflexivity|].
  rewrite IH. simpl. destruct (f c), (allChars f s), (allChars f acc); reflexivity.
Qed.

Lemma allChars_reverse (f : ascii -> bool) (s : string) :
  allChars f (reverse s) = allChars f s.
Proof. unfold reverse. rewrite allChars_rev_string. simpl. apply andb_true_r. Qed.

Lemma allChars_dropWhile (f : ascii -> bool) (s : string) :
  allChars f (dropWhile f s) = allChars f s.
Proof.
  induction s as [|c s IH]; simpl; [reflexivity|].
  destruct (f c) eqn:Hc; simpl; [assumption | now rewrite Hc].
Qed.

Lemma dropWhile_empty (f : ascii -> bool) (s : string) :
  dropWhile f s = EmptyString <-> allChars f s = true.
Proof.
  induction s as [|c s IH]; simpl; [tauto|].
  destruct (f c); simpl; [assumption|]. split; discriminate.
Qed.

Lemma rev_string_empty (s acc : string) :
  rev_string acc s = EmptyString <-> s = EmptyString /\ acc = EmptyString.
Proof.
  revert acc. induction s as [|c s IH]; intro acc; simpl.
  - tauto.
  - rewrite IH. split; [intros [_ H]; discriminate | intros [H _]; discriminate].
Qed.

(** [trim] leaves nothing exactly when every character is white space. *)
Lemma trim_empty (s : string) :
  trim s = EmptyString <-> allChars isWhiteSpace s = true.
Proof.
  unfold trim, reverse. rewrite rev_string_empty, dropWhile_empty.
  fold (reverse (dropWhile isWhiteSpace s)).
  rewrite allChars_reverse, allChars_dropWhile. tauto.
Qed.

(** A character of a string that occurs in [s] is in every class that
    holds all of [s]. *)
Lemma includes_char (f : ascii -> bool) (c : ascii) (p s : string) :
  includes (String c p) s = true -> allChars f s = true -> f c = true.
Proof.
  induction s as [|x s IH]; simpl; [discriminate|].
  intros H Hall. apply andb_true_iff in Hall as [Hx Hs].
  apply orb_true_iff in H as [H|H]; [|now apply IH].
  apply andb_true_iff in H as [H _]. apply Ascii.eqb_eq in H. now subst.
Qed.

Lemma startsWith_app (p s : string) : startsWith p (p ++ s) = true.
Proof.
  induction p as [|c p IH]; [reflexivity|].
  cbn [append startsWith]. now rewrite Ascii.eqb_refl, IH.
Qed.

Lemma startsWith_app_l (p a b : string) :
  startsWith p a = true -> startsWith p (a ++ b) = true.
Proof.
  revert a. induction p as [|c p IH]; intros a H; [reflexivity|].
  destruct a as [|x a]; [discriminate|]. cbn [append startsWith] in *.
  apply andb_true_iff in H as [Hc Hp]. now rewrite Hc, IH.
Qed.

Lemma append_assoc (a b c : string) : (a ++ b) ++ c = a ++ b ++ c.
Proof. induction a as [|x a IH]; simpl; [reflexivity | now rewrite IH]. Qed.

End JSFacts.

(** ** The IPv4 pattern *)

Module PatternFacts.
Import JS Url Spec JSFacts.

Lemma isDigitGroup_inv (g : string) :
  isDigitGroup g = true ->
  allChars isDigit g = true /\ (1 <= String.length g <= 3)%nat.
Proof.
  unfold isDigitGroup. intro H.
  apply andb_true_iff in H as [H H3]. apply andb_true_iff in H as [H0 H1].
  apply Nat.leb_le in H1, H3. auto.
Qed.

Lemma isDigitGroup_intro (g : string) :
  allChars isDigit g = true -> (1 <= String.length g <= 3)%nat ->
  isDigitGroup g = true.
Proof.
  intros H [H1 H3]. unfold isDigitGroup.
  apply Nat.leb_le in H1, H3. now rewrite H, H1, H3.
Qed.

Lemma reDigits13_app (g : string) (c : ascii) (rest : string) :
  isDigitGroup g = true -> isDigit c = false ->
  reDigits13 (g ++ String c rest) = Some (g, String c rest).
Proof.
  intros Hg Hc. apply isDigitGroup_inv in Hg as [Hall [H1 H3]].
  unfold reDigits13. rewrite span_app by assumption.
  now rewrite (proj2 (eqb_empty_length g) H1).
Qed.

Lemma reDigits13_all (g : string) :
  isDigitGroup g = true -> reDigits13 g = Some (g, EmptyString).
Proof.
  intros Hg. apply isDigitGroup_inv in Hg as [Hall [H1 H3]].
  unfold reDigits13. rewrite span_all by assumption.
  now rewrite (proj2 (eqb_empty_length g) H1).
Qed.

Lemma reDigits13_inv (s g rest : string) :
  reDigits13 s = Some (g, rest) -> s = g ++ rest /\ isDigitGroup g = true.
Proof.
  unfold reDigits13. destruct (span isDigit 3 s) as [g' rest'] eqn:Hs.
  destruct (String.eqb g' EmptyString) eqn:He; [discriminate|].
  intro H. inversion H; subst; clear H.
  apply span_inv in Hs as (-> & Hall & Hlen). split; [reflexivity|].
  apply isDigitGroup_intro; [assumption|].
  apply eqb_empty_length in He. lia.
Qed.

Lemma reChar_inv (c : ascii) (s rest : string) :
  reChar c s = Some rest -> s = String c rest.
Proof.
  destruct s as [|x s]; simpl; [discriminate|].
  destruct (Ascii.eqb_spec x c); [|discriminate].
  intro H. inversion H. now subst.
Qed.

(** The pattern accepts exactly the strings [a.b.c.d] whose four groups
    have one to three digits, and captures the groups. *)
Lemma matchIPv4_dotted (a b c d : string) :
  isDigitGroup a = true -> isDigitGroup b = true ->
  isDigitGroup c = true -> isDigitGroup d = true ->
  matchIPv4 (dotted a b c d) = Some (a, b, c, d).
Proof.
  intros Ha Hb Hc Hd. unfold matchIPv4, dotted. simpl append.
  rewrite reDigits13_app by (assumption || reflexivity). simpl.
  rewrite reDigits13_app by (assumption || reflexivity). simpl.
  rewrite reDigits13_app by (assumption || reflexivity). simpl.
  rewrite reDigits13_all by assumption. reflexivity.
Qed.

Lemma matchIPv4_inv (s a b c d : string) :
  matchIPv4 s = Some (a, b, c, d) ->
  s = dotted a b c d
  /\ isDigitGroup a = true /\ isDigitGroup b = true
  /\ isDigitGroup c = true /\ isDigitGroup d = true.
Proof.
  unfold matchIPv4, obind. intro H.
  destruct (reDigits13 s) as [[a' s1]|] eqn:E1; [|discriminate].
  destruct (reChar "." s1) as [s2|] eqn:E2; [|discriminate].
  destruct (reDigits13 s2) as [[b' s3]|] eqn:E3; [|discriminate].
  destruct (reChar "." s3) as [s4|] eqn:E4; [|discriminate].
  destruct (reDigits13 s4) as [[c' s5]|] eqn:E5; [|discriminate].
  destruct (reChar "." s5) as [s6|] eqn:E6; [|discriminate].
  destruct (reDigits13 s6) as [[d' s7]|] eqn:E7; [|discriminate].
  destruct (String.eqb_spec s7 EmptyString) as [->|]; [|discriminate].
  inversion H; subst; clear H.
  apply reDigits13_inv in E1 as [-> Ha], E3 as [-> Hb], E5 as [-> Hc], E7 as [-> Hd].
  apply reChar_inv in E2 as ->, E4 as ->, E6 as ->.
  unfold dotted. simpl append.
  rewrite (append_nil_r_string d). auto.
Qed.

End PatternFacts.

(** ** IPv4 classification *)

Module Ipv4Facts.
Import JS Url Spec JSFacts PatternFacts.

Ltac bool_cases :=
  repeat match goal with
         | |- context [Z.eqb ?x ?y] => destruct (Z.eqb_spec x y)
         | |- context [Z.leb ?x ?y] => destruct (Z.leb_spec x y)
         end;
  simpl; try reflexivity; exfalso;
  try (Z.div_mod_to_equations; lia).

Ltac cidr_test n p :=
  unfold octet, inCidr, ipv4; intros;
  change (32 - n) with p; rewrite !Z.shiftr_div_pow2 by lia;
  let q := eval compute in (2 ^ p) in change (2 ^ p) with q;
  bool_cases.

Lemma inCidr_8 (k a b c d : Z) :
  octet k -> octet a -> octet b -> octet c -> octet d ->
  inCidr (ipv4 k 0 0 0) 8 (ipv4 a b c d) = (a =? k).
Proof. cidr_test 8 24. Qed.

Lemma inCidr_16 (k l a b c d : Z) :
  octet k -> octet l -> octet a -> octet b -> octet c -> octet d ->
  inCidr (ipv4 k l 0 0) 16 (ipv4 a b c d) = ((a =? k) && (b =? l)).
Proof. cidr_test 16 16. Qed.

Lemma inCidr_172_16 (a b c d : Z) :
  octet a -> octet b -> octet c -> octet d ->
  inCidr (ipv4 172 16 0 0) 12 (ipv4 a b c d)
  = ((a =? 172) && (16 <=? b) && (b <=? 31)).
Proof. cidr_test 12 20. Qed.

Lemma inCidr_100_64 (a b c d : Z) :
  octet a -> octet b -> octet c -> octet d ->
  inCidr (ipv4 100 64 0 0) 10 (ipv4 a b c d)
  = ((a =? 100) && (64 <=? b) && (b <=? 127)).
Proof. cidr_test 10 22. Qed.

Lemma inCidr_198_18 (a b c d : Z) :
  octet a -> octet b -> octet c -> octet d ->
  inCidr (ipv4 198 18 0 0) 15 (ipv4 a b c d)
  = ((a =? 198) && ((b =? 18) || (b =? 19))).
Proof. cidr_test 15 17. Qed.

Lemma broadcast_test (a b c d : Z) :
  octet a -> octet b -> octet c -> octet d ->
  (ipv4 a b c d =? ipv4 255 255 255 255)
  = ((a =? 255) && (b =? 255) && (c =? 255) && (d =? 255)).
Proof. unfold octet, ipv4; intros; bool_cases; lia. Qed.

(** The range tests of the specification, octet by octet. *)
Lemma inBlockedRange_octets (a b c d : Z) :
  octet a -> octet b -> octet c -> octet d ->
  inBlockedRange (ipv4 a b c d)
  = leadingOctetsBlocked a b c d.
Proof.
  intros Ha Hb Hc Hd. unfold inBlockedRange, leadingOctetsBlocked.
  rewrite !inCidr_8, !inCidr_16, inCidr_172_16, inCidr_100_64, inCidr_198_18,
    broadcast_test by (assumption || (unfold octet; lia)).
  reflexivity.
Qed.

(** What [isBlockedIPv4] computes once the pattern has matched. *)
Lemma isBlockedIPv4_dotted (ga gb gc gd : string) :
  isDigitGroup ga = true -> isDigitGroup gb = true ->
  isDigitGroup gc = true -> isDigitGroup gd = true ->
  let a := Number ga in
  let b := Number gb in
  let c := Number gc in
  let d := Number gd in
  blocked (isBlockedIPv4 (dotted ga gb gc gd))
  = leadingOctetsBlocked a b c d.
Proof.
  intros Ha Hb Hc Hd a b c d. unfold isBlockedIPv4, leadingOctetsBlocked.
  rewrite matchIPv4_dotted by assumption.
  fold a b c d.
  repeat match goal with
         | |- context [if ?t then _ else _] =>
             destruct t; [simpl; rewrite ?orb_true_r; reflexivity|]
         end.
  reflexivity.
Qed.

Lemma octet_of_group (g : string) :
  isDigitGroup g = true -> Number g <= 255 -> octet (Number g).
Proof.
  intros Hg Hle. apply isDigitGroup_inv in Hg as [Hall _].
  split; [now apply Number_nonneg | assumption].
Qed.

(** C2. For every dotted quad [a.b.c.d] (four groups of one to three digits
    that denote octets), [isBlockedIPv4] answers blocked exactly when the
    address lies in 127.0.0.0/8, 10.0.0.0/8, 172.16.0.0/12, 192.168.0.0/16,
    169.254.0.0/16, 0.0.0.0/8, 100.64.0.0/10, 198.18.0.0/15 or is
    255.255.255.255; for every string of that shape, whatever the value of
    its groups, the answer is read off the leading octets; the addresses
    just outside the boundaries are not blocked. *)
Theorem isBlockedIPv4_ranges :
  (forall ga gb gc gd : string,
      isDigitGroup ga = true -> isDigitGroup gb = true ->
      isDigitGroup gc = true -> isDigitGroup gd = true ->
      Number ga <= 255 -> Number gb <= 255 ->
      Number gc <= 255 -> Number gd <= 255 ->
      blocked (isBlockedIPv4 (dotted ga gb gc gd))
      = inBlockedRange (ipv4 (Number ga) (Number gb) (Number gc) (Number gd)))
  /\ (forall ga gb gc gd : string,
        isDigitGroup ga = true -> isDigitGroup gb = true ->
        isDigitGroup gc = true -> isDigitGroup gd = true ->
        blocked (isBlockedIPv4 (dotted ga gb gc gd))
        = leadingOctetsBlocked (Number ga) (Number gb) (Number gc) (Number gd))
  /\ blocked (isBlockedIPv4 "172.15.255.255") = false
  /\ blocked (isBlockedIPv4 "172.32.0.0") = false
  /\ blocked (isBlockedIPv4 "100.63.255.255") = false
  /\ blocked (isBlockedIPv4 "100.128.0.0") = false
  /\ blocked (isBlockedIPv4 "198.17.255.255") = false
  /\ blocked (isBlockedIPv4 "198.20.0.0") = false.
Proof.
  split; [|split; [|repeat split; reflexivity]].
  - intros ga gb gc gd Ga Gb Gc Gd La Lb Lc Ld.
    rewrite isBlockedIPv4_dotted by assumption.
    rewrite inBlockedRange_octets by (apply octet_of_group; assumption).
    reflexivity.
  - intros ga gb gc gd Ga Gb Gc Gd. now apply isBlockedIPv4_dotted.
Qed.

Lemma isBlockedIPv4_ranges_witness :
  blocked (isBlockedIPv4 (dotted "172" "31" "255" "255"))
  = inBlockedRange (ipv4 172 31 255 255).
Proof.
  apply (proj1 isBlockedIPv4_ranges "172" "31" "255" "255");
    (reflexivity || (vm_compute; discriminate)).
Defined.

End Ipv4Facts.

(** ** Inputs that are not dotted quads *)

Module Ipv4Shape.
Import JS Url Spec JSFacts PatternFacts.

Lemma isDottedQuad_dotted (a b c d : string) :
  isDigitGroup a = true -> isDigitGroup b = true ->
  isDigitGroup c = true -> isDigitGroup d = true ->
  isDottedQuad (dotted a b c d) = true.
Proof.
  intros Ha Hb Hc Hd. unfold isDottedQuad, dotted. simpl append.
  destruct (isDigitGroup_inv _ Ha) as [Aa _].
  destruct (isDigitGroup_inv _ Hb) as [Ab _].
  destruct (isDigitGroup_inv _ Hc) as [Ac _].
  destruct (isDigitGroup_inv _ Hd) as [Ad _].
  rewrite (split_app isDigit) by (assumption || reflexivity).
  rewrite (split_app isDigit) by (assumption || reflexivity).
  rewrite (split_app isDigit) by (assumption || reflexivity).
  rewrite (split_none isDigit) by (assumption || reflexivity).
  now rewrite Ha, Hb, Hc, Hd.
Qed.

(** The pattern of the source accepts a string only if it has the shape
    the specification names. *)
Lemma matchIPv4_shape (s : string) :
  isDottedQuad s = false -> matchIPv4 s = None.
Proof.
  intro H. destruct (matchIPv4 s) as [[[[a b] c] d]|] eqn:E; [|reflexivity].
  apply matchIPv4_inv in E as (-> & Ha & Hb & Hc & Hd).
  rewrite isDottedQuad_dotted in H by assumption. discriminate.
Qed.

(** C10. A string that is not four dot-separated groups of one to three
    digits is classified as not blocked; the groups of a string of that
    shape are captured whatever their value, so that "300.0.0.1" matches the
    pattern and is classified as not blocked too. *)
Theorem isBlockedIPv4_not_ipv4_shaped :
  (forall s : string, isDottedQuad s = false -> isBlockedIPv4 s = notBlocked)
  /\ (forall a b c d : string,
        isDigitGroup a = true -> isDigitGroup b = true ->
        isDigitGroup c = true -> isDigitGroup d = true ->
        matchIPv4 (dotted a b c d) = Some (a, b, c, d))
  /\ isDottedQuad "300.0.0.1" = true
  /\ matchIPv4 "300.0.0.1" = Some ("300", "0", "0", "1")
  /\ isBlockedIPv4 "300.0.0.1" = notBlocked.
Proof.
  split; [|split; [|repeat split; reflexivity]].
  - intros s H. unfold isBlockedIPv4. now rewrite matchIPv4_shape.
  - exact matchIPv4_dotted.
Qed.

Lemma isBlockedIPv4_not_ipv4_shaped_witness :
  isBlockedIPv4 "not-an-ip" = notBlocked
  /\ matchIPv4 (dotted "999" "0" "00" "1") = Some ("999", "0", "00", "1").
Proof.
  split.
  - apply (proj1 isBlockedIPv4_not_ipv4_shaped "not-an-ip"). reflexivity.
  - apply (proj1 (proj2 isBlockedIPv4_not_ipv4_shaped)); reflexivity.
Defined.

End Ipv4Shape.

(** ** IPv6 classification *)

Module Ipv6Facts.
Import JS Url Spec JSFacts PatternFacts Ipv4Facts.

Lemma hexGroup_lower (g : string) :
  isHexGroup g = true ->
  allChars isLowerHex (toLowerCase g) = true
  /\ (1 <= String.length (toLowerCase g) <= 4)%nat
  /\ hexValue (toLowerCase g) = hexValue g.
Proof.
  unfold isHexGroup. intro H.
  apply andb_true_iff in H as [H H4]. apply andb_true_iff in H as [Hall H1].
  apply Nat.leb_le in H1, H4. rewrite toLowerCase_length.
  split; [|split; [lia|]].
  - clear H1 H4. induction g as [|c g IH]; simpl in *; [reflexivity|].
    apply andb_true_iff in Hall as [Hc Hg].
    destruct (hexDigit c) as [d|] eqn:Hd; [|discriminate].
    destruct (hexDigit_toLower _ _ Hd) as [-> _]. now apply IH.
  - clear H1 H4. unfold hexValue. generalize 0.
    induction g as [|c g IH]; intro acc; simpl in *; [reflexivity|].
    apply andb_true_iff in Hall as [Hc Hg].
    destruct (hexDigit c) as [d|] eqn:Hd; [|discriminate].
    destruct (hexDigit_toLower _ _ Hd) as [_ ->]. now apply IH.
Qed.

(** The value [parseInt] and [ToInt32] give for a hexadecimal group. *)
Lemma parse_hexGroup (g : string) :
  isHexGroup g = true ->
  toInt32 (parseInt16 (toLowerCase g)) = hexValue g
  /\ isNaN (parseInt16 (toLowerCase g)) = false
  /\ 0 <= hexValue g < 65536.
Proof.
  intro H. destruct (hexGroup_lower _ H) as (Hall & [H1 H4] & Hv).
  pose proof (hexValue_group_bound _ Hall H4) as Hb. rewrite Hv in Hb.
  rewrite parseInt16_lowerHex; try assumption.
  - rewrite Hv, toInt32_small; [auto|].
    change (2 ^ 31) with 2147483648. lia.
  - rewrite Hv. change (2 ^ 53) with 9007199254740992. lia.
Qed.

(** Printing an octet and reading it back. *)
Lemma octet_roundtrip (a : Z) :
  octet a ->
  isDigitGroup (numToString a) = true /\ Number (numToString a) = a.
Proof.
  intros [H0 H255].
  assert (forallb (fun n => let x := Z.of_nat n in
                            isDigitGroup (numToString x)
                            && (Number (numToString x) =? x))
            (seq 0 256) = true) as Hall by (vm_compute; reflexivity).
  rewrite forallb_forall in Hall.
  specialize (Hall (Z.to_nat a)). cbv zeta in Hall.
  rewrite Z2Nat.id in Hall by lia.
  assert (In (Z.to_nat a) (seq 0 256)) as Hin by (apply in_seq; lia).
  apply Hall in Hin. apply andb_true_iff in Hin as [Hg Hn].
  apply Z.eqb_eq in Hn. auto.
Qed.

Lemma split_octets (hi a b : Z) :
  octet a -> octet b -> hi = a * 256 + b ->
  Z.land (Z.shiftr hi 8) 0xff = a /\ Z.land hi 0xff = b.
Proof.
  unfold octet. intros Ha Hb ->.
  change 0xff with (Z.ones 8). rewrite !Z.land_ones by lia.
  rewrite Z.shiftr_div_pow2 by lia. change (2 ^ 8) with 256.
  split; Z.div_mod_to_equations; lia.
Qed.

Lemma dotted_chars (a b c d : string) :
  isDigitGroup a = true -> isDigitGroup b = true ->
  isDigitGroup c = true -> isDigitGroup d = true ->
  allChars quadChar (dotted a b c d) = true.
Proof.
  intros Ha Hb Hc Hd. unfold dotted.
  apply isDigitGroup_inv in Ha as [Ha _], Hb as [Hb _], Hc as [Hc _], Hd as [Hd _].
  assert (forall g, allChars isDigit g = true -> allChars quadChar g = true) as W.
  { intros g. apply allChars_weaken. intros x Hx. unfold quadChar. now rewrite Hx. }
  rewrite !allChars_app. cbn [allChars].
  rewrite !W by assumption. reflexivity.
Qed.

Lemma quadChar_not_upper (s : string) :
  allChars quadChar s = true -> toLowerCase s = s.
Proof.
  intro H. apply toLowerCase_fixed. revert H. apply allChars_weaken.
  intros c Hc. unfold quadChar in Hc. apply orb_true_iff in Hc as [Hc|Hc].
  - now apply digit_not_upper.
  - apply Ascii.eqb_eq in Hc. now subst.
Qed.

Lemma linkLocal_blocked (g tail : string) :
  isHexGroup g = true -> Z.land (hexValue g) 0xffc0 = 0xfe80 ->
  blocked (isBlockedIPv6 (g ++ ":" ++ tail)) = true.
Proof.
  intros Hg Hmask.
  destruct (hexGroup_lower _ Hg) as (Hall & [H1 H4] & Hv).
  destruct (parse_hexGroup _ Hg) as (Hparse & Hnan & _).
  unfold isBlockedIPv6. cbv zeta.
  rewrite toLowerCase_app. cbn [append toLowerCase].
  change (toLowerChar ":") with ":"%char.
  destruct (String.eqb _ "::1"); [reflexivity|]. cbn [orElse].
  rewrite (split_app isLowerHex) by (assumption || reflexivity).
  cbn [hd].
  rewrite (proj2 (eqb_empty_length _) H1). cbn [negb].
  rewrite Hnan, Hparse, Hmask. reflexivity.
Qed.

(** A guarded return of [isBlockedIPv6] that is taken returns "blocked". *)
Ltac taken E :=
  repeat match type of E with
         | context [if ?t then _ else _] => destruct t
         | context [match ?m with Some _ => _ | None => _ end] => destruct m
         | context [let '(_, _) := ?m in _] => destruct m
         end;
  solve [discriminate E | inversion E; reflexivity].

Ltac skip_return :=
  match goal with
  | |- blocked (orElse ?e _) = true =>
      let E := fresh "E" in
      destruct e eqn:E; [taken E | clear E; cbn [orElse]]
  end.

Lemma uniqueLocal_blocked (c : ascii) (rest : string) :
  (c = "c" \/ c = "d")%char ->
  blocked (isBlockedIPv6 (String "f" (String c rest))) = true.
Proof.
  intros Hc. unfold isBlockedIPv6. cbv zeta.
  skip_return. skip_return.
  assert (startsWith "fc" (toLowerCase (String "f" (String c rest)))
          || startsWith "fd" (toLowerCase (String "f" (String c rest))) = true)
    as ->; [|reflexivity].
  destruct Hc as [-> | ->]; reflexivity.
Qed.

Lemma isDottedQuad_inv (s : string) :
  isDottedQuad s = true ->
  exists a b c d,
    s = dotted a b c d
    /\ isDigitGroup a = true /\ isDigitGroup b = true
    /\ isDigitGroup c = true /\ isDigitGroup d = true.
Proof.
  unfold isDottedQuad. intro H. pose proof (concat_split "." s) as Hs.
  destruct (split "." s) as [|a [|b [|c [|d [|e l]]]]]; try discriminate.
  apply andb_true_iff in H as [H Hd]. apply andb_true_iff in H as [H Hc].
  apply andb_true_iff in H as [Ha Hb].
  exists a, b, c, d. repeat split; try assumption.
  symmetry. exact Hs.
Qed.

Lemma digits_lowerHex (g : string) :
  allChars isDigit g = true -> allChars isLowerHex g = true.
Proof.
  apply allChars_weaken. intros c Hc. unfold isLowerHex. now rewrite Hc.
Qed.

(** The dotted IPv4-mapped form is classified as the IPv4 address is. *)
Lemma mappedDotted_blocked (s : string) :
  isDottedQuad s = true ->
  blocked (isBlockedIPv6 ("::ffff:" ++ s)) = blocked (isBlockedIPv4 s).
Proof.
  intro H. destruct (isDottedQuad_inv _ H) as (a & b & c & d & -> & Ha & Hb & Hc & Hd).
  pose proof (dotted_chars _ _ _ _ Ha Hb Hc Hd) as Hq.
  pose proof (matchIPv4_dotted _ _ _ _ Ha Hb Hc Hd) as Hm.
  unfold isBlockedIPv6. cbv zeta.
  change (toLowerCase ("::ffff:" ++ dotted a b c d))
    with ("::ffff:" ++ toLowerCase (dotted a b c d)).
  rewrite (quadChar_not_upper _ Hq).
  set (s := dotted a b c d) in *.
  change (String.eqb ("::ffff:" ++ s) "::1") with false.
  change (hd EmptyString (split ":" ("::ffff:" ++ s))) with EmptyString.
  change (startsWith "fc" ("::ffff:" ++ s)) with false.
  change (startsWith "fd" ("::ffff:" ++ s)) with false.
  cbn [String.eqb negb orb orElse].
  change (matchMappedDotted ("::ffff:" ++ s))
    with (obind (matchIPv4 s) (fun _ => Some s)).
  rewrite Hm. cbn [obind].
  destruct (blocked (isBlockedIPv4 s)) eqn:Hb4; [reflexivity|].
  cbn [orElse].
  change (matchMappedHex ("::ffff:" ++ s))
    with (obind (reHex14 s) (fun '(hi, s) =>
          obind (reChar ":" s) (fun s =>
          obind (reHex14 s) (fun '(lo, s) =>
          if String.eqb s EmptyString then Some (hi, lo) else None)))).
  subst s. unfold dotted at 1. cbn [append].
  apply isDigitGroup_inv in Ha as [Aa [A1 A3]].
  unfold reHex14 at 1.
  rewrite span_app by (try apply digits_lowerHex; try assumption; try reflexivity; lia).
  rewrite (proj2 (eqb_empty_length a) A1).
  reflexivity.
Qed.

Lemma reHex14_app (g : string) (c : ascii) (rest : string) :
  allChars isLowerHex g = true -> (1 <= String.length g <= 4)%nat ->
  isLowerHex c = false ->
  reHex14 (g ++ String c rest) = Some (g, String c rest).
Proof.
  intros Hall [H1 H4] Hc. unfold reHex14.
  rewrite span_app by assumption.
  now rewrite (proj2 (eqb_empty_length g) H1).
Qed.

Lemma reHex14_all (g : string) :
  allChars isLowerHex g = true -> (1 <= String.length g <= 4)%nat ->
  reHex14 g = Some (g, EmptyString).
Proof.
  intros Hall [H1 H4]. unfold reHex14.
  rewrite span_all by assumption.
  now rewrite (proj2 (eqb_empty_length g) H1).
Qed.

Lemma matchIPv4_colon (x y : string) : matchIPv4 (x ++ ":" ++ y) = None.
Proof.
  destruct (matchIPv4 (x ++ ":" ++ y)) as [[[[a b] c] d]|] eqn:E; [|reflexivity].
  apply matchIPv4_inv in E as (E & Ha & Hb & Hc & Hd).
  pose proof (dotted_chars _ _ _ _ Ha Hb Hc Hd) as Hq.
  rewrite <- E, allChars_app in Hq. cbn [append allChars] in Hq.
  change (quadChar ":") with false in Hq.
  rewrite andb_false_r in Hq. discriminate.
Qed.

(** The two-group IPv4-mapped form is classified as the IPv4 address is. *)
Lemma mappedHex_blocked (a b c d : Z) (g1 g2 : string) :
  octet a -> octet b -> octet c -> octet d ->
  isHexGroup g1 = true -> isHexGroup g2 = true ->
  hexValue g1 = a * 256 + b -> hexValue g2 = c * 256 + d ->
  blocked (isBlockedIPv6 ("::ffff:" ++ g1 ++ ":" ++ g2))
  = blocked (isBlockedIPv4
               (dotted (numToString a) (numToString b)
                       (numToString c) (numToString d))).
Proof.
  intros Ha Hb Hc Hd G1 G2 V1 V2.
  destruct (hexGroup_lower _ G1) as (L1 & N1 & _).
  destruct (hexGroup_lower _ G2) as (L2 & N2 & _).
  destruct (parse_hexGroup _ G1) as (P1 & _ & _).
  destruct (parse_hexGroup _ G2) as (P2 & _ & _).
  destruct (split_octets _ _ _ Ha Hb V1) as [Ea Eb].
  destruct (split_octets _ _ _ Hc Hd V2) as [Ec Ed].
  unfold isBlockedIPv6. cbv zeta.
  change (toLowerCase ("::ffff:" ++ g1 ++ ":" ++ g2))
    with ("::ffff:" ++ toLowerCase (g1 ++ ":" ++ g2)).
  rewrite toLowerCase_app.
  change (toLowerCase (":" ++ g2)) with (":" ++ toLowerCase g2).
  set (h1 := toLowerCase g1) in *. set (h2 := toLowerCase g2) in *.
  set (s := h1 ++ ":" ++ h2).
  change (String.eqb ("::ffff:" ++ s) "::1") with false.
  change (hd EmptyString (split ":" ("::ffff:" ++ s))) with EmptyString.
  change (startsWith "fc" ("::ffff:" ++ s)) with false.
  change (startsWith "fd" ("::ffff:" ++ s)) with false.
  cbn [String.eqb negb orb orElse].
  change (matchMappedDotted ("::ffff:" ++ s))
    with (obind (matchIPv4 s) (fun _ => Some s)).
  subst s. rewrite matchIPv4_colon. cbn [obind orElse].
  change (matchMappedHex ("::ffff:" ++ h1 ++ ":" ++ h2))
    with (obind (reHex14 (h1 ++ String ":" h2)) (fun '(hi, s) =>
          obind (reChar ":" s) (fun s =>
          obind (reHex14 s) (fun '(lo, s) =>
          if String.eqb s EmptyString then Some (hi, lo) else None)))).
  rewrite reHex14_app by (assumption || reflexivity).
  cbn [obind reChar]. change (Ascii.eqb ":" ":") with true. cbn iota.
  cbn [obind].
  rewrite reHex14_all by assumption. cbn [obind String.eqb].
  rewrite P1, P2, V1, V2 in *. rewrite Ea, Eb, Ec, Ed.
  fold (dotted (numToString a) (numToString b) (numToString c) (numToString d)).
  destruct (blocked (isBlockedIPv4 _)); reflexivity.
Qed.

(** C3. [isBlockedIPv6] answers blocked for [::1], for every address whose
    first group [g] has [g & 0xFFC0 = 0xFE80], and for every text that
    starts with [fc] or [fd]; it classifies an IPv4-mapped address, written
    [::ffff:a.b.c.d] or [::ffff:HHHH:HHHH], exactly as [isBlockedIPv4]
    classifies the IPv4 address: blocked when that one is blocked, not
    blocked when it is not. *)
Theorem isBlockedIPv6_classification :
  blocked (isBlockedIPv6 "::1") = true
  /\ (forall g tail : string,
        isHexGroup g = true -> Z.land (hexValue g) 0xFFC0 = 0xFE80 ->
        blocked (isBlockedIPv6 (g ++ ":" ++ tail)) = true)
  /\ (forall rest : string,
        blocked (isBlockedIPv6 ("fc" ++ rest)) = true
        /\ blocked (isBlockedIPv6 ("fd" ++ rest)) = true)
  /\ (forall s : string,
        isDottedQuad s = true ->
        blocked (isBlockedIPv6 ("::ffff:" ++ s)) = blocked (isBlockedIPv4 s))
  /\ (forall (a b c d : Z) (g1 g2 : string),
        octet a -> octet b -> octet c -> octet d ->
        isHexGroup g1 = true -> isHexGroup g2 = true ->
        hexValue g1 = a * 256 + b -> hexValue g2 = c * 256 + d ->
        blocked (isBlockedIPv6 ("::ffff:" ++ g1 ++ ":" ++ g2))
        = blocked (isBlockedIPv4
                     (dotted (numToString a) (numToString b)
                             (numToString c) (numToString d)))).
Proof.
  split; [reflexivity|].
  split; [exact linkLocal_blocked|].
  split; [intro rest; split; apply uniqueLocal_blocked; auto|].
  split; [exact mappedDotted_blocked | exact mappedHex_blocked].
Qed.

Lemma isBlockedIPv6_classification_witness :
  blocked (isBlockedIPv6 ("febf" ++ ":" ++ ":1")) = true
  /\ blocked (isBlockedIPv6 ("::ffff:" ++ "10.0.0.1"))
     = blocked (isBlockedIPv4 "10.0.0.1")
  /\ blocked (isBlockedIPv6 ("::ffff:" ++ "5DB8" ++ ":" ++ "d822"))
     = blocked (isBlockedIPv4
                  (dotted (numToString 93) (numToString 184)
                          (numToString 216) (numToString 34))).
Proof.
  destruct isBlockedIPv6_classification as (_ & Hll & _ & Hdot & Hhex).
  split; [|split].
  - apply Hll; reflexivity.
  - apply Hdot; reflexivity.
  - apply Hhex; unfold octet; (reflexivity || lia).
Defined.

End Ipv6Facts.

(** ** The URL validator *)

Module UrlFacts.
Import JS Url Spec JSFacts PatternFacts Ipv4Shape.

Lemma checkAddresses_blocked (addresses : list LookupAddress) :
  existsb classifiedBlocked addresses = true ->
  forall first, exists why,
    checkAddresses addresses first = inl (invalid (Some why)).
Proof.
  induction addresses as [|addr more IH]; intros H first; simpl in H;
    [discriminate|].
  unfold classifiedBlocked in H at 1. cbn [checkAddresses].
  destruct (family addr =? 4).
  - destruct (blocked (isBlockedIPv4 (address addr))); [eauto|].
    now apply IH.
  - destruct (family addr =? 6).
    + destruct (blocked (isBlockedIPv6 (address addr))); [eauto|].
      now apply IH.
    + now apply IH.
Qed.

(** When no address is blocked the loop ends with [firstNonBlockedIp]
    either untouched or set to one of the addresses, and it is set as soon
    as one tagged address has been seen. *)
Lemma checkAddresses_clear (addresses : list LookupAddress) :
  existsb classifiedBlocked addresses = false ->
  Forall familyTagged addresses ->
  forall first, exists last,
    checkAddresses addresses first = inr last
    /\ (last = first
        \/ exists addr, In addr addresses /\ last = Some (address addr))
    /\ (first = None -> addresses <> [] ->
        exists addr, In addr addresses /\ last = Some (address addr)).
Proof.
  induction addresses as [|addr more IH]; intros H Htag first.
  - exists first. simpl. repeat split; auto. congruence.
  - simpl in H. apply orb_false_iff in H as [Hb Hmore].
    inversion Htag as [|? ? Ht Htag']; subst.
    unfold classifiedBlocked in Hb. cbn [checkAddresses].
    assert (forall next,
               (falsy first = true -> next = Some (address addr)) ->
               (falsy first = false -> next = first) ->
               exists last,
                 checkAddresses more next = inr last
                 /\ (last = first
                     \/ exists a, In a (addr :: more) /\ last = Some (address a))
                 /\ (first = None -> addr :: more <> [] ->
                     exists a, In a (addr :: more) /\ last = Some (address a)))
      as Step.
    { intros next Hset Hkeep.
      destruct (IH Hmore Htag' next) as (last & -> & Hor & _).
      exists last. split; [reflexivity|].
      destruct (falsy first) eqn:Hf.
      - rewrite (Hset eq_refl) in Hor.
        assert (exists a, In a (addr :: more) /\ last = Some (address a)) as Hin.
        { destruct Hor as [-> | (a & Ha & ->)].
          - exists addr. split; [now left | reflexivity].
          - exists a. split; [now right | reflexivity]. }
        split; [now right | intros _ _; exact Hin].
      - rewrite (Hkeep eq_refl) in Hor. split.
        + destruct Hor as [-> | (a & Ha & ->)]; [now left|].
          right. exists a. split; [now right | reflexivity].
        + intros ->. discriminate Hf. }
    destruct (family addr =? 4) eqn:F4.
    + rewrite Hb. apply Step; intros ->; reflexivity.
    + destruct (family addr =? 6) eqn:F6.
      * rewrite Hb. apply Step; intros ->; reflexivity.
      * destruct Ht as [Ht | Ht]; rewrite Ht in *; discriminate.
Qed.

Lemma blocked_has_reason_v4 (ip : string) :
  blocked (isBlockedIPv4 ip) = true -> exists why, reason (isBlockedIPv4 ip) = Some why.
Proof.
  unfold isBlockedIPv4. destruct (matchIPv4 ip) as [[[[a b] c] d]|]; [|discriminate].
  repeat match goal with
         | |- context [if ?t then _ else _] => destruct t; [simpl; eauto|]
         end.
  discriminate.
Qed.

Lemma blocked_has_reason_v6 (ip : string) :
  blocked (isBlockedIPv6 ip) = true -> exists why, reason (isBlockedIPv6 ip) = Some why.
Proof.
  unfold isBlockedIPv6. cbv zeta.
  repeat match goal with
         | |- blocked (orElse ?e _) = true -> _ =>
             let E := fresh "E" in
             destruct e as [r|] eqn:E;
             [ cbn [orElse]; intros _;
               repeat match type of E with
                      | context [if ?t then _ else _] => destruct t
                      | context [match ?m with Some _ => _ | None => _ end] =>
                          destruct m
                      | context [let '(_, _) := ?m in _] => destruct m
                      end;
               try discriminate E; inversion E; simpl; eauto
             | clear E; cbn [orElse] ]
         end.
  discriminate.
Qed.

Lemma checkAddresses_inl (addresses : list LookupAddress) :
  forall first r,
    checkAddresses addresses first = inl r ->
    exists why, r = invalid (Some why).
Proof.
  induction addresses as [|addr more IH]; intros first r H;
    cbn [checkAddresses] in H; [discriminate|].
  repeat match type of H with
         | context [if ?t then _ else _] => destruct t
         end;
    try (inversion H; eauto; fail); eapply IH; eassumption.
Qed.

Section Validator.

Variable newURL : string -> completion URL.

(** The steps before resolution let a hostname URL through. *)
Lemma validateUrl_resolves (urlString : string) (parsed : URL)
  (dnsResolver : DnsResolver) :
  newURL urlString = Normal parsed -> isHostnameUrl parsed = true ->
  validateUrl newURL urlString dnsResolver
  = let host := toLowerCase (url_hostname parsed) in
    match dnsResolver host with
    | Throw dnsError =>
        Normal (invalid (Some ("DNS resolution failed: " ++ errorMessage dnsError)))
    | Normal addresses =>
        match addresses with
        | [] => Normal (invalid (Some "DNS resolution returned no addresses"))
        | _ :: _ =>
            match checkAddresses addresses None with
            | inl result => Normal result
            | inr firstNonBlockedIp =>
                Normal {| valid := true; error := None;
                          resolvedIp := firstNonBlockedIp;
                          hostname := Some host |}
            end
        end
    end.
Proof.
  intros Hparse Hhost. unfold validateUrl. rewrite Hparse.
  unfold isHostnameUrl, allowedScheme, nameBlocked in Hhost. cbv zeta in *.
  set (host := toLowerCase (url_hostname parsed)) in *.
  apply andb_true_iff in Hhost as [Hhost Hbr].
  apply andb_true_iff in Hhost as [Hhost Hquad].
  apply andb_true_iff in Hhost as [Hscheme Hname].
  apply negb_true_iff in Hbr, Hquad, Hname.
  apply orb_false_iff in Hname as [Hname Hv6].
  rewrite Hname, Hv6, Hbr, (matchIPv4_shape _ Hquad).
  replace (negb (String.eqb (protocol parsed) "http:")
           && negb (String.eqb (protocol parsed) "https:")) with false
    by (now rewrite <- negb_orb, Hscheme).
  unfold tryCatch, bind.
  destruct (dnsResolver host) as [addresses|e]; [|reflexivity].
  destruct addresses as [|addr more]; [reflexivity|].
  change (Z.of_nat (List.length (addr :: more)) =? 0) with false.
  cbn iota. destruct (checkAddresses (addr :: more) None); reflexivity.
Qed.

(** C1. For a hostname URL whose lookup returns a non-empty list of
    family-tagged addresses, [validateUrl] returns an invalid result if any
    of the addresses is classified as blocked; otherwise it returns a valid
    result whose [resolvedIp] is one of the resolved addresses, none of
    which is blocked, and whose [hostname] is the (lower-cased) host of the
    parsed URL. *)
Theorem validateUrl_checks_every_address
  (urlString : string) (parsed : URL) (dnsResolver : DnsResolver)
  (addresses : list LookupAddress) :
  newURL urlString = Normal parsed ->
  isHostnameUrl parsed = true ->
  dnsResolver (toLowerCase (url_hostname parsed)) = Normal addresses ->
  addresses <> [] ->
  Forall familyTagged addresses ->
  (existsb classifiedBlocked addresses = true ->
   exists r, validateUrl newURL urlString dnsResolver = Normal r
             /\ valid r = false)
  /\ (existsb classifiedBlocked addresses = false ->
      exists addr,
        In addr addresses /\ classifiedBlocked addr = false
        /\ validateUrl newURL urlString dnsResolver
           = Normal {| valid := true; error := None;
                       resolvedIp := Some (address addr);
                       hostname := Some (toLowerCase (url_hostname parsed)) |}).
Proof.
  intros Hparse Hhost Hdns Hne Htag.
  rewrite (validateUrl_resolves _ _ _ Hparse Hhost). cbv zeta. rewrite Hdns.
  destruct addresses as [|a0 more]; [congruence|]. split; intro Hb.
  - destruct (checkAddresses_blocked _ Hb None) as [why ->].
    eexists. split; reflexivity.
  - destruct (checkAddresses_clear _ Hb Htag None)
      as (last & -> & _ & Hset).
    destruct (Hset eq_refl ltac:(discriminate)) as (addr & Hin & ->).
    exists addr. repeat split; [assumption|].
    destruct (classifiedBlocked addr) eqn:Hc; [|reflexivity].
    assert (existsb classifiedBlocked (a0 :: more) = true) as Hex
      by (apply existsb_exists; eauto).
    congruence.
Qed.

(** C4. [validateUrl] always completes normally with a result, and a result
    that is not valid carries an error string.  A URL that does not parse,
    a scheme other than http and https, a host refused by name and a
    resolver that throws each give an invalid result with its message. *)
Theorem validateUrl_never_throws
  (urlString : string) (dnsResolver : DnsResolver) :
  (exists r, validateUrl newURL urlString dnsResolver = Normal r
             /\ (valid r = false -> exists why, error r = Some why))
  /\ (forall e, newURL urlString = Throw e ->
        validateUrl newURL urlString dnsResolver
        = Normal (invalid (Some "Invalid URL format")))
  /\ (forall parsed,
        newURL urlString = Normal parsed -> allowedScheme parsed = false ->
        validateUrl newURL urlString dnsResolver
        = Normal (invalid (Some "Only http and https protocols are allowed")))
  /\ (forall parsed,
        newURL urlString = Normal parsed -> allowedScheme parsed = true ->
        nameBlocked (toLowerCase (url_hostname parsed)) = true ->
        exists why,
          validateUrl newURL urlString dnsResolver = Normal (invalid (Some why)))
  /\ (forall parsed dnsError,
        newURL urlString = Normal parsed -> isHostnameUrl parsed = true ->
        dnsResolver (toLowerCase (url_hostname parsed)) = Throw dnsError ->
        validateUrl newURL urlString dnsResolver
        = Normal (invalid (Some ("DNS resolution failed: "
                                 ++ errorMessage dnsError)))).
Proof.
  split; [|split; [|split; [|split]]].
  - unfold validateUrl.
    destruct (newURL urlString) as [parsed|e];
      [|eexists; split; [reflexivity | simpl; eauto]].
    destruct (_ && _); [eexists; split; [reflexivity | simpl; eauto]|].
    cbv zeta. set (host := toLowerCase (url_hostname parsed)).
    destruct (_ || _); [eexists; split; [reflexivity | simpl; eauto]|].
    destruct (String.eqb host "[::1]");
      [eexists; split; [reflexivity | simpl; eauto]|].
    destruct (matchIPv4 host) as [m|].
    + destruct (blocked (isBlockedIPv4 host)) eqn:Hb;
        eexists; (split; [reflexivity | simpl; intro; try discriminate]).
      now apply blocked_has_reason_v4.
    + destruct (startsWith "[" host && endsWith "]" host).
      * destruct (blocked (isBlockedIPv6 (slice_1_m1 host))) eqn:Hb;
          eexists; (split; [reflexivity | simpl; intro; try discriminate]).
        now apply blocked_has_reason_v6.
      * unfold tryCatch, bind.
        destruct (dnsResolver host) as [addresses|e];
          [|eexists; split; [reflexivity | simpl; eauto]].
        destruct (_ =? 0); [eexists; split; [reflexivity | simpl; eauto]|].
        destruct (checkAddresses addresses None) as [r|first] eqn:Hc.
        -- destruct (checkAddresses_inl _ _ _ Hc) as [why ->].
           eexists; split; [reflexivity | simpl; eauto].
        -- eexists; split; [reflexivity | simpl; intro; discriminate].
  - intros e He. unfold validateUrl. now rewrite He.
  - intros parsed Hp Hs. unfold validateUrl. rewrite Hp.
    unfold allowedScheme in Hs. now rewrite <- negb_orb, Hs.
  - intros parsed Hp Hs Hn. unfold validateUrl. rewrite Hp.
    unfold allowedScheme in Hs. rewrite <- negb_orb, Hs. cbn [negb].
    cbv zeta. unfold nameBlocked in Hn.
    destruct (_ || _) eqn:Hl in |- *; [eauto|].
    rewrite Hl in Hn. cbn [orb] in Hn. rewrite Hn. eauto.
  - intros parsed e Hp Hh Hd.
    rewrite (validateUrl_resolves _ _ _ Hp Hh). cbv zeta. now rewrite Hd.
Qed.

End Validator.

Lemma validateUrl_checks_every_address_witness :
  exists addr,
    In addr [{| address := "93.184.216.34"; family := 4 |}]
    /\ classifiedBlocked addr = false
    /\ validateUrl (Mocks.tableURL Mocks.knownURLs) "https://example.com"
         Mocks.mockDns_public
       = Normal {| valid := true; error := None;
                   resolvedIp := Some (address addr);
                   hostname := Some "example.com" |}.
Proof.
  refine (proj2 (validateUrl_checks_every_address
                   (Mocks.tableURL Mocks.knownURLs) "https://example.com"
                   {| protocol := "https:"; url_hostname := "example.com" |}
                   Mocks.mockDns_public
                   [{| address := "93.184.216.34"; family := 4 |}]
                   _ _ _ _ _) _);
    try reflexivity.
  - discriminate.
  - repeat constructor.
Defined.

Lemma validateUrl_never_throws_witness :
  validateUrl (Mocks.tableURL Mocks.knownURLs) "not-a-url" Mocks.mockDns_public
  = Normal (invalid (Some "Invalid URL format"))
  /\ validateUrl (Mocks.tableURL Mocks.knownURLs) "ftp://example.com/file"
       Mocks.mockDns_public
     = Normal (invalid (Some "Only http and https protocols are allowed"))
  /\ (exists why,
        validateUrl (Mocks.tableURL Mocks.knownURLs) "http://localhost:8080"
          Mocks.mockDns_public
        = Normal (invalid (Some why)))
  /\ validateUrl (Mocks.tableURL Mocks.knownURLs) "https://nonexistent.example"
       Mocks.mockDns_nxdomain
     = Normal (invalid (Some ("DNS resolution failed: "
                              ++ "getaddrinfo ENOTFOUND nonexistent.example"))).
Proof.
  split; [|split; [|split]].
  - eapply (proj1 (proj2 (validateUrl_never_throws _ "not-a-url" _))).
    reflexivity.
  - eapply (proj1 (proj2 (proj2
              (validateUrl_never_throws _ "ftp://example.com/file" _))));
      reflexivity.
  - eapply (proj1 (proj2 (proj2 (proj2
              (validateUrl_never_throws _ "http://localhost:8080" _)))));
      reflexivity.
  - eapply (proj2 (proj2 (proj2 (proj2
              (validateUrl_never_throws _ "https://nonexistent.example" _))))
              {| protocol := "https:"; url_hostname := "nonexistent.example" |}
              (ErrorObject "getaddrinfo ENOTFOUND nonexistent.example"));
      reflexivity.
Defined.


End UrlFacts.

(** ** The output-path validator *)

Module PathFacts.
Import JS NodePath Path Spec JSFacts.

Lemma noCustomPath_blank (customPath : option string) :
  noCustomPath customPath = blank customPath.
Proof.
  destruct customPath as [p|]; [|reflexivity]. simpl.
  destruct (allChars isWhiteSpace p) eqn:Hall.
  - apply trim_empty in Hall. rewrite Hall. apply orb_true_r.
  - destruct (String.eqb_spec p EmptyString) as [->|_]; [discriminate|].
    destruct (String.eqb_spec (trim p) EmptyString) as [Ht|_]; [|reflexivity].
    apply trim_empty in Ht. congruence.
Qed.

Lemma nullByte_not_blank (p : string) :
  hasNullByte p = true -> blank (Some p) = false.
Proof.
  unfold hasNullByte. simpl. intro H.
  destruct (allChars isWhiteSpace p) eqn:Hall; [|reflexivity].
  apply orb_true_iff in H as [H|H];
    pose proof (includes_char isWhiteSpace _ _ _ H Hall) as Hc;
    vm_compute in Hc; discriminate.
Qed.

Section Validator.

Variable cwd : string.

(** C6. An absent or blank custom path is accepted with the default
    directory joined with the default file name; a custom path with a raw
    or percent-encoded null byte is rejected; and when neither the target
    nor its parent directory has a real path the request is rejected with
    the "Parent directory does not exist" error. *)
Theorem validateOutputPath_default_null_parent
  (defaultName : string) (config : PathConfig) (fileSystem : FileSystem) :
  (forall customPath,
      blank customPath = true ->
      validateOutputPath cwd customPath defaultName config fileSystem
      = {| valid := true;
           path := Some (join [defaultOutDir config; defaultName]);
           error := None |})
  /\ (forall p,
        hasNullByte p = true ->
        validateOutputPath cwd (Some p) defaultName config fileSystem
        = {| valid := false; path := None;
             error := Some "Path contains null bytes" |})
  /\ (forall p e1 e2,
        blank (Some p) = false -> hasNullByte p = false ->
        fileSystem (absoluteTarget cwd config p) = Throw e1 ->
        fileSystem (dirname (absoluteTarget cwd config p)) = Throw e2 ->
        validateOutputPath cwd (Some p) defaultName config fileSystem
        = {| valid := false; path := None;
             error := Some ("Parent directory does not exist: "
                            ++ dirname (absoluteTarget cwd config p)) |}).
Proof.
  split; [|split].
  - intros customPath Hb. unfold validateOutputPath.
    now rewrite noCustomPath_blank, Hb.
  - intros p Hn. unfold validateOutputPath.
    rewrite noCustomPath_blank, (nullByte_not_blank _ Hn).
    cbn [template]. unfold hasNullByte in Hn. now rewrite Hn.
  - intros p e1 e2 Hb Hn H1 H2. unfold validateOutputPath.
    rewrite noCustomPath_blank, Hb. cbn [template].
    unfold hasNullByte in Hn. rewrite Hn.
    unfold absoluteTarget in H1, H2. cbv zeta.
    now rewrite H1, H2.
Qed.



End Validator.

Lemma validateOutputPath_default_null_parent_witness :
  validateOutputPath "/" (Some "   ") "screenshot.png" Mocks.TEST_CONFIG
    (Mocks.buildMockFs [])
  = {| valid := true;
       path := Some (join ["/home/user/Desktop/Screenshots"; "screenshot.png"]);
       error := None |}
  /\ validateOutputPath "/" (Some "/tmp/evil%00.png") "default.png"
       Mocks.TEST_CONFIG (Mocks.buildMockFs [])
     = {| valid := false; path := None;
          error := Some "Path contains null bytes" |}
  /\ validateOutputPath "/" (Some "/nonexistent/dir/file.png") "default.png"
       Mocks.TEST_CONFIG (Mocks.buildMockFs [])
     = {| valid := false; path := None;
          error := Some ("Parent directory does not exist: "
                         ++ "/nonexistent/dir") |}.
Proof.
  destruct (validateOutputPath_default_null_parent "/" "screenshot.png"
              Mocks.TEST_CONFIG (Mocks.buildMockFs [])) as (Hdef & _ & _).
  destruct (validateOutputPath_default_null_parent "/" "default.png"
              Mocks.TEST_CONFIG (Mocks.buildMockFs [])) as (_ & Hnull & Hpar).
  split; [|split].
  - apply (Hdef (Some "   ")). reflexivity.
  - apply Hnull. reflexivity.
  - eapply (Hpar "/nonexistent/dir/file.png"); reflexivity.
Defined.

(** C5 (the code departs from it). With the configuration and file system
    of the test-suite: the target [/tmp/..shot.png] resolves to a path below
    the allowed directory [/tmp] and is rejected; with a file system that
    also knows the root, the target [/ttmp] resolves to [/ttmp], outside
    every allowed directory, and is accepted with the path [/tmp]. *)
Theorem validateOutputPath_containment_slips :
  (resolvedTarget (Mocks.buildMockFs [])
     (absoluteTarget "/" Mocks.TEST_CONFIG "/tmp/..shot.png")
   = Some "/tmp/..shot.png"
   /\ insideAllowed "/" (Mocks.buildMockFs []) Mocks.TEST_CONFIG
        "/tmp/..shot.png" = true
   /\ validateOutputPath "/" (Some "/tmp/..shot.png") "default.png"
        Mocks.TEST_CONFIG (Mocks.buildMockFs [])
      = {| valid := false; path := None; error := Some outsideMessage |})
  /\ (resolvedTarget (Mocks.buildMockFs [("/", Normal "/")])
        (absoluteTarget "/" Mocks.TEST_CONFIG "/ttmp")
      = Some "/ttmp"
      /\ insideAllowed "/" (Mocks.buildMockFs [("/", Normal "/")])
           Mocks.TEST_CONFIG "/ttmp" = false
      /\ validateOutputPath "/" (Some "/ttmp") "default.png"
           Mocks.TEST_CONFIG (Mocks.buildMockFs [("/", Normal "/")])
         = {| valid := true; path := Some "/tmp"; error := None |}).
Proof. repeat split; vm_compute; reflexivity. Qed.

End PathFacts.

(** ** The semaphore *)

Module SemaphoreFacts.
Import Semaphore.
Local Open Scope list_scope.

Section Gate.

Variable W : Type.

Lemma step_balanced (capacity held : Z) (c : call W) (s : Semaphore W) :
  balanced capacity held s ->
  (c = CallRelease -> 0 < held) ->
  let (e, s') := step c s in
  balanced capacity (held + grants e - releases e) s'
  /\ match e with
     | Suspended w => waiting s' = waiting s ++ [w]
     | Resumed w => waiting s = w :: waiting s'
     | _ => waiting s' = waiting s
     end.
Proof.
  intros (Hsum & Hp & Hh & Hq) Hrel. unfold balanced.
  destruct c as [w| |]; cbn [step].
  - unfold acquire. destruct (Z.ltb_spec 0 (permits s)); cbn;
      repeat split; try lia; try reflexivity.
    intro Hw. specialize (Hq Hw). lia.
  - unfold tryAcquire. destruct (Z.ltb_spec 0 (permits s)); cbn;
      repeat split; try lia; try assumption.
    intro Hw. specialize (Hq Hw). lia.
  - specialize (Hrel eq_refl). unfold release.
    destruct (waiting s) as [|next rest] eqn:Hw; cbn.
    + repeat split; try lia. congruence.
    + assert (permits s = 0) by (apply Hq; discriminate).
      repeat split; try lia.
Qed.

Lemma run_balanced (capacity : Z) (calls : list (call W)) :
  forall (held : Z) (s : Semaphore W) (k : nat) (suspended resumed : list W),
    balanced capacity held s ->
    suspended = resumed ++ waiting s ->
    paired calls held s = true ->
    let (history, s') := run (firstn k calls) s in
    balanced capacity (held + outstanding history) s'
    /\ suspended ++ suspendedOrder history
       = resumed ++ resumedOrder history ++ waiting s'.
Proof.
  induction calls as [|c more IH]; intros held s k susp res Hb Hq Hp.
  - rewrite firstn_nil. cbn. rewrite Z.add_0_r, app_nil_r. auto.
  - destruct k as [|k]; [cbn; rewrite Z.add_0_r, app_nil_r; auto|].
    cbn [firstn run]. cbn [paired] in Hp.
    assert (c = CallRelease -> 0 < held) as Hrel.
    { intros ->. destruct (step CallRelease s).
      apply andb_true_iff in Hp as [Hp _]. now apply Z.ltb_lt. }
    pose proof (step_balanced capacity held c s Hb Hrel) as Hstep.
    destruct (step c s) as [e s1].
    destruct Hstep as [Hb1 Hw].
    assert (paired more (held + grants e - releases e) s1 = true) as Hp1.
    { destruct c; try assumption.
      apply andb_true_iff in Hp as [_ Hp]. assumption. }
    specialize (IH (held + grants e - releases e) s1 k
                  (susp ++ suspendedOrder [e]) (res ++ resumedOrder [e]) Hb1).
    assert (susp ++ suspendedOrder [e] = (res ++ resumedOrder [e]) ++ waiting s1)
      as Hq1.
    { subst susp. destruct e; cbn; rewrite ?app_nil_r; try congruence.
      - rewrite Hw. now rewrite app_assoc.
      - rewrite Hw. rewrite <- app_assoc. reflexivity. }
    specialize (IH Hq1 Hp1).
    destruct (run (firstn k more) s1) as [history s2].
    destruct IH as [Hb2 Hq2]. split.
    + cbn [outstanding].
      replace (held + (grants e - releases e + outstanding history))
        with (held + grants e - releases e + outstanding history) by lia.
      assumption.
    + destruct e; cbn in *; rewrite ?app_nil_r in *;
        rewrite <- ?app_assoc in *; cbn in *; assumption.
Qed.

(** C7. In a run in which every [release()] is made while a unit is
    outstanding, after any number of calls: the outstanding units do not
    exceed the capacity; [available] is between 0 and the capacity when no
    caller waits and is 0 when one does; and the callers resumed so far are
    the first callers suspended, in the order of their suspension. *)
Theorem gate_invariants (capacity : Z) (calls : list (call W)) (k : nat) :
  0 <= capacity ->
  paired calls 0 (create capacity) = true ->
  let (history, s) := run (firstn k calls) (create capacity) in
  outstanding history <= capacity
  /\ (waiting s = [] -> 0 <= available s <= capacity)
  /\ (waiting s <> [] -> available s = 0)
  /\ suspendedOrder history = resumedOrder history ++ waiting s.
Proof.
  intros Hcap Hp.
  pose proof (run_balanced capacity calls 0 (create capacity) k [] []) as H.
  assert (@balanced W capacity 0 (create capacity)) as Hb.
  { unfold balanced, create. cbn. repeat split; try lia. congruence. }
  specialize (H Hb eq_refl Hp).
  destruct (run (firstn k calls) (create capacity)) as [history s].
  destruct H as [(Hsum & Hperm & Hheld & Hwait) Hfifo].
  cbn in Hfifo. unfold available. repeat split; try lia; auto.
Qed.

(** C8. [tryAcquire()] returns [true] and takes one permit exactly when a
    permit is available, and otherwise returns [false] and leaves the gate
    as it is; [acquire()] queues its caller behind the callers already
    waiting; [release()] resumes the caller at the head of the queue without
    touching the counter, and adds one to the counter when the queue is
    empty.  With one permit, [tryAcquire()] gives [true], then [false], and
    [true] again after a [release()]. *)
Theorem tryAcquire_release_behaviour :
  (forall s : Semaphore W,
      (fst (tryAcquire s) = true <-> 0 < available s)
      /\ (0 < available s ->
          tryAcquire s
          = (true, {| permits := permits s - 1; waiting := waiting s |}))
      /\ (available s <= 0 -> tryAcquire s = (false, s)))
  /\ (forall (s : Semaphore W) (w : W),
        available s <= 0 ->
        acquire w s = (false, {| permits := permits s;
                                 waiting := waiting s ++ [w] |}))
  /\ (forall (s : Semaphore W) (next : W) (rest : list W),
        waiting s = next :: rest ->
        release s = (Some next, {| permits := permits s; waiting := rest |}))
  /\ (forall s : Semaphore W,
        waiting s = [] ->
        release s = (None, {| permits := permits s + 1; waiting := [] |}))
  /\ (let s0 : Semaphore W := create 1 in
      let (r1, s1) := tryAcquire s0 in
      let (r2, s2) := tryAcquire s1 in
      let (woken, s3) := release s2 in
      let (r3, s4) := tryAcquire s3 in
      (r1, r2, woken, r3) = (true, false, None, true)).
Proof.
  split; [|split; [|split; [|split]]].
  - intro s. unfold tryAcquire, available.
    destruct (Z.ltb_spec 0 (permits s)); cbn; repeat split;
      intros; try reflexivity; try lia; try discriminate.
  - intros s w H. unfold acquire, available in *.
    destruct (Z.ltb_spec 0 (permits s)); [lia | reflexivity].
  - intros s next rest H. unfold release. now rewrite H.
  - intros s H. unfold release. now rewrite H.
  - reflexivity.
Qed.

End Gate.

Lemma gate_invariants_witness :
  let (history, s) :=
    run (firstn 5 [CallTryAcquire; CallAcquire 1%nat; CallAcquire 2%nat;
                   CallRelease; CallRelease; CallRelease])
        (create 1) in
  outstanding history <= 1
  /\ (waiting s = [] -> 0 <= available s <= 1)
  /\ (waiting s <> [] -> available s = 0)
  /\ suspendedOrder history = resumedOrder history ++ waiting s.
Proof.
  apply (gate_invariants nat 1
           [CallTryAcquire; CallAcquire 1%nat; CallAcquire 2%nat;
            CallRelease; CallRelease; CallRelease] 5).
  - lia.
  - reflexivity.
Defined.

Lemma tryAcquire_release_behaviour_witness :
  tryAcquire {| permits := 2; waiting := @nil nat |}
  = (true, {| permits := 2 - 1; waiting := [] |})
  /\ acquire 7%nat {| permits := 0; waiting := [3%nat] |}
     = (false, {| permits := 0; waiting := [3%nat] ++ [7%nat] |})
  /\ release {| permits := 0; waiting := [3%nat; 7%nat] |}
     = (Some 3%nat, {| permits := 0; waiting := [7%nat] |})
  /\ release {| permits := 0; waiting := @nil nat |}
     = (None, {| permits := 0 + 1; waiting := [] |}).
Proof.
  destruct (tryAcquire_release_behaviour nat) as (Htry & Hacq & Hrel & Hret & _).
  split; [|split; [|split]].
  - apply (proj1 (proj2 (Htry {| permits := 2; waiting := [] |}))).
    unfold available; cbn; lia.
  - apply (Hacq {| permits := 0; waiting := [3%nat] |}).
    unfold available; cbn; lia.
  - apply (Hrel {| permits := 0; waiting := [3%nat; 7%nat] |}). reflexivity.
  - apply (Hret {| permits := 0; waiting := [] |}). reflexivity.
Defined.

End SemaphoreFacts.

(** ** Node's [path.relative] and containment *)

Module RelativeFacts.
Import JS NodePath Spec JSFacts.

Lemma resolveLoop_absolute (cwd : string) (fromLast : list string) :
  startsWith "/" cwd = true ->
  forall acc, snd (resolveLoop cwd fromLast acc) = true.
Proof.
  intros Hcwd. induction fromLast as [|p more IH]; intro acc; cbn [resolveLoop].
  - destruct cwd; [discriminate|]. cbn [String.eqb]. cbn [snd]. assumption.
  - destruct (String.eqb p EmptyString); [apply IH|].
    destruct (startsWith "/" p); [reflexivity | apply IH].
Qed.

(** With an absolute working directory [path.resolve] gives an absolute
    path. *)
Lemma resolve_absolute (cwd : string) (args : list string) :
  startsWith "/" cwd = true ->
  exists tail, resolve cwd args = String "/" tail.
Proof.
  intro Hcwd. unfold resolve.
  pose proof (resolveLoop_absolute cwd (rev args) Hcwd EmptyString) as H.
  destruct (resolveLoop cwd (rev args) EmptyString) as [p abs].
  cbn [snd] in H. subst abs. eexists. reflexivity.
Qed.

(** The climbing part of a relative path starts with [..]. *)
Lemma climb_dots (fromRest : string) :
  forall out,
    (out = EmptyString \/ startsWith ".." out = true) ->
    startsWith ".." (climb fromRest out) = true.
Proof.
  induction fromRest as [|c r IH]; intros out Hout; cbn [climb].
  - destruct Hout as [-> | H]; [reflexivity | now apply startsWith_app_l].
  - apply IH. destruct (Ascii.eqb c "/"); [|assumption].
    right. destruct Hout as [-> | H]; [reflexivity | now apply startsWith_app_l].
Qed.

(** The scan for the common prefix: what it has read is common to both
    strings, and it stops at the end of one of them or at a difference. *)
Lemma commonPrefix_spec (from : string) :
  forall (to : string) (i0 l0 i l : Z),
    commonPrefix from to i0 l0 = (i, l) ->
    exists common from' to',
      from = common ++ from' /\ to = common ++ to'
      /\ i = i0 + Z.of_nat (String.length common).
Proof.
  induction from as [|x from IH]; intros to i0 l0 i l H.
  - cbn in H. inversion H; subst. exists EmptyString, EmptyString, to.
    cbn. repeat split; lia.
  - destruct to as [|y to].
    + cbn in H. inversion H; subst.
      exists EmptyString, (String x from), EmptyString. cbn. repeat split; lia.
    + cbn [commonPrefix] in H. destruct (Ascii.eqb_spec x y) as [->|Hxy].
      * apply IH in H as (common & from' & to' & -> & -> & ->).
        exists (String y common), from', to'. cbn [append String.length].
        repeat split; lia.
      * inversion H; subst.
        exists EmptyString, (String x from), (String y to). cbn.
        repeat split; lia.
Qed.

Lemma length_append (a b : string) :
  String.length (a ++ b) = (String.length a + String.length b)%nat.
Proof. induction a as [|c a IH]; simpl; [reflexivity | now rewrite IH]. Qed.

Lemma length_zero (s : string) : String.length s = O -> s = EmptyString.
Proof. destruct s; [reflexivity | discriminate]. Qed.

Lemma get_append (a b : string) :
  String.get (String.length a) (a ++ b) = String.get 0 b.
Proof. induction a as [|c a IH]; simpl; [reflexivity | assumption]. Qed.

Lemma within_refl (p : string) : within p p = true.
Proof. unfold within. now rewrite String.eqb_refl. Qed.

Lemma within_root (t : string) : within "/" (String "/" t) = true.
Proof. unfold within. cbn. apply orb_true_r. Qed.

Lemma within_below (f rest : string) :
  within (String "/" f) (String "/" (f ++ String "/" rest)) = true.
Proof.
  unfold within. apply orb_true_iff. right.
  destruct f as [|c f]; [reflexivity|].
  change (String.eqb (String "/" (String c f)) "/") with false. cbn iota.
  change (String "/" (String c f) ++ "/") with (String "/" (String c f ++ "/")).
  cbn [startsWith]. rewrite Ascii.eqb_refl. cbn [andb].
  change (String "/" rest) with ("/" ++ rest).
  rewrite <- append_assoc. apply startsWith_app.
Qed.

(** A relative path that does not start with [..] leads to a place inside
    the directory it is taken from. *)
Lemma relative_inside (cwd from to : string) :
  startsWith "/" cwd = true ->
  startsWith ".." (relative cwd from to) = false ->
  within (resolve cwd [from]) (resolve cwd [to]) = true.
Proof.
  intros Hcwd. unfold relative.
  destruct (String.eqb_spec from to) as [->|_]; [intros _; apply within_refl|].
  destruct (resolve_absolute cwd [from] Hcwd) as [f ->].
  destruct (resolve_absolute cwd [to] Hcwd) as [t ->].
  destruct (String.eqb_spec (String "/" f) (String "/" t)) as [E|_];
    [intros _; rewrite E; apply within_refl|].
  cbv zeta. change (substringFrom 1 (String "/" f)) with f.
  change (substringFrom 1 (String "/" t)) with t.
  destruct (commonPrefix f t 0 (-1)) as [i lcs] eqn:Hscan.
  apply commonPrefix_spec in Hscan as (common & f' & t' & Hf & Ht & Hi).
  assert (forall l,
             startsWith ".."
               (climb (substringFrom (Z.to_nat (l + 1)) f) EmptyString
                ++ substringFrom (Z.to_nat (1 + l)) (String "/" t)) = true)
    as Hfin by (intro l; apply startsWith_app_l, climb_dots; now left).
  set (fl := Z.of_nat (String.length f)). set (tl := Z.of_nat (String.length t)).
  destruct (Z.eqb_spec i (Z.min fl tl)) as [Hmin|_];
    [|rewrite Hfin; discriminate].
  destruct (Z.ltb_spec (Z.min fl tl) tl) as [Hlt|_].
  - assert (f' = EmptyString) as ->.
    { apply length_zero. subst fl tl. rewrite Hf, length_append in *. lia. }
    rewrite append_nil_r_string in Hf. subst common.
    destruct (isSlashAt i t) eqn:Hslash.
    + intros _. unfold isSlashAt, charAt in Hslash.
      destruct (Z.ltb_spec i 0); [discriminate|].
      replace (Z.to_nat i) with (String.length f) in Hslash by lia.
      rewrite Ht, get_append in Hslash.
      destruct t' as [|c t'']; [discriminate|]. cbn in Hslash.
      apply Ascii.eqb_eq in Hslash. subst c. rewrite Ht. apply within_below.
    + destruct (Z.eqb_spec i 0) as [H0|_]; [|rewrite Hfin; discriminate].
      intros _. assert (f = EmptyString) as -> by (apply length_zero; lia).
      apply within_root.
  - destruct (Z.ltb_spec (Z.min fl tl) fl) as [_|_].
    + destruct (isSlashAt i f); [rewrite Hfin; discriminate|].
      destruct (i =? 0); rewrite Hfin; discriminate.
    + rewrite Hfin; discriminate.
Qed.

Section Containment.
Import Path.

Variable cwd : string.
Hypothesis cwd_absolute : startsWith "/" cwd = true.

Lemma checkAllowedDirs_inside (fileSystem : FileSystem) (realPath : string)
  (dirs : list string) (r : PathValidationResult) :
  checkAllowedDirs cwd fileSystem realPath dirs = Some r ->
  r = accepted realPath
  /\ exists dir,
       In dir dirs
       /\ within (resolve cwd [realAllowedDir cwd fileSystem dir])
                 (resolve cwd [realPath]) = true.
Proof.
  induction dirs as [|dir more IH]; [discriminate|].
  cbn [checkAllowedDirs].
  destruct (startsWith ".." (relative cwd (realAllowedDir cwd fileSystem dir) realPath))
    eqn:Hrel.
  - cbn [negb andb]. intro H. destruct (IH H) as (-> & d & Hin & Hw).
    split; [reflexivity|]. exists d. split; [now right | assumption].
  - destruct (negb false && negb _); intro H.
    + inversion H; subst. split; [reflexivity|].
      exists dir. split; [now left|]. now apply relative_inside.
    + destruct (IH H) as (-> & d & Hin & Hw).
      split; [reflexivity|]. exists d. split; [now right | assumption].
Qed.

(** What the validator guarantees of a custom path it accepts: the path it
    returns is the real path it computed, and that path is inside one of
    the allowed directories, both taken in resolved form. *)
Lemma validateOutputPath_accepts_inside (p defaultName : string)
  (config : PathConfig) (fileSystem : FileSystem) :
  blank (Some p) = false ->
  valid (validateOutputPath cwd (Some p) defaultName config fileSystem) = true ->
  exists real dir,
    validateOutputPath cwd (Some p) defaultName config fileSystem = accepted real
    /\ In dir (allowedOutputDirs config)
    /\ within (resolve cwd [realAllowedDir cwd fileSystem dir])
              (resolve cwd [real]) = true.
Proof.
  intros Hb. unfold validateOutputPath.
  rewrite PathFacts.noCustomPath_blank, Hb. cbn [template].
  destruct (_ || _); [discriminate|]. cbv zeta.
  set (target := if startsWith "/" p then _ else _).
  assert (forall real,
             valid (orElse (checkAllowedDirs cwd fileSystem real
                              (allowedOutputDirs config))
                           (rejected outsideMessage)) = true ->
             exists real' dir,
               orElse (checkAllowedDirs cwd fileSystem real
                         (allowedOutputDirs config))
                      (rejected outsideMessage) = accepted real'
               /\ In dir (allowedOutputDirs config)
               /\ within (resolve cwd [realAllowedDir cwd fileSystem dir])
                         (resolve cwd [real']) = true) as Hcont.
  { intros real.
    destruct (checkAllowedDirs cwd fileSystem real (allowedOutputDirs config))
      as [r|] eqn:Hc; cbn [orElse]; [|discriminate].
    intros _. destruct (checkAllowedDirs_inside _ _ _ _ Hc) as (-> & dir & Hin & Hw).
    exists real, dir. auto. }
  destruct (fileSystem target) as [real|e]; [apply Hcont|].
  destruct (fileSystem (dirname target)) as [realParent|e']; [apply Hcont|].
  discriminate.
Qed.

End Containment.

End RelativeFacts.

(** * Further properties *)

(** ** The URL validator beyond the resolution step *)

Module UrlMore.
Import JS Url Spec Notions JSFacts PatternFacts Ipv4Shape Ipv6Facts UrlFacts.

Lemma dottedQuad_first_digit (h : string) :
  isDottedQuad h = true ->
  exists c rest, h = String c rest /\ isDigit c = true.
Proof.
  intro H. destruct (isDottedQuad_inv _ H) as (a & b & c & d & -> & Ha & _).
  apply isDigitGroup_inv in Ha as [Hall [H1 _]].
  destruct a as [|x a]; [simpl in H1; lia|].
  simpl in Hall. apply andb_true_iff in Hall as [Hx _].
  exists x. eexists. split; [reflexivity | assumption].
Qed.

Lemma dottedQuad_not_named (h : string) :
  isDottedQuad h = true -> nameBlocked h = false /\ bracketed h = false.
Proof.
  intro H. destruct (dottedQuad_first_digit _ H) as (c & rest & -> & Hc).
  assert (c <> "l"%char /\ c <> "["%char) as [Hl Hb].
  { split; intros ->; vm_compute in Hc; discriminate. }
  unfold nameBlocked, bracketed. cbn [String.eqb startsWith].
  destruct (Ascii.eqb_spec c "l"); [congruence|].
  destruct (Ascii.eqb_spec c "["); [congruence|].
  destruct (Ascii.eqb_spec "[" c); [congruence|]. split; reflexivity.
Qed.

Section Validator.

Variable newURL : string -> completion URL.

(** X1. A host that is an IP literal is classified directly and the
    resolver is not consulted: the result is the same for every resolver.
    A dotted quad is valid exactly when [isBlockedIPv4] does not block it,
    and is then returned both as [resolvedIp] and as [hostname]; a
    bracketed host other than [[::1]] is valid exactly when
    [isBlockedIPv6] does not block the text between the brackets. *)
Theorem validateUrl_literals_skip_resolution
  (urlString : string) (parsed : URL) (dnsResolver : DnsResolver) :
  newURL urlString = Normal parsed ->
  allowedScheme parsed = true ->
  let host := toLowerCase (url_hostname parsed) in
  (isDottedQuad host = true ->
   validateUrl newURL urlString dnsResolver
   = Normal (if blocked (isBlockedIPv4 host)
             then invalid (reason (isBlockedIPv4 host))
             else {| valid := true; error := None;
                     resolvedIp := Some host; hostname := Some host |}))
  /\ (bracketed host = true -> nameBlocked host = false ->
      validateUrl newURL urlString dnsResolver
      = Normal (if blocked (isBlockedIPv6 (slice_1_m1 host))
                then invalid (reason (isBlockedIPv6 (slice_1_m1 host)))
                else {| valid := true; error := None;
                        resolvedIp := Some (slice_1_m1 host);
                        hostname := Some host |})).
Proof.
  intros Hparse Hscheme host. unfold validateUrl. rewrite Hparse.
  unfold allowedScheme in Hscheme. rewrite <- negb_orb, Hscheme. cbn [negb].
  cbv zeta. fold host. split.
  - intro Hq. destruct (dottedQuad_not_named _ Hq) as [Hn _].
    unfold nameBlocked in Hn. apply orb_false_iff in Hn as [Hn1 Hn2].
    rewrite Hn1, Hn2.
    destruct (isDottedQuad_inv _ Hq) as (a & b & c & d & E & Ha & Hb & Hc & Hd).
    rewrite E at 1. rewrite (matchIPv4_dotted _ _ _ _ Ha Hb Hc Hd).
    destruct (blocked (isBlockedIPv4 host)); reflexivity.
  - intros Hbr Hn. unfold nameBlocked in Hn.
    apply orb_false_iff in Hn as [Hn1 Hn2]. rewrite Hn1, Hn2.
    assert (matchIPv4 host = None) as ->.
    { apply matchIPv4_shape. destruct (isDottedQuad host) eqn:Hq; [|reflexivity].
      destruct (dottedQuad_not_named _ Hq) as [_ Hnb]. congruence. }
    unfold bracketed in Hbr. rewrite Hbr.
    destruct (blocked (isBlockedIPv6 (slice_1_m1 host))); reflexivity.
Qed.

End Validator.

Lemma validateUrl_literals_skip_resolution_witness :
  validateUrl (Mocks.tableURL
                 [("http://192.168.1.1",
                   {| protocol := "http:"; url_hostname := "192.168.1.1" |})])
    "http://192.168.1.1" Mocks.mockDns_nxdomain
  = Normal (if blocked (isBlockedIPv4 "192.168.1.1")
            then invalid (reason (isBlockedIPv4 "192.168.1.1"))
            else {| valid := true; error := None;
                    resolvedIp := Some "192.168.1.1";
                    hostname := Some "192.168.1.1" |})
  /\ validateUrl (Mocks.tableURL
                    [("http://[2001:db8::1]/",
                      {| protocol := "http:"; url_hostname := "[2001:db8::1]" |})])
       "http://[2001:db8::1]/" Mocks.mockDns_nxdomain
     = Normal (if blocked (isBlockedIPv6 (slice_1_m1 "[2001:db8::1]"))
               then invalid (reason (isBlockedIPv6 (slice_1_m1 "[2001:db8::1]")))
               else {| valid := true; error := None;
                       resolvedIp := Some (slice_1_m1 "[2001:db8::1]");
                       hostname := Some "[2001:db8::1]" |}).
Proof.
  split.
  - apply (proj1 (validateUrl_literals_skip_resolution _ "http://192.168.1.1"
                    {| protocol := "http:"; url_hostname := "192.168.1.1" |}
                    Mocks.mockDns_nxdomain eq_refl eq_refl)).
    reflexivity.
  - apply (proj2 (validateUrl_literals_skip_resolution _ "http://[2001:db8::1]/"
                    {| protocol := "http:"; url_hostname := "[2001:db8::1]" |}
                    Mocks.mockDns_nxdomain eq_refl eq_refl));
      reflexivity.
Defined.

(** The loop does not look at entries of a family other than 4 and 6. *)
Lemma checkAddresses_filter (addresses : list LookupAddress) :
  forall first,
    checkAddresses addresses first
    = checkAddresses (filter tagged addresses) first.
Proof.
  induction addresses as [|addr more IH]; intro first; [reflexivity|].
  cbn [filter]. unfold tagged at 1. cbn [checkAddresses].
  destruct (family addr =? 4) eqn:F4; cbn [orb].
  - cbn [checkAddresses]. rewrite F4.
    destruct (blocked (isBlockedIPv4 (address addr))); [reflexivity | apply IH].
  - destruct (family addr =? 6) eqn:F6.
    + cbn [checkAddresses]. rewrite F4, F6.
      destruct (blocked (isBlockedIPv6 (address addr))); [reflexivity | apply IH].
    + apply IH.
Qed.

Lemma classifiedBlocked_tagged (addr : LookupAddress) :
  tagged addr = false -> classifiedBlocked addr = false.
Proof.
  unfold tagged, classifiedBlocked. intro H.
  apply orb_false_iff in H as [-> ->]. reflexivity.
Qed.

(** The value of [firstNonBlockedIp] at the end of the loop when no entry
    is blocked. *)
Lemma checkAddresses_pinned (addresses : list LookupAddress) :
  existsb classifiedBlocked addresses = false ->
  forall first,
    checkAddresses addresses first
    = inr (if falsy first
           then match find usable addresses with
                | Some addr => Some (address addr)
                | None => if existsb tagged addresses then Some EmptyString
                          else first
                end
           else first).
Proof.
  induction addresses as [|addr more IH]; intros Hb first.
  - cbn. destruct (falsy first); reflexivity.
  - cbn [existsb] in Hb. apply orb_false_iff in Hb as [Hb Hmore].
    specialize (IH Hmore).
    assert (tagged addr = true ->
            checkAddresses (addr :: more) first
            = checkAddresses more
                (if falsy first then Some (address addr) else first)) as Hstep.
    { unfold tagged. unfold classifiedBlocked in Hb. cbn [checkAddresses].
      destruct (family addr =? 4); [now rewrite Hb|].
      destruct (family addr =? 6); [now rewrite Hb | discriminate]. }
    cbn [find existsb]. unfold usable at 1.
    destruct (tagged addr) eqn:Ht; cbn [andb orb].
    + rewrite (Hstep eq_refl), IH.
      destruct (falsy first) eqn:Hf; [|now rewrite Hf].
      cbn [falsy].
      destruct (String.eqb_spec (address addr) EmptyString) as [E|E];
        cbn [negb]; [|reflexivity].
      rewrite E. destruct (find usable more); [reflexivity|].
      destruct (existsb tagged more); reflexivity.
    + rewrite checkAddresses_filter. cbn [filter]. rewrite Ht.
      rewrite <- checkAddresses_filter. apply IH.
Qed.

Section Answers.

Variable newURL : string -> completion URL.

(** X2. What [validateUrl] makes of a lookup answer for a hostname URL.
    An empty answer is refused.  When no entry is blocked, the URL is
    accepted and [resolvedIp] is the address of the first entry of family 4
    or 6 with a non-empty address; entries of any other family are never
    examined, so an answer made only of such entries is accepted with
    nothing to pin. *)
Theorem validateUrl_pins_first_address
  (urlString : string) (parsed : URL) (dnsResolver : DnsResolver)
  (addresses : list LookupAddress) :
  newURL urlString = Normal parsed ->
  isHostnameUrl parsed = true ->
  dnsResolver (toLowerCase (url_hostname parsed)) = Normal addresses ->
  (addresses = [] ->
   validateUrl newURL urlString dnsResolver
   = Normal (invalid (Some "DNS resolution returned no addresses")))
  /\ (addresses <> [] ->
      existsb classifiedBlocked addresses = false ->
      validateUrl newURL urlString dnsResolver
      = Normal {| valid := true; error := None;
                  resolvedIp := pinned addresses;
                  hostname := Some (toLowerCase (url_hostname parsed)) |})
  /\ (addresses <> [] ->
      existsb tagged addresses = false ->
      validateUrl newURL urlString dnsResolver
      = Normal {| valid := true; error := None;
                  resolvedIp := None;
                  hostname := Some (toLowerCase (url_hostname parsed)) |}).
Proof.
  intros Hparse Hhost Hdns.
  rewrite (validateUrl_resolves _ _ _ _ Hparse Hhost). cbv zeta. rewrite Hdns.
  assert (addresses <> [] ->
          existsb classifiedBlocked addresses = false ->
          match addresses with
          | [] => Normal (invalid (Some "DNS resolution returned no addresses"))
          | _ :: _ =>
              match checkAddresses addresses None with
              | inl result => Normal result
              | inr firstNonBlockedIp =>
                  Normal {| valid := true; error := None;
                            resolvedIp := firstNonBlockedIp;
                            hostname := Some (toLowerCase (url_hostname parsed)) |}
              end
          end
          = Normal {| valid := true; error := None;
                      resolvedIp := pinned addresses;
                      hostname := Some (toLowerCase (url_hostname parsed)) |})
    as Hclear.
  { intros Hne Hb. destruct addresses as [|a l]; [congruence|].
    rewrite (checkAddresses_pinned _ Hb). reflexivity. }
  split; [|split].
  - intros ->. reflexivity.
  - exact Hclear.
  - intros Hne Ht. rewrite Hclear; [|assumption|].
    + unfold pinned. rewrite Ht.
      assert (find usable addresses = None) as ->; [|reflexivity].
      destruct (find usable addresses) as [a|] eqn:Hf; [|reflexivity].
      apply find_some in Hf as [Hin Hu]. unfold usable in Hu.
      apply andb_true_iff in Hu as [Hu _].
      assert (existsb tagged addresses = true)
        by (apply existsb_exists; eauto). congruence.
    + destruct (existsb classifiedBlocked addresses) eqn:Hb; [|reflexivity].
      apply existsb_exists in Hb as (a & Hin & Ha).
      assert (tagged a = false) as Hta.
      { destruct (tagged a) eqn:E; [|reflexivity].
        assert (existsb tagged addresses = true)
          by (apply existsb_exists; eauto). congruence. }
      rewrite (classifiedBlocked_tagged _ Hta) in Ha. discriminate.
Qed.

End Answers.

Lemma validateUrl_pins_first_address_witness :
  validateUrl (Mocks.tableURL Mocks.knownURLs) "https://example.com"
    (Mocks.createMockDns
       [("example.com",
         [{| address := "example.invalid"; family := 0 |};
          {| address := "2001:db8::1"; family := 6 |};
          {| address := "93.184.216.34"; family := 4 |}])])
  = Normal {| valid := true; error := None;
              resolvedIp :=
                pinned [{| address := "example.invalid"; family := 0 |};
                        {| address := "2001:db8::1"; family := 6 |};
                        {| address := "93.184.216.34"; family := 4 |}];
              hostname := Some "example.com" |}.
Proof.
  refine (proj1 (proj2 (validateUrl_pins_first_address
                          (Mocks.tableURL Mocks.knownURLs) "https://example.com"
                          {| protocol := "https:"; url_hostname := "example.com" |}
                          _ _ eq_refl eq_refl eq_refl)) _ _).
  - discriminate.
  - reflexivity.
Defined.

(** X3. [isBlockedIPv6] compares the text of an address, it does not
    normalise it: every text that starts with the group [0] is classified
    as not blocked, whatever follows.  The full forms of the loopback
    address and of the IPv4-mapped addresses are among them. *)
Theorem isBlockedIPv6_leading_zero_group (tail : string) :
  isBlockedIPv6 ("0:" ++ tail) = notBlocked.
Proof.
  unfold isBlockedIPv6. cbv zeta.
  change (toLowerCase ("0:" ++ tail)) with ("0:" ++ toLowerCase tail).
  set (t := toLowerCase tail).
  change (String.eqb ("0:" ++ t) "::1") with false. cbn [orElse].
  change (hd EmptyString (split ":" ("0:" ++ t))) with "0".
  change (parseInt16 "0") with (Int 0).
  change (startsWith "fc" ("0:" ++ t)) with false.
  change (startsWith "fd" ("0:" ++ t)) with false.
  change (matchMappedDotted ("0:" ++ t)) with (@None string).
  change (matchMappedHex ("0:" ++ t)) with (@None (string * string)).
  reflexivity.
Qed.

(** X4. A classification carries a reason exactly when it blocks, for both
    classifiers: the messages built from [reason] never show a missing
    one. *)
Theorem block_reason_iff_blocked (ip : string) :
  (blocked (isBlockedIPv4 ip) = true ->
   exists why, reason (isBlockedIPv4 ip) = Some why)
  /\ (blocked (isBlockedIPv4 ip) = false -> isBlockedIPv4 ip = notBlocked)
  /\ (blocked (isBlockedIPv6 ip) = true ->
      exists why, reason (isBlockedIPv6 ip) = Some why)
  /\ (blocked (isBlockedIPv6 ip) = false -> isBlockedIPv6 ip = notBlocked).
Proof.
  split; [apply blocked_has_reason_v4|].
  split; [|split; [apply blocked_has_reason_v6|]].
  - unfold isBlockedIPv4.
    destruct (matchIPv4 ip) as [[[[a b] c] d]|]; [|reflexivity].
    repeat match goal with
           | |- context [if ?t then _ else _] => destruct t; [discriminate|]
           end.
    reflexivity.
  - unfold isBlockedIPv6. cbv zeta.
    repeat match goal with
           | |- blocked (orElse ?e _) = false -> _ =>
               let E := fresh "E" in
               destruct e as [r|] eqn:E;
               [ cbn [orElse]; intro Hr; exfalso;
                 repeat match type of E with
                        | context [if ?t then _ else _] => destruct t
                        | context [match ?m with Some _ => _ | None => _ end] =>
                            destruct m
                        | context [let '(_, _) := ?m in _] => destruct m
                        end;
                 try discriminate E; inversion E; subst; discriminate Hr
               | clear E; cbn [orElse] ]
           end.
    reflexivity.
Qed.

Lemma block_reason_iff_blocked_witness :
  (exists why, reason (isBlockedIPv4 "10.1.2.3") = Some why)
  /\ isBlockedIPv6 "2001:db8::1" = notBlocked.
Proof.
  split.
  - apply (proj1 (block_reason_iff_blocked "10.1.2.3")). reflexivity.
  - apply (proj2 (proj2 (proj2 (block_reason_iff_blocked "2001:db8::1")))).
    reflexivity.
Defined.

End UrlMore.

(** ** The output-path validator and the working directory, on POSIX *)

Module PathMore.
Import JS NodePath Path Spec Notions JSFacts RelativeFacts.

(** X5. On a POSIX platform, where Node's [path] is [path.posix] and the
    working directory starts with a slash: whatever custom path the
    validator accepts, the path it returns is inside one of the allowed
    directories, both taken in resolved form.  Nothing is stated for
    Windows, where [path] is [path.win32] and paths have drives. *)
Theorem validateOutputPath_accepted_is_inside
  (cwd p defaultName : string) (config : PathConfig) (fileSystem : FileSystem) :
  absolute cwd = true ->
  blank (Some p) = false ->
  valid (validateOutputPath cwd (Some p) defaultName config fileSystem) = true ->
  exists real dir,
    validateOutputPath cwd (Some p) defaultName config fileSystem
    = {| valid := true; path := Some real; error := None |}
    /\ In dir (allowedOutputDirs config)
    /\ within (resolve cwd [realAllowedDir cwd fileSystem dir])
              (resolve cwd [real]) = true.
Proof.
  intros Hcwd Hb Hv.
  exact (validateOutputPath_accepts_inside cwd Hcwd p defaultName config
           fileSystem Hb Hv).
Qed.

Lemma validateOutputPath_accepted_is_inside_witness :
  exists real dir,
    validateOutputPath "/" (Some "/home/user/Downloads/shot.png") "default.png"
      Mocks.TEST_CONFIG (Mocks.buildMockFs [])
    = {| valid := true; path := Some real; error := None |}
    /\ In dir (allowedOutputDirs Mocks.TEST_CONFIG)
    /\ within (resolve "/" [realAllowedDir "/" (Mocks.buildMockFs []) dir])
              (resolve "/" [real]) = true.
Proof.
  apply (validateOutputPath_accepted_is_inside "/"
           "/home/user/Downloads/shot.png" "default.png"
           Mocks.TEST_CONFIG (Mocks.buildMockFs []));
    reflexivity.
Defined.

Lemma resolve_one_absolute (cwd1 cwd2 p : string) :
  absolute p = true -> resolve cwd1 [p] = resolve cwd2 [p].
Proof.
  unfold absolute, resolve. intro H. cbn [rev app resolveLoop].
  destruct p as [|c p]; [discriminate|]. cbn [String.eqb].
  now rewrite H.
Qed.

Lemma resolve_one_is_absolute (cwd p : string) :
  absolute p = true -> absolute (resolve cwd [p]) = true.
Proof.
  unfold absolute, resolve. intro H. cbn [rev app resolveLoop].
  destruct p as [|c p]; [discriminate|]. cbn [String.eqb].
  rewrite H. reflexivity.
Qed.

Lemma resolve_two_absolute (cwd1 cwd2 base p : string) :
  absolute base = true -> resolve cwd1 [base; p] = resolve cwd2 [base; p].
Proof.
  unfold absolute, resolve. intro H. cbn [rev app resolveLoop].
  destruct base as [|c base]; [discriminate|].
  destruct (String.eqb p EmptyString); cbn [resolveLoop String.eqb].
  - now rewrite H.
  - destruct (startsWith "/" p); [reflexivity|]. now rewrite H.
Qed.

Lemma relative_absolute (cwd1 cwd2 from to : string) :
  absolute from = true -> absolute to = true ->
  relative cwd1 from to = relative cwd2 from to.
Proof.
  intros Hf Ht. unfold relative.
  now rewrite (resolve_one_absolute cwd1 cwd2 from Hf),
    (resolve_one_absolute cwd1 cwd2 to Ht).
Qed.

Lemma normalize_absolute (p : string) :
  absolute p = true -> absolute (normalize p) = true.
Proof.
  unfold absolute, normalize. intro H.
  destruct p as [|c p]; [discriminate|]. cbn [String.eqb]. rewrite H.
  destruct (String.eqb _ EmptyString); [reflexivity|].
  destruct (endsWith "/" (String c p)); reflexivity.
Qed.

Lemma join_absolute (first second : string) :
  absolute first = true -> absolute (join [first; second]) = true.
Proof.
  unfold join. intro H. cbn [filter].
  destruct first as [|c first]; [discriminate|]. cbn [String.eqb negb].
  destruct (negb (String.eqb second EmptyString)).
  - apply normalize_absolute. exact H.
  - apply normalize_absolute. exact H.
Qed.

Section WorkingDirectory.

Variables cwd1 cwd2 : string.
Variable config : PathConfig.
Variable fileSystem : FileSystem.

Hypothesis default_absolute : absolute (defaultOutDir config) = true.
Hypothesis allowed_absolute :
  forallb absolute (allowedOutputDirs config) = true.
Hypothesis real_absolute :
  forall p real, fileSystem p = Normal real -> absolute real = true.

Lemma realAllowedDir_cwd (dir : string) :
  absolute dir = true ->
  realAllowedDir cwd1 fileSystem dir = realAllowedDir cwd2 fileSystem dir
  /\ absolute (realAllowedDir cwd1 fileSystem dir) = true.
Proof.
  intro Hd. unfold realAllowedDir.
  destruct (fileSystem dir) as [real|e] eqn:E.
  - split; [reflexivity | eapply real_absolute; eassumption].
  - split; [now apply resolve_one_absolute | now apply resolve_one_is_absolute].
Qed.

Lemma checkAllowedDirs_cwd (realPath : string) (dirs : list string) :
  absolute realPath = true -> forallb absolute dirs = true ->
  checkAllowedDirs cwd1 fileSystem realPath dirs
  = checkAllowedDirs cwd2 fileSystem realPath dirs.
Proof.
  intros Hr. induction dirs as [|dir more IH]; intro Hd; [reflexivity|].
  cbn [forallb] in Hd. apply andb_true_iff in Hd as [Hdir Hmore].
  cbn [checkAllowedDirs].
  destruct (realAllowedDir_cwd dir Hdir) as [E Ha].
  rewrite <- E, (relative_absolute cwd1 cwd2 _ _ Ha Hr), (IH Hmore).
  reflexivity.
Qed.

(** X6. On a POSIX platform, where Node's [path] is [path.posix]:
    relative custom paths are taken from the default directory, never from
    the working directory of the process.  When the default directory and
    the allowed directories start with a slash and real paths do, the
    validator gives the same result in every working directory.  Nothing
    is stated for Windows, where [path.win32.resolve] takes the drive of a
    rooted path from the working directory. *)
Theorem validateOutputPath_ignores_cwd
  (customPath : option string) (defaultName : string) :
  validateOutputPath cwd1 customPath defaultName config fileSystem
  = validateOutputPath cwd2 customPath defaultName config fileSystem.
Proof.
  unfold validateOutputPath.
  destruct (noCustomPath customPath); [reflexivity|].
  destruct (_ || _); [reflexivity|]. cbv zeta.
  set (p := template customPath).
  assert ((if startsWith "/" p then resolve cwd1 [p]
           else resolve cwd1 [defaultOutDir config; p])
          = (if startsWith "/" p then resolve cwd2 [p]
             else resolve cwd2 [defaultOutDir config; p])) as ->.
  { destruct (startsWith "/" p) eqn:Hp.
    - now apply resolve_one_absolute.
    - now apply resolve_two_absolute. }
  set (target := if startsWith "/" p then _ else _).
  destruct (fileSystem target) as [real|e] eqn:E1.
  - rewrite (checkAllowedDirs_cwd real _ (real_absolute _ _ E1) allowed_absolute).
    reflexivity.
  - destruct (fileSystem (dirname target)) as [realParent|e'] eqn:E2;
      [|reflexivity].
    rewrite (checkAllowedDirs_cwd _ _
               (join_absolute _ _ (real_absolute _ _ E2)) allowed_absolute).
    reflexivity.
Qed.

End WorkingDirectory.

Lemma absolute_mockFs (p real : string) :
  Mocks.buildMockFs [] p = Normal real -> absolute real = true.
Proof.
  unfold Mocks.buildMockFs, Mocks.createMockFs. cbn [app Mocks.mapGet].
  repeat match goal with
         | |- context [String.eqb ?k p] =>
             destruct (String.eqb k p); [intro H; inversion H; reflexivity|]
         end.
  discriminate.
Qed.

Lemma validateOutputPath_ignores_cwd_witness :
  validateOutputPath "/srv/app" (Some "sub/shot.png") "default.png"
    Mocks.TEST_CONFIG (Mocks.buildMockFs [])
  = validateOutputPath "/" (Some "sub/shot.png") "default.png"
      Mocks.TEST_CONFIG (Mocks.buildMockFs []).
Proof.
  apply (validateOutputPath_ignores_cwd "/srv/app" "/" Mocks.TEST_CONFIG
           (Mocks.buildMockFs []) eq_refl eq_refl absolute_mockFs).
Defined.

End PathMore.

(** ** The semaphore: accounting, queue and releases *)

Module SemaphoreMore.
Import Semaphore SemaphoreFacts.
Local Open Scope list_scope.

Section Gate.

Variable W : Type.

(** X7. In a run in which every [release()] is made while a unit is
    outstanding, after any number of calls the permits and the outstanding
    units add up to the capacity, and a [tryAcquire()] made then is granted
    exactly when fewer units than the capacity are outstanding. *)
Theorem gate_accounting (capacity : Z) (calls : list (call W)) (k : nat) :
  0 <= capacity ->
  paired calls 0 (create capacity) = true ->
  let (history, s) := run (firstn k calls) (create capacity) in
  available s + outstanding history = capacity
  /\ (fst (tryAcquire s) = true <-> outstanding history < capacity).
Proof.
  intros Hcap Hp.
  pose proof (run_balanced W capacity calls 0 (create capacity) k [] []) as H.
  assert (@balanced W capacity 0 (create capacity)) as Hb.
  { unfold balanced, create. cbn. repeat split; try lia. congruence. }
  specialize (H Hb eq_refl Hp).
  destruct (run (firstn k calls) (create capacity)) as [history s].
  destruct H as [(Hsum & Hperm & Hheld & Hwait) _].
  unfold available, tryAcquire. split; [lia|].
  destruct (Z.ltb_spec 0 (permits s)); cbn [fst]; split; intro; try lia;
    try reflexivity; discriminate.
Qed.

Lemma step_queue (c : call W) (s : Semaphore W) :
  let (e, s') := step c s in
  waiting s ++ suspendedOrder [e] = resumedOrder [e] ++ waiting s'.
Proof.
  destruct c as [w| |]; cbn [step].
  - unfold acquire. destruct (0 <? permits s); cbn; now rewrite ?app_nil_r.
  - unfold tryAcquire. destruct (0 <? permits s); cbn; now rewrite ?app_nil_r.
  - unfold release. destruct (waiting s) as [|next rest]; cbn;
      now rewrite ?app_nil_r.
Qed.

Lemma suspendedOrder_cons (e : event W) (h : list (event W)) :
  suspendedOrder (e :: h) = suspendedOrder [e] ++ suspendedOrder h.
Proof. destruct e; reflexivity. Qed.

Lemma resumedOrder_cons (e : event W) (h : list (event W)) :
  resumedOrder (e :: h) = resumedOrder [e] ++ resumedOrder h.
Proof. destruct e; reflexivity. Qed.

(** X8. The queue is first-in first-out in every run, from every state
    and whatever the calls: the callers waiting at the start followed by
    those suspended since are the callers resumed since followed by those
    still waiting; so [waitingCount] is the count at the start plus the
    suspensions minus the resumptions. *)
Theorem queue_is_fifo (calls : list (call W)) (s : Semaphore W) :
  let (history, s') := run calls s in
  waiting s ++ suspendedOrder history = resumedOrder history ++ waiting s'
  /\ waitingCount s'
     = waitingCount s + Z.of_nat (List.length (suspendedOrder history))
       - Z.of_nat (List.length (resumedOrder history)).
Proof.
  assert (let (history, s') := run calls s in
          waiting s ++ suspendedOrder history
          = resumedOrder history ++ waiting s') as H.
  { revert s. induction calls as [|c more IH]; intro s.
    - cbn. now rewrite app_nil_r.
    - cbn [run]. pose proof (step_queue c s) as Hs.
      destruct (step c s) as [e s1]. specialize (IH s1).
      destruct (run more s1) as [h s2].
      rewrite suspendedOrder_cons, resumedOrder_cons.
      rewrite app_assoc, Hs, <- app_assoc, IH, app_assoc. reflexivity. }
  destruct (run calls s) as [history s']. split; [exact H|].
  apply (f_equal (@List.length W)) in H. rewrite !length_app in H.
  unfold waitingCount. lia.
Qed.

Lemma releases_run (n : nat) (s : Semaphore W) :
  let (history, s') := run (repeat CallRelease n) s in
  resumedOrder history = firstn n (waiting s)
  /\ waiting s' = skipn n (waiting s)
  /\ permits s' = permits s + Z.of_nat (n - List.length (waiting s)).
Proof.
  revert s. induction n as [|n IH]; intro s.
  - cbn. repeat split. lia.
  - cbn [repeat run step]. unfold release.
    destruct (waiting s) as [|next rest] eqn:Hw.
    + specialize (IH {| permits := permits s + 1; waiting := [] |}).
      destruct (run (repeat CallRelease n) _) as [h s2].
      destruct IH as (Hr & Hq & Hp). cbn [waiting permits] in *.
      cbn [resumedOrder firstn skipn List.length].
      rewrite firstn_nil in Hr. rewrite skipn_nil in Hq.
      repeat split; try assumption. rewrite Hp. cbn [List.length]. lia.
    + specialize (IH {| permits := permits s; waiting := rest |}).
      destruct (run (repeat CallRelease n) _) as [h s2].
      destruct IH as (Hr & Hq & Hp). cbn [waiting permits] in *.
      cbn [resumedOrder firstn skipn List.length].
      repeat split; try assumption. now rewrite Hr.
Qed.

(** X9. [n] calls of [release()] in a row resume the first [n] waiting
    callers in their order and leave the others waiting; each release
    beyond the length of the queue adds one permit, also past the initial
    capacity: [release()] does not compare the counter with it.  This is
    stated for counters that stay among the integers a double holds
    exactly (from [-2^53] to [2^53]), where [permits++] adds one. *)
Theorem releases_drain_then_count (n : nat) (s : Semaphore W) :
  - 2 ^ 53 <= permits s ->
  permits s + Z.of_nat (n - List.length (waiting s)) <= 2 ^ 53 ->
  let (history, s') := run (repeat CallRelease n) s in
  resumedOrder history = firstn n (waiting s)
  /\ waiting s' = skipn n (waiting s)
  /\ permits s' = permits s + Z.of_nat (n - List.length (waiting s))
  /\ - 2 ^ 53 <= permits s' <= 2 ^ 53.
Proof.
  intros Hlow Hhigh. pose proof (releases_run n s) as H.
  destruct (run (repeat CallRelease n) s) as [history s'].
  destruct H as (Hr & Hq & Hp). repeat split; try assumption; lia.
Qed.

End Gate.

Lemma releases_drain_then_count_witness :
  let (history, s') :=
    run (repeat CallRelease 5)
      {| permits := 3; waiting := [1%nat; 2%nat] |} in
  resumedOrder history = [1%nat; 2%nat]
  /\ waiting s' = []
  /\ permits s' = 6
  /\ - 2 ^ 53 <= permits s' <= 2 ^ 53.
Proof.
  apply (releases_drain_then_count nat 5
           {| permits := 3; waiting := [1%nat; 2%nat] |}).
  - cbn. lia.
  - cbn. lia.
Defined.

Lemma gate_accounting_witness :
  let (history, s) :=
    run (firstn 4 [CallTryAcquire; CallTryAcquire; CallRelease;
                   CallAcquire 1%nat; CallRelease])
        (create 3) in
  available s + outstanding history = 3
  /\ (fst (tryAcquire s) = true <-> outstanding history < 3).
Proof.
  apply (gate_accounting nat 3
           [CallTryAcquire; CallTryAcquire; CallRelease;
            CallAcquire 1%nat; CallRelease] 4).
  - lia.
  - reflexivity.
Defined.

End SemaphoreMore.

(** ** Time stamps and escaping *)

Module TextFacts.
Import JS JSText Helpers WindowsProvider Quoting JSFacts.

Lemma replaceAll_app (cls : ascii -> bool) (rep a b : string) :
  replaceAll cls rep (a ++ b) = replaceAll cls rep a ++ replaceAll cls rep b.
Proof.
  induction a as [|c a IH]; [reflexivity|].
  cbn [append replaceAll]. now rewrite IH, append_assoc.
Qed.

Lemma replaceAll_clean (cls : ascii -> bool) (rep s : string) :
  allChars (fun c => negb (cls c)) rep = true ->
  allChars (fun c => negb (cls c)) (replaceAll cls rep s) = true.
Proof.
  intro Hrep. induction s as [|c s IH]; [reflexivity|].
  cbn [replaceAll]. rewrite allChars_app, IH, andb_true_r.
  destruct (cls c) eqn:Hc; [assumption|]. cbn. now rewrite Hc.
Qed.

(** X10. A time stamp holds neither a colon nor a dot, has the length of
    the ISO string it is made from, and differs from it only where that
    one has a colon or a dot. *)
Theorem timestamp_file_name_safe (isoNow : string) :
  allChars (fun c => negb (Ascii.eqb c ":" || Ascii.eqb c ".")) (timestamp isoNow)
  = true
  /\ String.length (timestamp isoNow) = String.length isoNow
  /\ (forall n c,
        String.get n isoNow = Some c ->
        String.get n (timestamp isoNow)
        = Some (if Ascii.eqb c ":" || Ascii.eqb c "." then "-"%char else c)).
Proof.
  unfold timestamp. split; [|split].
  - now apply replaceAll_clean.
  - induction isoNow as [|c s IH]; [reflexivity|].
    cbn [replaceAll]. destruct (_ || _); cbn; now rewrite IH.
  - induction isoNow as [|x s IH]; intros n c H; [discriminate|].
    cbn [replaceAll]. destruct n as [|n].
    + cbn in H. inversion H; subst. destruct (_ || _); reflexivity.
    + cbn in H. specialize (IH _ _ H).
      destruct (Ascii.eqb x ":" || Ascii.eqb x "."); cbn; exact IH.
Qed.

Lemma timestamp_file_name_safe_witness :
  String.get 13 (timestamp "2024-01-01T00:00:00.000Z") = Some "-"%char.
Proof.
  apply (proj2 (proj2 (timestamp_file_name_safe "2024-01-01T00:00:00.000Z"))
           13%nat ":"%char).
  reflexivity.
Defined.

(** X11. [escapePath] writes every apostrophe (U+0027) twice and changes
    nothing else: in its result no apostrophe stands alone, and taking two
    apostrophes for one gives back the path it was given.  This is about
    the character U+0027 in strings of 8-bit code units; other characters,
    among them any other that a shell reads as a quote, are left as they
    are and nothing is stated about how a shell reads them. *)
Theorem escapePath_round_trip (p : string) :
  unquote (escapePath p) = Some p.
Proof.
  unfold escapePath. induction p as [|c p IH]; [reflexivity|].
  cbn [replaceAll]. unfold isApostrophe at 1.
  set (rest := replaceAll isApostrophe twoApostrophes p) in *.
  destruct (Ascii.eqb_spec c apostrophe) as [->|Hc].
  - change (twoApostrophes ++ rest)
      with (String apostrophe (String apostrophe rest)).
    cbn [unquote]. now rewrite Ascii.eqb_refl, IH.
  - cbn [append unquote]. destruct (Ascii.eqb_spec c apostrophe); [congruence|].
    now rewrite IH.
Qed.

Lemma escapeString_cons (c : ascii) (s : string) :
  escapeString (String c s)
  = (if isApostrophe c then twoApostrophes
     else if interpolates c then EmptyString else String c EmptyString)
    ++ escapeString s.
Proof.
  unfold escapeString. cbn [replaceAll]. rewrite replaceAll_app.
  destruct (isApostrophe c) eqn:Ha; [reflexivity|].
  cbn [replaceAll append]. destruct (interpolates c); reflexivity.
Qed.

(** X12. [escapeString] leaves no grave accent, dollar or double quote in
    its result; read back as the body of a literal between apostrophes, the
    result denotes the given string without those three characters. *)
Theorem escapeString_neutralises (s : string) :
  allChars (fun c => negb (interpolates c)) (escapeString s) = true
  /\ unquote (escapeString s) = Some (replaceAll interpolates EmptyString s).
Proof.
  split.
  - unfold escapeString. now apply replaceAll_clean.
  - induction s as [|c s IH]; [reflexivity|].
    rewrite escapeString_cons. cbn [replaceAll]. unfold isApostrophe.
    set (rest := escapeString s) in *.
    destruct (Ascii.eqb_spec c apostrophe) as [->|Hc].
    + change (twoApostrophes ++ rest)
        with (String apostrophe (String apostrophe rest)).
      cbn [unquote]. rewrite Ascii.eqb_refl, IH. reflexivity.
    + destruct (interpolates c); cbn [append]; [exact IH|].
      cbn [unquote]. destruct (Ascii.eqb_spec c apostrophe); [congruence|].
      now rewrite IH.
Qed.

End TextFacts.

(** ** The macOS window lookup *)

Module MacOSFacts.
Import JS JSText MacOS Quoting JSFacts.

Lemma rev_string_app (s : string) :
  forall acc, rev_string acc s = reverse s ++ acc.
Proof.
  unfold reverse. induction s as [|c s IH]; intro acc; [reflexivity|].
  cbn [rev_string]. rewrite (IH (String c acc)), (IH (String c EmptyString)).
  now rewrite append_assoc.
Qed.

Lemma reverse_cons (c : ascii) (s : string) :
  reverse (String c s) = reverse s ++ String c EmptyString.
Proof. unfold reverse at 1. cbn [rev_string]. apply rev_string_app. Qed.

Lemma reverse_app (a b : string) : reverse (a ++ b) = reverse b ++ reverse a.
Proof.
  induction a as [|c a IH]; cbn [append].
  - now rewrite append_nil_r_string.
  - now rewrite !reverse_cons, IH, append_assoc.
Qed.

Lemma reverse_involutive (s : string) : reverse (reverse s) = s.
Proof.
  induction s as [|c s IH]; [reflexivity|].
  now rewrite reverse_cons, reverse_app, IH.
Qed.

Lemma dropWhile_app (f : ascii -> bool) (w : string) (c : ascii) (r : string) :
  allChars f w = true -> f c = false ->
  dropWhile f (w ++ String c r) = String c r.
Proof.
  intros Hw Hc. induction w as [|x w IH]; cbn [append dropWhile].
  - now rewrite Hc.
  - cbn in Hw. apply andb_true_iff in Hw as [Hx Hw]. rewrite Hx. now apply IH.
Qed.

(** [trim] removes the white space that follows a text without any. *)
Lemma trim_trailing (s trail : string) :
  allChars (fun c => negb (isWhiteSpace c)) s = true ->
  s <> EmptyString ->
  allChars isWhiteSpace trail = true ->
  trim (s ++ trail) = s.
Proof.
  intros Hs Hne Ht. unfold trim.
  assert (forall t, dropWhile isWhiteSpace (s ++ t) = s ++ t) as Hhead.
  { intro t. destruct s as [|c s]; [congruence|]. cbn in Hs.
    apply andb_true_iff in Hs as [Hc _]. apply negb_true_iff in Hc.
    cbn [append dropWhile]. now rewrite Hc. }
  rewrite Hhead, reverse_app.
  assert (exists c r, reverse s = String c r /\ isWhiteSpace c = false)
    as (c & r & Hr & Hc).
  { destruct (reverse s) as [|c r] eqn:E.
    - unfold reverse in E. apply rev_string_empty in E as [E _]. congruence.
    - exists c, r. split; [reflexivity|].
      rewrite <- allChars_reverse, E in Hs. cbn in Hs.
      apply andb_true_iff in Hs as [Hc _]. now apply negb_true_iff. }
  rewrite Hr, dropWhile_app; [|now rewrite allChars_reverse|assumption].
  rewrite <- Hr. apply reverse_involutive.
Qed.

Lemma decPrefix_digits (ds : string) :
  forall acc,
    allChars isDigit ds = true ->
    decPrefix (Some acc) ds = Some (NumberFrom acc ds).
Proof.
  induction ds as [|c ds IH]; intros acc H; [reflexivity|].
  cbn in H. apply andb_true_iff in H as [Hc Hd].
  cbn [decPrefix NumberFrom]. rewrite Hc. now apply IH.
Qed.

Lemma digit_plain (c : ascii) :
  isDigit c = true ->
  isWhiteSpace c = false /\ c <> "-"%char /\ c <> "+"%char.
Proof.
  destruct c as [[] [] [] [] [] [] [] []]; vm_compute; intro H;
    (discriminate H || (repeat split; (reflexivity || discriminate))).
Qed.

(** [parseInt] of a non-empty string of decimal digits that a double holds
    exactly. *)
Lemma parseInt10_digits (ds : string) :
  allChars isDigit ds = true -> ds <> EmptyString -> Number ds < 2 ^ 53 ->
  parseInt10 ds = Int (Number ds).
Proof.
  intros Hall Hne Hv.
  pose proof (Number_nonneg _ Hall) as Hge.
  destruct ds as [|c ds]; [congruence|].
  pose proof Hall as Hall'. cbn in Hall'.
  apply andb_true_iff in Hall' as [Hc Hd].
  destruct (digit_plain _ Hc) as (Hws & Hm & Hp).
  unfold parseInt10. cbn [dropWhile]. rewrite Hws.
  assert (startsWith "-" (String c ds) = false) as ->.
  { cbn [startsWith]. destruct (Ascii.eqb_spec "-" c); [congruence | reflexivity]. }
  assert (startsWith "+" (String c ds) = false) as ->.
  { cbn [startsWith]. destruct (Ascii.eqb_spec "+" c); [congruence | reflexivity]. }
  cbn [orb decPrefix]. rewrite Hc, decPrefix_digits by assumption.
  change (NumberFrom (charCode c - 48) ds) with (Number (String c ds)).
  now rewrite roundToDouble_small by lia.
Qed.

Lemma safeChar_lower (c : ascii) :
  isSafeChar c = true -> isPlainLower (toLowerChar c) = true.
Proof.
  destruct c as [[] [] [] [] [] [] [] []]; vm_compute; intro H;
    (discriminate H || reflexivity).
Qed.

Lemma safeName_lower (s : string) :
  allChars isSafeChar s = true -> allChars isPlainLower (toLowerCase s) = true.
Proof.
  induction s as [|c s IH]; [reflexivity|]. cbn. intro H.
  apply andb_true_iff in H as [Hc Hs]. now rewrite (safeChar_lower _ Hc), IH.
Qed.

Section Lookup.

Variable normalizeNFC : string -> string.

(** What [getWindowId] does with a name that matches the safe pattern. *)
Lemma getWindowId_safe_name (appName : string) (executor : CommandExecutor) :
  SAFE_APP_NAME_PATTERN (normalizeNFC appName) = true ->
  getWindowId normalizeNFC appName executor
  = ([],
     Normal
       match executor "swift"
               ["-e"; swiftProgram (toLowerCase (normalizeNFC appName))] with
       | Throw _ => None
       | Normal stdout =>
           if positive (parseInt10 (trim stdout))
           then Some (parseInt10 (trim stdout)) else None
       end).
Proof.
  intro H. unfold getWindowId. rewrite H. cbn [negb].
  unfold tryCatch, bind. destruct (executor "swift" _); reflexivity.
Qed.

(** X13. [getWindowId] never throws.  A name that does not match the safe
    pattern is refused with [null] and a log line, and nothing is executed:
    the answer is the same for every executor.  For a name that matches,
    the text put between the quotes of the Swift program holds only
    lower-case letters, digits, spaces, hyphens and underscores, and a
    failing executor gives [null]. *)
Theorem getWindowId_guards_the_program
  (appName : string) (executor : CommandExecutor) :
  let normalized := normalizeNFC appName in
  (SAFE_APP_NAME_PATTERN normalized = false ->
   getWindowId normalizeNFC appName executor
   = (["Security: Rejected unsafe app name: " ++ normalized], Normal None))
  /\ (SAFE_APP_NAME_PATTERN normalized = true ->
      allChars isPlainLower (toLowerCase normalized) = true
      /\ getWindowId normalizeNFC appName executor
         = ([],
            Normal
              match executor "swift"
                      ["-e"; swiftProgram (toLowerCase normalized)] with
              | Throw _ => None
              | Normal stdout =>
                  if positive (parseInt10 (trim stdout))
                  then Some (parseInt10 (trim stdout)) else None
              end)).
Proof.
  intro normalized. unfold getWindowId. fold normalized. split; intro H.
  - now rewrite H.
  - rewrite H. cbn [negb]. split.
    + unfold SAFE_APP_NAME_PATTERN in H. apply andb_true_iff in H as [_ H].
      now apply safeName_lower.
    + unfold tryCatch, bind.
      destruct (executor "swift" _); reflexivity.
Qed.

(** X14. When the name is safe and the executor prints a line of decimal
    digits (a number that a double holds exactly), [getWindowId] returns
    that number if it is positive and [null] if it is zero. *)
Theorem getWindowId_reads_the_number
  (appName : string) (executor : CommandExecutor) (digits : string) :
  SAFE_APP_NAME_PATTERN (normalizeNFC appName) = true ->
  executor "swift" ["-e"; swiftProgram (toLowerCase (normalizeNFC appName))]
  = Normal (digits ++ String lineFeed EmptyString) ->
  allChars isDigit digits = true -> digits <> EmptyString ->
  Number digits < 2 ^ 53 ->
  snd (getWindowId normalizeNFC appName executor)
  = Normal (if 0 <? Number digits then Some (Int (Number digits)) else None).
Proof.
  intros Hsafe Hexec Hd Hne Hv.
  rewrite (getWindowId_safe_name appName executor Hsafe). cbn [snd].
  rewrite Hexec.
  assert (trim (digits ++ String lineFeed EmptyString) = digits) as ->.
  { apply trim_trailing; [|assumption|reflexivity].
    revert Hd. apply allChars_weaken. intros c Hc.
    destruct (digit_plain _ Hc) as [-> _]. reflexivity. }
  rewrite parseInt10_digits by assumption. reflexivity.
Qed.

End Lookup.

Lemma getWindowId_guards_the_program_witness :
  getWindowId (fun s => s) "evil;rm -rf /" (createMockExecutor [])
  = (["Security: Rejected unsafe app name: " ++ "evil;rm -rf /"], Normal None)
  /\ allChars isPlainLower (toLowerCase "My-Cool App_Name") = true.
Proof.
  split.
  - apply (proj1 (getWindowId_guards_the_program (fun s => s) "evil;rm -rf /"
                    (createMockExecutor []))).
    reflexivity.
  - apply (proj2 (getWindowId_guards_the_program (fun s => s) "My-Cool App_Name"
                    (createMockExecutor []))).
    reflexivity.
Defined.

Lemma getWindowId_reads_the_number_witness :
  snd (getWindowId (fun s => s) "Safari"
         (createMockExecutor
            [("safari", Normal ("42" ++ String lineFeed EmptyString))]))
  = Normal (if 0 <? Number "42" then Some (Int (Number "42")) else None).
Proof.
  apply (getWindowId_reads_the_number (fun s => s) "Safari"
           (createMockExecutor
              [("safari", Normal ("42" ++ String lineFeed EmptyString))]) "42");
    try reflexivity.
  discriminate.
Defined.

End MacOSFacts.

(** ** The Linux provider *)

Module LinuxFacts.
Import JS JSText Effects Provider LinuxProvider LinuxNotions JSFacts.
Local Open Scope list_scope.

Section Detection.

Variable Num : Type.
Variable platform : string.
Variable execFileAsync : string -> list string -> completion string.

Lemma commandExists_installed (b : LinuxBackend) (s : fields) :
  commandExists (Num := Num) platform execFileAsync (backendName b) s
  = ([lookup Num platform b], Normal (installed platform execFileAsync b), s).
Proof.
  unfold commandExists, mtry, mbind, exec, perform, ret, installed, lookup,
    lookupCommand.
  now destruct (execFileAsync _ _).
Qed.

Lemma probe_find (cmds : list LinuxBackend) (s : fields) :
  probe Num platform execFileAsync cmds s
  = (map (lookup Num platform) (probed platform execFileAsync cmds),
     Normal tt,
     match find (installed platform execFileAsync) cmds with
     | Some b => {| _backend := Some b; _detected := _detected s |}
     | None => s
     end).
Proof.
  induction cmds as [|cmd more IH]; [reflexivity|].
  cbn [probe probed find]. unfold mbind at 1.
  rewrite commandExists_installed.
  destruct (installed platform execFileAsync cmd).
  - reflexivity.
  - rewrite IH. reflexivity.
Qed.

Lemma detectBackend_fresh (s : fields) :
  _detected s = false ->
  detectBackend Num platform execFileAsync s
  = (map (lookup Num platform) (probed platform execFileAsync candidates),
     Normal tt,
     {| _backend :=
          match find (installed platform execFileAsync) candidates with
          | Some b => Some b
          | None => _backend s
          end;
        _detected := true |}).
Proof.
  intro Hd. unfold detectBackend, mbind, get, put. rewrite Hd.
  rewrite probe_find. cbn [app _detected].
  now destruct (find _ candidates).
Qed.

Lemma detectBackend_done (s : fields) :
  _detected s = true ->
  detectBackend Num platform execFileAsync s = ([], Normal tt, s).
Proof. intro Hd. unfold detectBackend, mbind, get. now rewrite Hd. Qed.

Lemma detectBackend_detected (s : fields) :
  _detected (final (detectBackend Num platform execFileAsync s)) = true.
Proof.
  destruct (_detected s) eqn:Hd.
  - now rewrite detectBackend_done.
  - now rewrite detectBackend_fresh.
Qed.

(** X15. A new provider looks the candidates up in the order maim, scrot,
    gnome-screenshot, spectacle, grim, import and stops at the first whose
    look-up succeeds: that one becomes the backend, [isAvailable] answers
    whether there is one, and nothing else is run. *)
Theorem isAvailable_first_installed :
  isAvailable Num platform execFileAsync fresh
  = (map (lookup Num platform) (probed platform execFileAsync candidates),
     Normal (existsb (installed platform execFileAsync) candidates),
     {| _backend := find (installed platform execFileAsync) candidates;
        _detected := true |}).
Proof.
  unfold isAvailable, mbind at 1.
  rewrite detectBackend_fresh by reflexivity.
  unfold mbind, get, ret. cbn [_backend fresh].
  rewrite !app_nil_r.
  assert (forall l, existsb (installed platform execFileAsync) l
                    = match find (installed platform execFileAsync) l with
                      | Some _ => true | None => false end) as Hex.
  { induction l as [|b l IH]; [reflexivity|]. cbn [existsb find].
    now destruct (installed platform execFileAsync b). }
  rewrite Hex. now destruct (find _ candidates).
Qed.

End Detection.

Section Caching.

Variable Num : Type.
Variable platform : string.

Lemma isAvailable_done
  (execFileAsync : string -> list string -> completion string) (s : fields) :
  _detected s = true ->
  isAvailable Num platform execFileAsync s
  = ([],
     Normal (match _backend s with Some _ => true | None => false end),
     s).
Proof.
  intro Hd. unfold isAvailable, mbind.
  rewrite detectBackend_done by assumption. reflexivity.
Qed.

Lemma isAvailable_after
  (execFileAsync : string -> list string -> completion string) (s : fields) :
  let r := isAvailable Num platform execFileAsync s in
  _detected (final r) = true
  /\ outcome r
     = Normal (match _backend (final r) with Some _ => true | None => false end).
Proof.
  cbv zeta. destruct (_detected s) eqn:Hd.
  - rewrite isAvailable_done by assumption. now split.
  - unfold isAvailable, mbind.
    rewrite detectBackend_fresh by assumption. now split.
Qed.

Lemma inTurn_done
  (later : list (string -> list string -> completion string)) (s : fields) :
  _detected s = true ->
  inTurn Num platform later s
  = map (fun _ =>
           ([], Normal (match _backend s with Some _ => true | None => false end)))
      later.
Proof.
  intro Hd. induction later as [|answers more IH]; [reflexivity|].
  cbn [inTurn map]. rewrite isAvailable_done by assumption.
  unfold trace, outcome, final. cbn [fst snd]. now rewrite IH.
Qed.

(** X16. Detection happens once for a provider whose calls are made one
    after the other, each awaited before the next: on a new provider only
    the first call of [isAvailable] looks commands up, and every later call
    runs nothing and gives the answer of the first, whatever the look-ups
    would answer by then.  A call that finds the flag set and no backend,
    as one started while the look-ups of the first are still awaited does,
    runs nothing and answers [false]. *)
Theorem isAvailable_detects_once
  (first : string -> list string -> completion string)
  (later : list (string -> list string -> completion string)) :
  let r := isAvailable Num platform first fresh in
  inTurn Num platform (first :: later) fresh
  = (trace r, outcome r) :: map (fun _ => ([], outcome r)) later
  /\ forall answers,
       isAvailable Num platform answers detecting
       = ([], Normal false, detecting).
Proof.
  cbv zeta. split.
  - cbn [inTurn]. destruct (isAvailable_after first fresh) as [Hd Hr].
    rewrite (inTurn_done later _ Hd). now rewrite Hr.
  - intro answers. now rewrite isAvailable_done.
Qed.

End Caching.


(** *** How the methods compose *)

Section Composition.

Variable Num S : Type.

Notation M := (Effects.M (action Num) S).

Lemma mbind_run {A B : Type} (m : M A) (k : A -> M B) (s : S) :
  mbind m k s
  = match outcome (m s) with
    | Throw e => (trace (m s), Throw e, final (m s))
    | Normal a =>
        (trace (m s) ++ trace (k a (final (m s))),
         outcome (k a (final (m s))),
         final (k a (final (m s))))
    end.
Proof.
  unfold mbind, trace, outcome, final.
  destruct (m s) as [[t1 r] s1]. cbn [fst snd].
  destruct r as [a|e]; [|reflexivity].
  now destruct (k a s1) as [[t2 r2] s2].
Qed.

Lemma mtry_run {A : Type} (m : M A) (h : thrown -> M A) (s : S) :
  mtry m h s
  = match outcome (m s) with
    | Normal a => (trace (m s), Normal a, final (m s))
    | Throw e =>
        (trace (m s) ++ trace (h e (final (m s))),
         outcome (h e (final (m s))),
         final (h e (final (m s))))
    end.
Proof.
  unfold mtry, trace, outcome, final.
  destruct (m s) as [[t1 r] s1]. cbn [fst snd].
  destruct r as [a|e]; [reflexivity|].
  now destruct (h e s1) as [[t2 r2] s2].
Qed.

Lemma onlyFixed_bind {A B : Type} (m : M A) (k : A -> M B) :
  onlyFixed m -> (forall a, onlyFixed (k a)) -> onlyFixed (mbind m k).
Proof.
  intros Hm Hk s. rewrite mbind_run. specialize (Hm s).
  destruct (outcome (m s)) as [a|e]; unfold trace in *; cbn [fst] in *.
  - rewrite forallb_app, Hm. apply Hk.
  - assumption.
Qed.

Lemma onlyFixed_try {A : Type} (m : M A) (h : thrown -> M A) :
  onlyFixed m -> (forall e, onlyFixed (h e)) -> onlyFixed (mtry m h).
Proof.
  intros Hm Hh s. rewrite mtry_run. specialize (Hm s).
  destruct (outcome (m s)) as [a|e]; unfold trace in *; cbn [fst] in *.
  - assumption.
  - rewrite forallb_app, Hm. apply Hh.
Qed.

Lemma onlyFixed_exec execFileAsync (command : string) (args : list string) :
  existsb (String.eqb command) programs = true ->
  onlyFixed (exec (Num := Num) (S := S) execFileAsync command args).
Proof.
  intros H s. unfold exec, perform, trace. cbn [fst forallb fixedProgram].
  now rewrite H.
Qed.

Lemma quiet_bind {A B : Type} (m : M A) (k : A -> M B) :
  quiet m -> (forall a, quiet (k a)) -> quiet (mbind m k).
Proof.
  intros Hm Hk s. rewrite mbind_run.
  destruct (outcome (m s)) as [a|e].
  - change (final (k a (final (m s))) = s). now rewrite Hk, Hm.
  - apply Hm.
Qed.

Lemma quiet_try {A : Type} (m : M A) (h : thrown -> M A) :
  quiet m -> (forall e, quiet (h e)) -> quiet (mtry m h).
Proof.
  intros Hm Hh s. rewrite mtry_run.
  destruct (outcome (m s)) as [a|e].
  - apply Hm.
  - change (final (h e (final (m s))) = s). now rewrite Hh, Hm.
Qed.

Lemma writesLast_app (b : LinuxBackend) (path : string)
  (t0 t : list (action Num)) :
  writesLast b path t -> writesLast b path (t0 ++ t).
Proof.
  intros (before & args & ->). exists (t0 ++ before), args.
  now rewrite app_assoc.
Qed.

Lemma ends_bind {A B : Type} (b : LinuxBackend) (path : string)
  (m : M A) (k : A -> M B) :
  quiet m -> (forall a, ends b path (k a)) -> ends b path (mbind m k).
Proof.
  intros Hm Hk s. rewrite mbind_run.
  destruct (outcome (m s)) as [a|e] eqn:Hr.
  - destruct (Hk a (final (m s))) as [Hq Hw]. rewrite (Hm s) in *.
    unfold final, outcome, trace in *. cbn [fst snd] in *. split; [assumption|].
    intros a' Ha'. apply writesLast_app. now apply (Hw a').
  - split; [apply Hm|]. unfold outcome. cbn [fst snd]. discriminate.
Qed.

Lemma ends_exec {A : Type} execFileAsync (b : LinuxBackend) (path : string)
  (args : list string) (a : A) :
  ends b path
    (mbind (exec (Num := Num) (S := S) execFileAsync (backendName b)
              (args ++ [path]))
       (fun _ => ret a)).
Proof.
  intro s. unfold mbind, exec, perform, ret, final, outcome, trace.
  destruct (execFileAsync _ _) as [out|e]; cbn [fst snd]; split;
    try reflexivity; try discriminate.
  intros _ _. now exists [], args.
Qed.

Lemma ends_exec_last {A : Type} execFileAsync (b : LinuxBackend)
  (path : string) (args : list string) (a : A) :
  removelast args ++ [path] = args ->
  ends b path
    (mbind (exec (Num := Num) (S := S) execFileAsync (backendName b) args)
       (fun _ => ret a)).
Proof. intros <-. apply ends_exec. Qed.

Lemma ends_throw {A : Type} (b : LinuxBackend) (path message : string) :
  ends b path (throw (Act := action Num) (S := S) (A := A) message).
Proof. intro s. split; [reflexivity|]. discriminate. Qed.

End Composition.


(** *** The capture methods *)

Section Capture.

Variable Num : Type.
Variable numTruthy : Num -> bool.
Variable numPositive : Num -> bool.
Variable showNum : Num -> string.
Variable platform : string.
Variable execFileAsync : string -> list string -> completion string.

Local Ltac fixed :=
  repeat first
    [ apply onlyFixed_bind; [|intro]
    | apply onlyFixed_try; [|intro]
    | apply onlyFixed_exec; reflexivity
    | intro; reflexivity ].

Lemma commandExists_fixed (b : LinuxBackend) :
  onlyFixed
    (commandExists (Num := Num) (S := fields) platform execFileAsync
       (backendName b)).
Proof.
  unfold commandExists. destruct (String.eqb platform "win32"); fixed.
Qed.

Lemma probe_fixed (cmds : list LinuxBackend) :
  onlyFixed (probe Num platform execFileAsync cmds).
Proof.
  induction cmds as [|cmd more IH]; [intro; reflexivity|].
  cbn [probe]. apply onlyFixed_bind; [apply commandExists_fixed|].
  intros []; [fixed | exact IH].
Qed.

Lemma detectBackend_fixed : onlyFixed (detectBackend Num platform execFileAsync).
Proof.
  unfold detectBackend. apply onlyFixed_bind; [intro; reflexivity|].
  intro s. destruct (_detected s); [intro; reflexivity|].
  apply onlyFixed_bind; [intro; reflexivity|]. intro. apply probe_fixed.
Qed.

Lemma getBackend_fixed : onlyFixed (getBackend Num platform execFileAsync).
Proof.
  unfold getBackend. apply onlyFixed_bind; [apply detectBackend_fixed|].
  intro. apply onlyFixed_bind; [intro; reflexivity|].
  intro s. destruct (_backend s); intro; reflexivity.
Qed.

Lemma wait_fixed (opts : CaptureOptions Num) :
  onlyFixed (wait Num numTruthy numPositive opts).
Proof. unfold wait. destruct (delayed _ _ _); intro; reflexivity. Qed.

Lemma findXWindowId_fixed (name : string) :
  onlyFixed (findXWindowId Num execFileAsync name).
Proof. unfold findXWindowId. fixed. Qed.

Lemma focusIfKnown_fixed (xWindowId : option string) :
  onlyFixed (focusIfKnown Num execFileAsync xWindowId).
Proof.
  unfold focusIfKnown, focusWindow. destruct (given xWindowId); fixed.
Qed.

(** X17. Whatever the options, the target and the state of the provider,
    the capture methods run only programs of a fixed list: the look-up
    command, xdotool and the six backends.  Text of the caller (window
    name, output path, numbers) reaches them as arguments only. *)
Theorem capture_runs_fixed_programs
  (opts : CaptureOptions Num) (target : WindowTarget Num)
  (region : RegionTarget Num) :
  onlyFixed
    (captureFullscreen Num numTruthy numPositive platform execFileAsync opts)
  /\ onlyFixed
       (captureWindow Num numTruthy numPositive showNum platform execFileAsync
          opts target)
  /\ onlyFixed
       (captureRegion Num numTruthy numPositive showNum platform execFileAsync
          opts region).
Proof.
  repeat split.
  - unfold captureFullscreen.
    apply onlyFixed_bind; [apply getBackend_fixed|]. intro backend.
    apply onlyFixed_bind; [apply wait_fixed|]. intro.
    destruct backend; fixed.
  - unfold captureWindow.
    apply onlyFixed_bind; [apply getBackend_fixed|]. intro backend.
    apply onlyFixed_bind; [apply wait_fixed|]. intro.
    apply onlyFixed_bind.
    + destruct (hasWindowName target && negb (hasWindowId numTruthy target));
        [apply findXWindowId_fixed|].
      destruct (hasWindowId numTruthy target); intro; reflexivity.
    + intro xWindowId.
      destruct backend;
        try (apply onlyFixed_bind; [apply focusIfKnown_fixed|intro]);
        try destruct (given xWindowId); fixed.
  - unfold captureRegion.
    apply onlyFixed_bind; [apply getBackend_fixed|]. intro backend.
    apply onlyFixed_bind; [apply wait_fixed|]. intro.
    destruct backend; fixed.
Qed.

Local Ltac still :=
  repeat first
    [ apply quiet_bind; [|intro]
    | apply quiet_try; [|intro]
    | intro; reflexivity ].

Lemma wait_quiet (opts : CaptureOptions Num) :
  quiet (wait Num numTruthy numPositive opts).
Proof. unfold wait. destruct (delayed _ _ _); intro; reflexivity. Qed.

Lemma findXWindowId_quiet (name : string) :
  quiet (findXWindowId Num execFileAsync name).
Proof. unfold findXWindowId. still. Qed.

Lemma focusIfKnown_quiet (xWindowId : option string) :
  quiet (focusIfKnown Num execFileAsync xWindowId).
Proof.
  unfold focusIfKnown, focusWindow. destruct (given xWindowId); still.
Qed.

(** [getBackend] gives the backend it leaves in the fields. *)
Lemma getBackend_gives (s : fields) (b : LinuxBackend) :
  outcome (getBackend Num platform execFileAsync s) = Normal b ->
  _backend (final (getBackend Num platform execFileAsync s)) = Some b.
Proof.
  unfold getBackend. rewrite mbind_run.
  destruct (outcome (detectBackend Num platform execFileAsync s));
    [|discriminate].
  set (s1 := final (detectBackend Num platform execFileAsync s)).
  unfold mbind, get, throw, ret, outcome, final. cbn [fst snd].
  destruct (_backend s1) as [b'|] eqn:Hb; cbn [fst snd]; congruence.
Qed.

Local Ltac writes :=
  cbv beta iota;
  first [ apply ends_throw | apply ends_exec_last; reflexivity ].

Lemma from_backend {A : Type} (path : string)
  (rest : LinuxBackend -> Effects.M (action Num) fields A) (s : fields) :
  (forall b, ends b path (rest b)) ->
  let r := mbind (getBackend Num platform execFileAsync) rest s in
  forall a, outcome r = Normal a -> writesTo (final r) path (trace r).
Proof.
  intros Hrest. cbv zeta. rewrite mbind_run.
  pose proof (getBackend_gives s) as Hb.
  destruct (outcome (getBackend Num platform execFileAsync s)) as [b|e];
    [|discriminate].
  specialize (Hb b eq_refl).
  destruct (Hrest b (final (getBackend Num platform execFileAsync s)))
    as [Hq Hw].
  unfold outcome, final, trace in *. cbn [fst snd] in *.
  intros a Ha. exists b. rewrite Hq. split; [assumption|].
  apply writesLast_app. now apply (Hw a).
Qed.

(** X18. When a capture method completes, the last command it ran is the
    command of the provider's backend, and the last argument of that
    command is the output path of the options. *)
Theorem capture_writes_output_path
  (opts : CaptureOptions Num) (target : WindowTarget Num)
  (region : RegionTarget Num) (s : fields)
  (r : list (action Num) * completion unit * fields) :
  r = captureFullscreen Num numTruthy numPositive platform execFileAsync opts s
  \/ r = captureWindow Num numTruthy numPositive showNum platform
           execFileAsync opts target s
  \/ r = captureRegion Num numTruthy numPositive showNum platform
           execFileAsync opts region s ->
  outcome r = Normal tt ->
  writesTo (final r) (outputPath opts) (trace r).
Proof.
  intros [-> | [-> | ->]]; apply from_backend; intro backend.
  - apply ends_bind; [apply wait_quiet|]. intro.
    destruct backend; writes.
  - apply ends_bind; [apply wait_quiet|]. intro.
    apply ends_bind.
    + destruct (hasWindowName target && negb (hasWindowId numTruthy target));
        [apply findXWindowId_quiet|].
      destruct (hasWindowId numTruthy target); intro; reflexivity.
    + intro xWindowId.
      destruct backend;
        try (apply ends_bind; [apply focusIfKnown_quiet|intro]);
        try destruct (given xWindowId); writes.
  - apply ends_bind; [apply wait_quiet|]. intro.
    destruct backend; writes.
Qed.

End Capture.


Lemma capture_writes_output_path_witness :
  writesTo
    (final (captureFullscreen Z LinuxExample.intTruthy LinuxExample.intPositive
              "linux" LinuxExample.everyCommand LinuxExample.toTmp fresh))
    "/tmp/shot.png"
    (trace (captureFullscreen Z LinuxExample.intTruthy LinuxExample.intPositive
              "linux" LinuxExample.everyCommand LinuxExample.toTmp fresh)).
Proof.
  apply (capture_writes_output_path Z LinuxExample.intTruthy
           LinuxExample.intPositive numToString "linux"
           LinuxExample.everyCommand LinuxExample.toTmp LinuxExample.noWindow
           LinuxExample.corner fresh);
    [left; reflexivity | reflexivity].
Defined.

(** *** Looking a window up by name *)

Lemma dropWhile_head (f : ascii -> bool) (s : string) (c : ascii) (r : string) :
  dropWhile f s = String c r -> f c = false.
Proof.
  induction s as [|x s IH]; cbn [dropWhile]; [discriminate|].
  destruct (f x) eqn:Hx; [assumption|]. intro H. congruence.
Qed.

Lemma dropWhile_suffix (f : ascii -> bool) (s : string) :
  exists w, s = (w ++ dropWhile f s)%string.
Proof.
  induction s as [|x s [w IH]]; cbn [dropWhile]; [now exists EmptyString|].
  destruct (f x).
  - exists (String x w). cbn [append]. now rewrite <- IH.
  - now exists EmptyString.
Qed.

(** What [trim] leaves does not start with white space. *)
Lemma trim_head (s : string) (c : ascii) (r : string) :
  trim s = String c r -> isWhiteSpace c = false.
Proof.
  unfold trim. intro H.
  set (u := dropWhile isWhiteSpace s) in *.
  destruct (dropWhile_suffix isWhiteSpace (reverse u)) as [w Hw].
  set (y := dropWhile isWhiteSpace (reverse u)) in *.
  assert (u = (reverse y ++ reverse w)%string) as Hu.
  { rewrite <- MacOSFacts.reverse_app, <- Hw.
    now rewrite MacOSFacts.reverse_involutive. }
  rewrite H in Hu. cbn [append] in Hu.
  apply (dropWhile_head isWhiteSpace s c _ Hu).
Qed.

Lemma split_firstLine (s : string) :
  exists more, split lineFeed s = firstLine s :: more.
Proof.
  induction s as [|c s [more IH]]; cbn [split firstLine]; [now exists []|].
  destruct (Ascii.eqb c lineFeed); [now eexists|].
  rewrite IH. now eexists.
Qed.

Lemma firstLine_one_line (s : string) :
  allChars (fun c => negb (Ascii.eqb c lineFeed)) (firstLine s) = true.
Proof.
  induction s as [|c s IH]; cbn [firstLine]; [reflexivity|].
  destruct (Ascii.eqb c lineFeed) eqn:Hc; [reflexivity|].
  cbn [allChars]. now rewrite Hc, IH.
Qed.

Lemma first_id (stdout : string) :
  hd_error (filter truthy (split lineFeed (trim stdout))) = firstId stdout.
Proof.
  unfold firstId. destruct (allChars isWhiteSpace stdout) eqn:Hws.
  - apply trim_empty in Hws. now rewrite Hws.
  - destruct (trim stdout) as [|c r] eqn:Ht.
    + apply trim_empty in Ht. congruence.
    + pose proof (trim_head _ _ _ Ht) as Hc.
      assert (Ascii.eqb c lineFeed = false) as Hlf.
      { destruct (Ascii.eqb c lineFeed) eqn:E; [|reflexivity].
        apply Ascii.eqb_eq in E. subst c. discriminate Hc. }
      cbn [split firstLine]. rewrite Hlf.
      destruct (split_firstLine r) as [more ->].
      reflexivity.
Qed.

(** X19. [findXWindowId] runs [xdotool search --name] on the name once and
    leaves the fields alone.  It gives the first line of the output, white
    space around the output apart, and nothing when the output is blank or
    the command fails; an identifier it gives is a single line and is not
    empty. *)
Theorem findXWindowId_first_line (Num : Type)
  (execFileAsync : string -> list string -> completion string)
  (name : string) (s : fields) :
  findXWindowId Num execFileAsync name s
  = ([Exec "xdotool" ["search"; "--name"; name]],
     Normal match execFileAsync "xdotool" ["search"; "--name"; name] with
            | Normal stdout => firstId stdout
            | Throw _ => None
            end,
     s)
  /\ forall stdout id,
       firstId stdout = Some id ->
       given (Some id) = true
       /\ allChars (fun c => negb (Ascii.eqb c lineFeed)) id = true.
Proof.
  split.
  - unfold findXWindowId, mtry, mbind, exec, perform, ret.
    destruct (execFileAsync _ _) as [stdout|e]; [|reflexivity].
    now rewrite first_id.
  - unfold firstId. intros stdout id.
    destruct (allChars isWhiteSpace stdout) eqn:Hws; [discriminate|].
    intros [= <-]. split; [|apply firstLine_one_line].
    destruct (trim stdout) as [|c r] eqn:Ht.
    + apply trim_empty in Ht. congruence.
    + pose proof (trim_head _ _ _ Ht) as Hc. cbn [firstLine].
      destruct (Ascii.eqb c lineFeed) eqn:E; [|reflexivity].
      apply Ascii.eqb_eq in E. subst c. discriminate Hc.
Qed.

End LinuxFacts.

(** ** Methods with effects: how they compose *)

Module EffectsFacts.
Import JS Effects.
Local Open Scope list_scope.

Section Composition.

Variable Act S : Type.

Lemma trace_of {A : Type} (t : list Act) (o : completion A) (s : S) :
  trace (t, o, s) = t.
Proof. reflexivity. Qed.

Lemma outcome_of {A : Type} (t : list Act) (o : completion A) (s : S) :
  outcome (t, o, s) = o.
Proof. reflexivity. Qed.

Lemma final_of {A : Type} (t : list Act) (o : completion A) (s : S) :
  final (t, o, s) = s.
Proof. reflexivity. Qed.

Lemma bind_run {A B : Type} (m : M Act S A) (k : A -> M Act S B) (s : S) :
  mbind m k s
  = match outcome (m s) with
    | Throw e => (trace (m s), Throw e, final (m s))
    | Normal a =>
        (trace (m s) ++ trace (k a (final (m s))),
         outcome (k a (final (m s))),
         final (k a (final (m s))))
    end.
Proof.
  unfold mbind, trace, outcome, final.
  destruct (m s) as [[t1 r] s1]. cbn [fst snd].
  destruct r as [a|e]; [|reflexivity].
  now destruct (k a s1) as [[t2 r2] s2].
Qed.

Lemma bind_normal {A B : Type} (m : M Act S A) (k : A -> M Act S B)
  (s s1 : S) (t : list Act) (a : A) :
  m s = (t, Normal a, s1) ->
  mbind m k s = (t ++ trace (k a s1), outcome (k a s1), final (k a s1)).
Proof. intro H. rewrite bind_run, H. reflexivity. Qed.

Lemma try_run {A : Type} (m : M Act S A) (h : thrown -> M Act S A) (s : S) :
  mtry m h s
  = match outcome (m s) with
    | Normal a => (trace (m s), Normal a, final (m s))
    | Throw e =>
        (trace (m s) ++ trace (h e (final (m s))),
         outcome (h e (final (m s))),
         final (h e (final (m s))))
    end.
Proof.
  unfold mtry, trace, outcome, final.
  destruct (m s) as [[t1 r] s1]. cbn [fst snd].
  destruct r as [a|e]; [reflexivity|].
  now destruct (h e s1) as [[t2 r2] s2].
Qed.

Lemma try_bind_normal {A B : Type} (m : M Act S A) (k : A -> M Act S B)
  (h : thrown -> M Act S B) (s s1 : S) (t : list Act) (a : A) :
  m s = (t, Normal a, s1) ->
  mtry (mbind m k) h s
  = (t ++ trace (mtry (k a) h s1), outcome (mtry (k a) h s1),
     final (mtry (k a) h s1)).
Proof.
  intro H. unfold mtry, mbind, trace, outcome, final. rewrite H.
  destruct (k a s1) as [[t2 [b|e]] s2]; cbn [fst snd]; [reflexivity|].
  destruct (h e s2) as [[t3 r3] s3]. cbn [fst snd].
  now rewrite app_assoc.
Qed.

Lemma try_bind_throw {A B : Type} (m : M Act S A) (k : A -> M Act S B)
  (h : thrown -> M Act S B) (s s1 : S) (t : list Act) (e : thrown) :
  m s = (t, Throw e, s1) ->
  mtry (mbind m k) h s
  = (t ++ trace (h e s1), outcome (h e s1), final (h e s1)).
Proof.
  intro H. unfold mtry, mbind, trace, outcome, final. rewrite H.
  now destruct (h e s1) as [[t3 r3] s3].
Qed.

Lemma finally_run {A : Type} (m : M Act S A) (c : M Act S unit) (s : S) :
  mfinally m c s
  = (trace (m s) ++ trace (c (final (m s))),
     match outcome (c (final (m s))) with
     | Normal _ => outcome (m s)
     | Throw e => Throw e
     end,
     final (c (final (m s)))).
Proof.
  unfold mfinally, trace, outcome, final.
  destruct (m s) as [[t1 r] s1]. cbn [fst snd].
  now destruct (c s1) as [[t2 r2] s2].
Qed.

Lemma every_bind (P : Act -> bool) {A B : Type}
  (m : M Act S A) (k : A -> M Act S B) :
  every P m -> (forall a, every P (k a)) -> every P (mbind m k).
Proof.
  intros Hm Hk s. rewrite bind_run. specialize (Hm s).
  destruct (outcome (m s)) as [a|e]; unfold trace in *; cbn [fst] in *.
  - rewrite forallb_app, Hm. apply Hk.
  - assumption.
Qed.

Lemma every_try (P : Act -> bool) {A : Type}
  (m : M Act S A) (h : thrown -> M Act S A) :
  every P m -> (forall e, every P (h e)) -> every P (mtry m h).
Proof.
  intros Hm Hh s. rewrite try_run. specialize (Hm s).
  destruct (outcome (m s)) as [a|e]; unfold trace in *; cbn [fst] in *.
  - assumption.
  - rewrite forallb_app, Hm. apply Hh.
Qed.

Lemma every_perform (P : Act -> bool) {A : Type} (a : Act)
  (answer : completion A) :
  P a = true -> every P (perform (S := S) a answer).
Proof. intros H s. unfold perform, trace. cbn [fst forallb]. now rewrite H. Qed.

Lemma every_ret (P : Act -> bool) {A : Type} (a : A) :
  every P (ret (Act := Act) (S := S) a).
Proof. intro s. reflexivity. Qed.

Lemma still_bind {A B : Type} (m : M Act S A) (k : A -> M Act S B) :
  still m -> (forall a, still (k a)) -> still (mbind m k).
Proof.
  intros Hm Hk s. rewrite bind_run.
  destruct (outcome (m s)) as [a|e].
  - change (final (k a (final (m s))) = s). now rewrite Hk, Hm.
  - apply Hm.
Qed.

Lemma still_try {A : Type} (m : M Act S A) (h : thrown -> M Act S A) :
  still m -> (forall e, still (h e)) -> still (mtry m h).
Proof.
  intros Hm Hh s. rewrite try_run.
  destruct (outcome (m s)) as [a|e].
  - apply Hm.
  - change (final (h e (final (m s))) = s). now rewrite Hh, Hm.
Qed.

Lemma still_perform {A : Type} (a : Act) (answer : completion A) :
  still (perform (S := S) a answer).
Proof. intro s. reflexivity. Qed.

Lemma still_ret {A : Type} (a : A) : still (ret (Act := Act) (S := S) a).
Proof. intro s. reflexivity. Qed.

Lemma filter_none (P : Act -> bool) (t : list Act) :
  forallb (fun a => negb (P a)) t = true -> filter P t = [].
Proof.
  induction t as [|a t IH]; [reflexivity|]. cbn [forallb filter].
  intro H. apply andb_true_iff in H as [Ha Ht].
  apply negb_true_iff in Ha. rewrite Ha. now apply IH.
Qed.

End Composition.

End EffectsFacts.

(** ** The take_screenshot tool *)

Module ToolFacts.
Import JS JSText Effects Helpers Runtime TakeScreenshot ToolNotions EffectsFacts.
Local Open Scope list_scope.

Lemma validateUrl_completes (newURL : string -> completion Url.URL)
  (urlString : string) (dnsResolver : Url.DnsResolver) :
  exists r, Url.validateUrl newURL urlString dnsResolver = Normal r.
Proof.
  unfold Url.validateUrl.
  destruct (newURL urlString) as [parsed|e]; [|eauto].
  destruct (_ && _); [eauto|]. cbv zeta.
  destruct (_ || _); [eauto|].
  destruct (String.eqb _ "[::1]"); [eauto|].
  destruct (Url.matchIPv4 _).
  - destruct (Url.blocked _); eauto.
  - destruct (_ && _).
    + destruct (Url.blocked _); eauto.
    + unfold tryCatch, bind.
      destruct (dnsResolver _) as [addresses|e]; [|eauto].
      destruct (_ =? 0); [eauto|].
      destruct (Url.checkAddresses addresses None); eauto.
Qed.

Section Listener.

Variable newURL : string -> completion Url.URL.
Variable defaultResolver : Url.DnsResolver.

(** X20. The request listener never throws and decides each request once:
    it aborts with [blockedbyclient] a navigation to a URL other than the
    one of the call that [validateUrl] does not accept, and continues every
    other request, those that are not navigations without looking at their
    URL.  Only when that call on the request itself throws does it make a
    second one, [abort('failed')], whose own throw it ignores; the calls
    are not awaited. *)
Theorem onRequest_decides_once (url : string) (req : HTTPRequest) :
  let first := verdict newURL defaultResolver url req in
  onRequest newURL defaultResolver url req tt
  = (first :: match answer req first with
              | Normal _ => []
              | Throw _ => [Abort "failed"]
              end,
     Normal tt, tt).
Proof.
  cbv zeta. unfold verdict, accepts, onRequest.
  destruct (isNavigationRequest req); cbn [andb].
  - destruct (String.eqb (req_url req) url); cbn [andb negb].
    + unfold mtry, perform, ret, answer.
      destruct (continue req) as [[]|e]; [reflexivity|].
      now destruct (abort req "failed") as [[]|e'].
    + destruct (validateUrl_completes newURL (req_url req) defaultResolver)
        as [v Hv].
      unfold mtry, mbind, perform, ret. rewrite Hv.
      destruct (Url.valid v); cbn [negb answer].
      * destruct (continue req) as [[]|e]; [reflexivity|].
        now destruct (abort req "failed") as [[]|e'].
      * destruct (abort req "blockedbyclient") as [[]|e]; [reflexivity|].
        now destruct (abort req "failed") as [[]|e'].
  - unfold mtry, perform, ret, answer.
    destruct (continue req) as [[]|e]; [reflexivity|].
    now destruct (abort req "failed") as [[]|e'].
Qed.

End Listener.

Section Tool.

Variable Num : Type.
Variable numTruthy : Num -> bool.
Variable W : Type.
Variable HOME : option string.
Variable cwd isoNow : string.
Variable newURL : string -> completion Url.URL.
Variable defaultResolver : Url.DnsResolver.
Variable realpath : Path.FileSystem.
Variable existsSync : string -> bool.
Variable mkdirSync : string -> completion unit.
Variable puppeteer : Puppeteer Num.

Local Notation action := (TakeScreenshot.action Num W).
Local Notation default := (Config.defaultOutDir HOME).
Local Notation tool :=
  (take_screenshot Num numTruthy W HOME cwd isoNow newURL defaultResolver
     realpath existsSync mkdirSync puppeteer).
Local Notation body :=
  (capture Num numTruthy W existsSync mkdirSync puppeteer).
Local Notation pathValidation a :=
  (Path.validateOutputPath cwd (outputPath Num a)
     ("screenshot-" ++ timestamp isoNow ++ ".png")%string (pathConfig HOME)
     realpath).

(** The module once the default directory has been created. *)
Local Notation ready g :=
  {| puppeteerSemaphore := puppeteerSemaphore g; _defaultDirCreated := true |}.

Lemma ensureDefaultDirectory_run (g : globals W) :
  ensureDefaultDirectory (Act := action) File HOME mkdirSync g
  = if _defaultDirCreated g then ([], Normal tt, g)
    else match mkdirSync default with
         | Normal _ => ([File (Mkdir default)], Normal tt, ready g)
         | Throw e => ([File (Mkdir default)], Throw e, g)
         end.
Proof.
  unfold ensureDefaultDirectory, mbind, get, put, perform, ret.
  destruct (_defaultDirCreated g); [reflexivity|]. cbn [negb].
  now destruct (mkdirSync default) as [[]|e].
Qed.

Lemma perform_then {A B : Type} (a : action) (answer : completion A)
  (k : M action (frame W) B) (f : frame W) :
  (perform a answer ;;; k) f
  = match answer with
    | Normal _ => (a :: trace (k f), outcome (k f), final (k f))
    | Throw e => ([a], Throw e, f)
    end.
Proof.
  unfold mbind, perform. destruct answer as [x|e]; [|reflexivity].
  now destruct (k f) as [[t o] f'].
Qed.

Lemma setBrowser_then {B : Type} (b : bool) (k : M action (frame W) B)
  (f : frame W) :
  (setBrowser Num W b ;;; k) f = k {| module := module f; browser := b |}.
Proof.
  unfold setBrowser, mbind, get, put.
  now destruct (k _) as [[t o] f'].
Qed.

Local Notation quietAction := (fun a : action => negb (isLifecycle a)).

Local Ltac calm :=
  repeat first
    [ apply still_perform
    | apply still_ret
    | apply still_bind; [|intro]
    | match goal with |- still (match ?x with _ => _ end) => destruct x end ].

Local Ltac plain :=
  repeat first
    [ apply every_perform; reflexivity
    | apply every_ret
    | apply every_bind; [|intro]
    | match goal with |- every _ (match ?x with _ => _ end) => destruct x end ].

Lemma launched_run {A : Type} (args : list string) (k : M action (frame W) A)
  (f : frame W) :
  still k -> every quietAction k ->
  let r :=
    (perform (Launch args) (launch Num puppeteer args) ;;;
     setBrowser Num W true ;;; k) f in
  lifecycle (trace r) = [Launch args]
  /\ module (final r) = module f
  /\ browser (final r)
     = match launch Num puppeteer args with
       | Normal _ => true
       | Throw _ => browser f
       end.
Proof.
  intros Hk Hq. cbv zeta. rewrite perform_then.
  destruct (launch Num puppeteer args) as [[]|e].
  - rewrite setBrowser_then.
    set (f1 := {| module := module f; browser := true |}).
    rewrite trace_of, final_of, (Hk f1).
    split; [|split; reflexivity].
    unfold lifecycle. cbn [filter isLifecycle]. f_equal.
    apply filter_none, Hq.
  - rewrite trace_of, final_of. now repeat split.
Qed.

Lemma capture_run (a : arguments Num) (v : Url.UrlValidationResult)
  (dest : string) (f : frame W) :
  let r := body a v dest f in
  lifecycle (trace r) = [Launch (browserArgs v)]
  /\ module (final r) = module f
  /\ browser (final r)
     = match launch Num puppeteer (browserArgs v) with
       | Normal _ => true
       | Throw _ => browser f
       end.
Proof.
  unfold capture. apply launched_run.
  - calm.
  - plain.
Qed.


(** *** A response without an error *)

Lemma saves_bind {A : Type} (dest : string) (m : M action (frame W) A)
  (k : A -> M action (frame W) McpToolResponse) :
  (forall x, saves puppeteer dest (k x)) -> saves puppeteer dest (mbind m k).
Proof.
  intros Hk f resp. rewrite bind_run.
  destruct (outcome (m f)) as [x|e]; rewrite outcome_of, trace_of;
    [|discriminate].
  intros Ho He. destruct (Hk x _ _ Ho He) as (-> & before & shot & Ht & Hs).
  split; [reflexivity|]. exists (trace (m f) ++ before), shot.
  rewrite Ht, app_assoc. now split.
Qed.

Lemma saves_err (dest text : string) :
  saves puppeteer dest (ret (Act := action) (S := frame W) (err text)).
Proof. intros f resp [= <-]. discriminate. Qed.

Lemma saves_element (dest : string) :
  saves puppeteer dest
    (perform (Act := action) (S := frame W) (ElementScreenshot dest)
       (elementScreenshot Num puppeteer dest) ;;;
     ret (ok ("Screenshot saved: " ++ dest))).
Proof.
  intros f resp. rewrite perform_then.
  destruct (elementScreenshot Num puppeteer dest) as [[]|e] eqn:Hshot;
    rewrite outcome_of, trace_of; [|discriminate].
  intros [= <-] _. split; [reflexivity|].
  exists [], (ElementScreenshot dest). split; [reflexivity|]. now left.
Qed.

Lemma saves_page (dest : string) (whole : bool) :
  saves puppeteer dest
    (perform (Act := action) (S := frame W) (PageScreenshot dest whole)
       (pageScreenshot Num puppeteer dest whole) ;;;
     ret (ok ("Screenshot saved: " ++ dest))).
Proof.
  intros f resp. rewrite perform_then.
  destruct (pageScreenshot Num puppeteer dest whole) as [[]|e] eqn:Hshot;
    rewrite outcome_of, trace_of; [|discriminate].
  intros [= <-] _. split; [reflexivity|].
  exists [], (PageScreenshot dest whole). split; [reflexivity|].
  right. now exists whole.
Qed.

Lemma capture_saves (a : arguments Num) (v : Url.UrlValidationResult)
  (dest : string) :
  saves puppeteer dest (body a v dest).
Proof.
  unfold capture.
  repeat (apply saves_bind; intro).
  destruct (given (selector Num a)).
  - apply saves_bind. intros []; cbn [negb].
    + apply saves_element.
    + apply saves_err.
  - apply saves_page.
Qed.

(** The [try] with its [catch]. *)
Local Notation tried a v dest :=
  (mtry (body a v dest)
     (fun e => ret (err ("Screenshot error: " ++ Url.errorMessage e)))).

Lemma tried_run (a : arguments Num) (v : Url.UrlValidationResult)
  (dest : string) (f : frame W) :
  let r := tried a v dest f in
  lifecycle (trace r) = [Launch (browserArgs v)]
  /\ final r = final (body a v dest f)
  /\ (exists resp, outcome r = Normal resp)
  /\ (forall resp,
        outcome r = Normal resp -> isError resp = None ->
        resp = ok ("Screenshot saved: " ++ dest)
        /\ exists before shot,
             trace r = before ++ [shot] /\ taken puppeteer dest shot).
Proof.
  cbv zeta. rewrite try_run.
  destruct (capture_run a v dest f) as (Hl & _ & _).
  pose proof (capture_saves a v dest f) as Hs.
  destruct (outcome (body a v dest f)) as [resp|e].
  - rewrite trace_of, outcome_of, final_of.
    split; [assumption|]. split; [reflexivity|]. split; [eauto|].
    intros resp' [= <-] He. exact (Hs resp eq_refl He).
  - unfold ret. cbv beta.
    rewrite !trace_of, !outcome_of, !final_of, app_nil_r.
    split; [assumption|]. split; [reflexivity|]. split; [eauto|].
    intros resp' [= <-]. discriminate.
Qed.

Local Notation released s := (snd (Semaphore.release s)).
Local Notation resumed s := (fst (Semaphore.release s)).

Lemma cleanup_run (f : frame W) :
  cleanup Num W puppeteer f
  = ((if browser f then [Close] else [])
     ++ [Release (resumed (puppeteerSemaphore (module f)))],
     Normal tt,
     {| module :=
          {| puppeteerSemaphore := released (puppeteerSemaphore (module f));
             _defaultDirCreated := _defaultDirCreated (module f) |};
        browser := browser f |}).
Proof.
  destruct f as [g b].
  unfold cleanup, mbind, mtry, get, perform, ret, onModule, release.
  cbn [module browser].
  destruct b; [destruct (close Num puppeteer) as [[]|e]|];
    cbn [module browser];
    now destruct (Semaphore.release (puppeteerSemaphore g)) as [next s'].
Qed.


Lemma checkAllowedDirs_accepted (fileSystem : Path.FileSystem)
  (realPath : string) (dirs : list string) (r : Path.PathValidationResult) :
  Path.checkAllowedDirs cwd fileSystem realPath dirs = Some r ->
  r = Path.accepted realPath.
Proof.
  induction dirs as [|dir more IH]; cbn [Path.checkAllowedDirs];
    [discriminate|].
  destruct (_ && _); [congruence | exact IH].
Qed.

(** A valid result of the path validator holds a path. *)
Lemma valid_has_path (customPath : option string) (defaultName : string)
  (config : Path.PathConfig) (fileSystem : Path.FileSystem) :
  let r :=
    Path.validateOutputPath cwd customPath defaultName config fileSystem in
  Path.valid r = true -> Path.path r = Some (template (Path.path r)).
Proof.
  cbv zeta. unfold Path.validateOutputPath.
  assert (forall realPath,
            let r :=
              orElse (Path.checkAllowedDirs cwd fileSystem realPath
                        (Path.allowedOutputDirs config))
                (Path.rejected Path.outsideMessage) in
            Path.valid r = true ->
            Path.path r = Some (template (Path.path r))) as Hc.
  { intro realPath. cbv zeta.
    destruct (Path.checkAllowedDirs _ _ _ _) as [r|] eqn:E;
      [|discriminate].
    now rewrite (checkAllowedDirs_accepted _ _ _ _ E). }
  destruct (Path.noCustomPath customPath); [reflexivity|]. cbv zeta.
  destruct (_ || _); [discriminate|].
  destruct (fileSystem _) as [realPath|e]; [apply Hc|].
  destruct (fileSystem _) as [realParent|e']; [apply Hc | discriminate].
Qed.

Lemma lift_then {A B : Type} (c : completion A)
  (k : A -> M action (frame W) B) (f : frame W) :
  mbind (fun s => ([], c, s)) k f
  = match c with
    | Normal x => k x f
    | Throw e => ([], Throw e, f)
    end.
Proof.
  unfold mbind. destruct c as [x|e]; [|reflexivity].
  now destruct (k x f) as [[t o] f'].
Qed.

Lemma ensure_then {B : Type} (k : M action (frame W) B) (g : globals W)
  (b : bool) :
  (onModule Num W (ensureDefaultDirectory File HOME mkdirSync) ;;; k)
    {| module := g; browser := b |}
  = if _defaultDirCreated g then k {| module := g; browser := b |}
    else match mkdirSync default with
         | Normal _ =>
             let r := k {| module := ready g; browser := b |} in
             (File (Mkdir default) :: trace r, outcome r, final r)
         | Throw e =>
             ([File (Mkdir default)], Throw e, {| module := g; browser := b |})
         end.
Proof.
  unfold mbind, onModule. cbn [module browser].
  rewrite ensureDefaultDirectory_run.
  destruct (_defaultDirCreated g).
  - now destruct (k _) as [[t o] f'].
  - destruct (mkdirSync default) as [[]|e]; [|reflexivity].
    now destruct (k _) as [[t o] f'].
Qed.

Lemma tryAcquire_then {B : Type} (k : bool -> M action (frame W) B)
  (g : globals W) (b : bool) :
  mbind (onModule Num W (tryAcquire Num W)) k {| module := g; browser := b |}
  = if 0 <? Semaphore.permits (puppeteerSemaphore g) then
      let r :=
        k true
          {| module :=
               {| puppeteerSemaphore :=
                    {| Semaphore.permits :=
                         Semaphore.permits (puppeteerSemaphore g) - 1;
                       Semaphore.waiting :=
                         Semaphore.waiting (puppeteerSemaphore g) |};
                  _defaultDirCreated := _defaultDirCreated g |};
             browser := b |} in
      (TryAcquire true :: trace r, outcome r, final r)
    else
      let r := k false {| module := g; browser := b |} in
      (TryAcquire false :: trace r, outcome r, final r).
Proof.
  unfold mbind, onModule, tryAcquire, Semaphore.tryAcquire.
  cbn [module browser].
  destruct (0 <? Semaphore.permits (puppeteerSemaphore g)).
  - now destruct (k true _) as [[t o] f'].
  - destruct g as [s d]. cbn [puppeteerSemaphore _defaultDirCreated].
    now destruct (k false _) as [[t o] f'].
Qed.

(** The module after [tryAcquire()] took a permit. *)
Local Notation taken1 s :=
  {| Semaphore.permits := Semaphore.permits s - 1;
     Semaphore.waiting := Semaphore.waiting s |}.

Local Notation limitMessage :=
  ("Concurrent screenshot limit reached (max "
   ++ numToString Config.MAX_CONCURRENT_SCREENSHOTS ++ "). "
   ++ "Please wait for existing screenshots to complete.")%string.

Local Notation closing v :=
  (match launch Num puppeteer (browserArgs v) with
   | Normal _ => [Close]
   | Throw _ => @nil action
   end).

Lemma attempt_run (a : arguments Num) (v : Url.UrlValidationResult)
  (dest : string) (g : globals W) (b : bool) :
  exists work resp,
    attempt Num numTruthy W existsSync mkdirSync puppeteer a v dest
      {| module := g; browser := b |}
    = (work ++ closing v ++ [Release (resumed (puppeteerSemaphore g))],
       Normal resp,
       {| module :=
            {| puppeteerSemaphore := released (puppeteerSemaphore g);
               _defaultDirCreated := _defaultDirCreated g |};
          browser := match launch Num puppeteer (browserArgs v) with
                     | Normal _ => true
                     | Throw _ => false
                     end |})
    /\ lifecycle work = [Launch (browserArgs v)]
    /\ (isError resp = None ->
        resp = ok ("Screenshot saved: " ++ dest)
        /\ exists before shot,
             work = before ++ [shot] /\ taken puppeteer dest shot).
Proof.
  unfold attempt. rewrite setBrowser_then. cbn [module].
  set (f0 := {| module := g; browser := false |}).
  rewrite finally_run, cleanup_run.
  destruct (tried_run a v dest f0) as (Hl & Hf & [resp Hr] & Hs).
  destruct (capture_run a v dest f0) as (_ & Hm & Hb).
  rewrite Hf, Hm, Hb, Hr. cbn [module browser f0].
  exists (trace (tried a v dest f0)), resp.
  split; [|split; [assumption|]].
  - now destruct (launch Num puppeteer (browserArgs v)).
  - intro He. exact (Hs resp Hr He).
Qed.

Lemma checked_run (a : arguments Num) (g : globals W) (b : bool) :
  let r :=
    checked Num numTruthy W HOME cwd isoNow newURL defaultResolver realpath
      existsSync mkdirSync puppeteer a {| module := g; browser := b |} in
  let sem := puppeteerSemaphore g in
  let pv := pathValidation a in
  let dest := template (Path.path pv) in
  exists v,
    Url.validateUrl newURL (url Num a) defaultResolver = Normal v
    /\ ((Url.valid v = false
         /\ r = ([],
                 Normal (err ("URL validation failed: "
                              ++ template (Url.error v))),
                 {| module := g; browser := b |}))
        \/ (Url.valid v = true /\ Path.valid pv = false
            /\ r = ([],
                    Normal (err ("Output path validation failed: "
                                 ++ template (Path.error pv))),
                    {| module := g; browser := b |}))
        \/ (Url.valid v = true /\ Path.valid pv = true
            /\ Semaphore.permits sem <= 0
            /\ r = ([TryAcquire false], Normal (err limitMessage),
                    {| module := g; browser := b |}))
        \/ (Url.valid v = true /\ Path.valid pv = true
            /\ 0 < Semaphore.permits sem
            /\ exists work resp,
                 r = (TryAcquire true :: work ++ closing v
                      ++ [Release (resumed (taken1 sem))],
                      Normal resp,
                      {| module :=
                           {| puppeteerSemaphore := released (taken1 sem);
                              _defaultDirCreated := _defaultDirCreated g |};
                         browser := match launch Num puppeteer (browserArgs v) with
                                    | Normal _ => true
                                    | Throw _ => false
                                    end |})
                 /\ lifecycle work = [Launch (browserArgs v)]
                 /\ (isError resp = None ->
                     resp = ok ("Screenshot saved: " ++ dest)
                     /\ exists before shot,
                          work = before ++ [shot]
                          /\ taken puppeteer dest shot))).
Proof.
  cbv zeta. unfold checked. rewrite lift_then.
  destruct (validateUrl_completes newURL (url Num a) defaultResolver)
    as [v Hv].
  rewrite Hv. exists v. split; [reflexivity|].
  destruct (Url.valid v); cbn [negb]; [|left; now split].
  right. cbv zeta.
  destruct (Path.valid (pathValidation a)) eqn:Hp; cbn [negb];
    [|left; now repeat split].
  right. rewrite tryAcquire_then.
  destruct (0 <? Semaphore.permits (puppeteerSemaphore g)) eqn:Hperm;
    cbv zeta; cbn [negb].
  - right. apply Z.ltb_lt in Hperm.
    split; [reflexivity|]. split; [reflexivity|]. split; [assumption|].
    match goal with
    | |- context [attempt _ _ _ _ _ _ ?a ?v ?d {| module := ?g1; browser := b |}] =>
        destruct (attempt_run a v d g1 b) as (work & resp & -> & Hl & Hs)
    end.
    exists work, resp. rewrite trace_of, outcome_of, final_of.
    cbn [puppeteerSemaphore _defaultDirCreated] in *.
    split; [reflexivity|]. split; assumption.
  - left. apply Z.ltb_ge in Hperm. now repeat split.
Qed.


(** The runs of the tool, one case for each way out of it. *)
Lemma tool_cases (a : arguments Num) (g : globals W) :
  let r := tool a g in
  let pre := if _defaultDirCreated g then [] else [File (Mkdir default)] in
  let sem := puppeteerSemaphore g in
  let pv := pathValidation a in
  let dest := template (Path.path pv) in
  (exists e,
     _defaultDirCreated g = false /\ mkdirSync default = Throw e
     /\ r = (pre, Throw e, g))
  \/ ((_defaultDirCreated g = true \/ mkdirSync default = Normal tt)
      /\ exists v,
           Url.validateUrl newURL (url Num a) defaultResolver = Normal v
           /\ ((Url.valid v = false
                /\ r = (pre,
                        Normal (err ("URL validation failed: "
                                     ++ template (Url.error v))),
                        ready g))
               \/ (Url.valid v = true /\ Path.valid pv = false
                   /\ r = (pre,
                           Normal (err ("Output path validation failed: "
                                        ++ template (Path.error pv))),
                           ready g))
               \/ (Url.valid v = true /\ Path.valid pv = true
                   /\ Semaphore.permits sem <= 0
                   /\ r = (pre ++ [TryAcquire false],
                           Normal (err limitMessage), ready g))
               \/ (Url.valid v = true /\ Path.valid pv = true
                   /\ 0 < Semaphore.permits sem
                   /\ exists work resp,
                        r = (pre ++ TryAcquire true :: work ++ closing v
                             ++ [Release (resumed (taken1 sem))],
                             Normal resp,
                             {| puppeteerSemaphore := released (taken1 sem);
                                _defaultDirCreated := true |})
                        /\ lifecycle work = [Launch (browserArgs v)]
                        /\ (isError resp = None ->
                            resp = ok ("Screenshot saved: " ++ dest)
                            /\ exists before shot,
                                 work = before ++ [shot]
                                 /\ taken puppeteer dest shot)))).
Proof.
  cbv zeta. unfold take_screenshot, run. rewrite ensure_then.
  destruct (_defaultDirCreated g) eqn:Hflag.
  - right. split; [now left|].
    destruct (checked_run a g false) as (v & Hv & Hc). cbv zeta in Hc.
    exists v. split; [assumption|].
    assert (ready g = g) as Hg by (destruct g; cbn in *; now subst).
    rewrite Hg, Hflag in *.
    destruct Hc as [(H1 & ->) | [(H1 & H2 & ->) | [(H1 & H2 & H3 & ->)
      | (H1 & H2 & H3 & work & resp & -> & Hl & Hs)]]].
    + left. now split.
    + right; left. now repeat split.
    + right; right; left. now repeat split.
    + right; right; right. repeat (split; [assumption|]).
      exists work, resp. split; [reflexivity|split; assumption].
  - destruct (mkdirSync default) as [[]|e].
    + right. split; [now right|].
      destruct (checked_run a (ready g) false) as (v & Hv & Hc).
      cbv zeta in Hc. cbn [puppeteerSemaphore _defaultDirCreated] in Hc.
      exists v. split; [assumption|]. cbv zeta.
      destruct Hc as [(H1 & ->) | [(H1 & H2 & ->) | [(H1 & H2 & H3 & ->)
        | (H1 & H2 & H3 & work & resp & -> & Hl & Hs)]]];
        rewrite trace_of, outcome_of, final_of.
      * left. now split.
      * right; left. now repeat split.
      * right; right; left. now repeat split.
      * right; right; right. repeat (split; [assumption|]).
        exists work, resp. split; [reflexivity|split; assumption].
    + left. exists e. now repeat split.
Qed.


Lemma lifecycle_app (t1 t2 : list action) :
  lifecycle (t1 ++ t2) = lifecycle t1 ++ lifecycle t2.
Proof. apply filter_app. Qed.

Lemma lifecycle_pre (g : globals W) :
  lifecycle (if _defaultDirCreated g then []
             else [File (W := W) (Num := Num) (Mkdir default)]) = [].
Proof. now destruct (_defaultDirCreated g). Qed.

Lemma lifecycle_closing (v : Url.UrlValidationResult) :
  lifecycle (closing v) = closing v.
Proof. now destruct (launch Num puppeteer (browserArgs v)). Qed.

(** X21. On the semaphore and on the life of the browser the tool does one
    of three things: nothing; a [tryAcquire()] that is denied; or a
    [tryAcquire()] that is granted, then one launch, then [close()] if the
    launch gave a browser, then one [release()].  The permit is taken
    before the browser is launched and given back after it is closed,
    however the capture ends. *)
Theorem take_screenshot_lifecycle (a : arguments Num) (g : globals W) :
  let t := lifecycle (trace (tool a g)) in
  t = []
  \/ t = [TryAcquire false]
  \/ exists args next,
       t = TryAcquire true :: Launch args
           :: match launch Num puppeteer args with
              | Normal _ => [Close; Release next]
              | Throw _ => [Release next]
              end.
Proof.
  cbv zeta.
  pose proof (tool_cases a g) as Hcases; cbv zeta in Hcases;
    destruct Hcases as [(e & _ & _ & ->) | (_ & v & _ & Hc)].
  - left. rewrite trace_of. apply lifecycle_pre.
  - destruct Hc as [(_ & ->) | [(_ & _ & ->) | [(_ & _ & _ & ->)
      | (_ & _ & _ & work & resp & -> & Hl & _)]]];
      rewrite trace_of.
    + left. apply lifecycle_pre.
    + left. apply lifecycle_pre.
    + right; left. now rewrite lifecycle_app, lifecycle_pre.
    + right; right.
      exists (browserArgs v),
        (resumed (taken1 (puppeteerSemaphore g))).
      rewrite lifecycle_app, lifecycle_pre. cbn [app].
      change (TryAcquire true :: work ++ ?x)
        with ([TryAcquire (Num := Num) (W := W) true] ++ work ++ x).
      rewrite !lifecycle_app, Hl, lifecycle_closing.
      now destruct (launch Num puppeteer (browserArgs v)).
Qed.

(** X22. When no caller waits in the queue of the semaphore, the tool
    leaves the semaphore as it found it, however it ends: a permit it took
    is given back when the browser cannot be launched, when the page or the
    screenshot fails and when the element is not found, as it is on
    success. *)
Theorem take_screenshot_gives_permit_back (a : arguments Num) (g : globals W) :
  Semaphore.waiting (puppeteerSemaphore g) = [] ->
  puppeteerSemaphore (final (tool a g)) = puppeteerSemaphore g.
Proof.
  intro Hw.
  pose proof (tool_cases a g) as Hcases; cbv zeta in Hcases;
    destruct Hcases as [(e & _ & _ & ->) | (_ & v & _ & Hc)]; [reflexivity|].
  destruct Hc as [(_ & ->) | [(_ & _ & ->) | [(_ & _ & _ & ->)
    | (_ & _ & _ & work & resp & -> & _)]]];
    rewrite final_of; try reflexivity.
  cbn [puppeteerSemaphore]. unfold Semaphore.release.
  cbn [Semaphore.waiting Semaphore.permits]. rewrite Hw. cbn [snd].
  destruct (puppeteerSemaphore g) as [p w]. cbn in *. subst w.
  f_equal. lia.
Qed.

(** X23. A browser is launched only after the URL was accepted by
    [validateUrl], the output path was accepted by [validateOutputPath] and
    a permit was obtained; its arguments are the two sandbox switches and,
    when the validation gave an address and a host name, the rule that maps
    the host name to that address. *)
Theorem take_screenshot_launch_guarded (a : arguments Num) (g : globals W)
  (args : list string) :
  In (Launch args) (trace (tool a g)) ->
  exists v,
    Url.validateUrl newURL (url Num a) defaultResolver = Normal v
    /\ Url.valid v = true
    /\ Path.valid (pathValidation a) = true
    /\ 0 < Semaphore.permits (puppeteerSemaphore g)
    /\ args = browserArgs v.
Proof.
  assert (forall t : list action,
            In (Launch args) t -> In (Launch args) (lifecycle t)) as Hin.
  { intros t H. apply filter_In. now split. }
  intro H. apply Hin in H.
  pose proof (tool_cases a g) as Hcases; cbv zeta in Hcases;
    destruct Hcases as [(e & _ & _ & Hr) | (_ & v & Hv & Hc)].
  - rewrite Hr, trace_of, lifecycle_pre in H. destruct H.
  - destruct Hc as [(_ & Hr) | [(_ & _ & Hr) | [(_ & _ & _ & Hr)
      | (H1 & H2 & H3 & work & resp & Hr & Hl & _)]]];
      rewrite Hr, trace_of in H.
    + rewrite lifecycle_pre in H. destruct H.
    + rewrite lifecycle_pre in H. destruct H.
    + rewrite lifecycle_app, lifecycle_pre in H.
      destruct H as [H|[]]. discriminate H.
    + exists v. repeat (split; [assumption|]).
      rewrite lifecycle_app, lifecycle_pre in H. cbn [app] in H.
      change (TryAcquire true :: work ++ ?x)
        with ([TryAcquire (Num := Num) (W := W) true] ++ work ++ x) in H.
      rewrite !lifecycle_app, Hl, lifecycle_closing in H.
      cbn [lifecycle filter isLifecycle app] in H.
      destruct H as [H|[H|H]]; [discriminate H | congruence |].
      apply in_app_or in H as [H|[H|[]]]; [|discriminate H].
      destruct (launch Num puppeteer (browserArgs v));
        [destruct H as [H|[]]; discriminate H | destruct H].
Qed.

(** X24. A response without the error flag means that the screenshot was
    taken: the output path was accepted, the response names the accepted
    path, and the tool made a screenshot call with that path which the
    browser completed; after that call it only closed the browser and
    released the permit. *)
Theorem take_screenshot_ok_means_saved (a : arguments Num) (g : globals W)
  (resp : McpToolResponse) :
  outcome (tool a g) = Normal resp ->
  isError resp = None ->
  exists dest before shot after,
    Path.path (pathValidation a) = Some dest
    /\ resp = ok ("Screenshot saved: " ++ dest)
    /\ trace (tool a g) = before ++ shot :: after
    /\ taken puppeteer dest shot
    /\ forallb isLifecycle after = true.
Proof.
  intros Hr He.
  pose proof (tool_cases a g) as Hcases; cbv zeta in Hcases;
    destruct Hcases as [(e & _ & _ & Hc) | (_ & v & _ & Hc)].
  - rewrite Hc, outcome_of in Hr. discriminate Hr.
  - destruct Hc as [(_ & Hc) | [(_ & _ & Hc) | [(_ & _ & _ & Hc)
      | (_ & Hp & _ & work & resp' & Hc & _ & Hs)]]];
      rewrite Hc, outcome_of in Hr; injection Hr as <-;
      try discriminate He.
    destruct (Hs He) as (-> & before & shot & -> & Ht).
    exists (template (Path.path (pathValidation a))),
      ((if _defaultDirCreated g then [] else [File (Mkdir default)])
       ++ TryAcquire true :: before),
      shot,
      (closing v ++ [Release (resumed (taken1 (puppeteerSemaphore g)))]).
    split; [now apply valid_has_path|]. split; [reflexivity|].
    split; [|split; [assumption|]].
    + rewrite Hc, trace_of.
      rewrite <- (app_assoc _ (TryAcquire true :: before)).
      f_equal. cbn [app]. f_equal. now rewrite <- app_assoc.
    + now destruct (launch Num puppeteer (browserArgs v)).
Qed.

(** X25. The tool throws in one case only: the default directory has not
    been created yet and creating it fails.  Then it has done nothing else
    and the module is unchanged, so that the next call tries again.  In
    every other case it answers, and the default directory is recorded as
    created. *)
Theorem take_screenshot_throws_only_for_mkdir (a : arguments Num)
  (g : globals W) :
  match outcome (tool a g) with
  | Throw e =>
      _defaultDirCreated g = false
      /\ mkdirSync default = Throw e
      /\ tool a g = ([File (Mkdir default)], Throw e, g)
  | Normal _ => _defaultDirCreated (final (tool a g)) = true
  end.
Proof.
  pose proof (tool_cases a g) as Hcases; cbv zeta in Hcases;
    destruct Hcases as [(e & Hf & He & ->) | (_ & v & _ & Hc)].
  - rewrite outcome_of, Hf. now repeat split.
  - destruct Hc as [(_ & ->) | [(_ & _ & ->) | [(_ & _ & _ & ->)
      | (_ & _ & _ & work & resp & -> & _)]]];
      now rewrite outcome_of, final_of.
Qed.

End Tool.

Lemma take_screenshot_gives_permit_back_witness :
  puppeteerSemaphore (final (ToolExample.tool ToolExample.page (loaded unit)))
  = puppeteerSemaphore (loaded unit).
Proof.
  apply (take_screenshot_gives_permit_back Z LinuxExample.intTruthy unit
           (Some "/home/user") "/" "2024-01-01T00:00:00.000Z"
           (Mocks.tableURL Mocks.knownURLs) Mocks.mockDns_public
           (Mocks.buildMockFs []) (fun _ => true) (fun _ => Normal tt)
           ToolExample.working ToolExample.page (loaded unit)).
  reflexivity.
Defined.

Lemma take_screenshot_launch_guarded_witness :
  exists v,
    Url.validateUrl (Mocks.tableURL Mocks.knownURLs) "https://example.com"
      Mocks.mockDns_public = Normal v
    /\ Url.valid v = true
    /\ Path.valid
         (Path.validateOutputPath "/" None
            ("screenshot-" ++ timestamp "2024-01-01T00:00:00.000Z" ++ ".png")
            (pathConfig (Some "/home/user")) (Mocks.buildMockFs [])) = true
    /\ 0 < Semaphore.permits (puppeteerSemaphore (loaded unit))
    /\ ["--no-sandbox"; "--disable-setuid-sandbox";
        "--host-resolver-rules=MAP example.com 93.184.216.34"]
       = browserArgs v.
Proof.
  apply (take_screenshot_launch_guarded Z LinuxExample.intTruthy unit
           (Some "/home/user") "/" "2024-01-01T00:00:00.000Z"
           (Mocks.tableURL Mocks.knownURLs) Mocks.mockDns_public
           (Mocks.buildMockFs []) (fun _ => true) (fun _ => Normal tt)
           ToolExample.working ToolExample.page (loaded unit)).
  vm_compute. right; right; left. reflexivity.
Defined.

Lemma take_screenshot_ok_means_saved_witness :
  exists dest before shot after,
    Path.path
      (Path.validateOutputPath "/" None
         ("screenshot-" ++ timestamp "2024-01-01T00:00:00.000Z" ++ ".png")
         (pathConfig (Some "/home/user")) (Mocks.buildMockFs []))
    = Some dest
    /\ ok ("Screenshot saved: /home/user/Desktop/Screenshots/"
           ++ "screenshot-2024-01-01T00-00-00-000Z.png")
       = ok ("Screenshot saved: " ++ dest)
    /\ trace (ToolExample.tool ToolExample.page (loaded unit))
       = (before ++ shot :: after)%list
    /\ taken ToolExample.working dest shot
    /\ forallb isLifecycle after = true.
Proof.
  apply (take_screenshot_ok_means_saved Z LinuxExample.intTruthy unit
           (Some "/home/user") "/" "2024-01-01T00:00:00.000Z"
           (Mocks.tableURL Mocks.knownURLs) Mocks.mockDns_public
           (Mocks.buildMockFs []) (fun _ => true) (fun _ => Normal tt)
           ToolExample.working ToolExample.page (loaded unit));
    reflexivity.
Defined.

End ToolFacts.

(** ** The macOS provider *)

Module MacOSProviderFacts.
Import JS JSText Effects Provider MacOS MacOSProvider MacOSNotions.
Import EffectsFacts.
Local Open Scope list_scope.

Section Methods.

Variable Num : Type.
Variable numTruthy : Num -> bool.
Variable numPositive : Num -> bool.
Variable showNum : Num -> string.
Variable platform : string.
Variable execFileAsync : string -> list string -> completion string.
Variable normalizeNFC : string -> string.
Variable showNumber : number -> string.

Local Notation lookupWindow :=
  (MacOSProvider.lookupWindow Num execFileAsync normalizeNFC).
Local Notation captureFullscreen :=
  (MacOSProvider.captureFullscreen Num numTruthy numPositive showNum
     execFileAsync).
Local Notation captureWindow :=
  (MacOSProvider.captureWindow Num numTruthy numPositive showNum
     execFileAsync normalizeNFC showNumber).
Local Notation captureRegion :=
  (MacOSProvider.captureRegion Num numTruthy numPositive showNum
     execFileAsync).

(** The provider looks a window up as [getWindowId] does. *)
Lemma lookupWindow_getWindowId (appName : string) :
  outcome (lookupWindow appName tt)
  = snd (getWindowId normalizeNFC appName execFileAsync).
Proof.
  unfold MacOSProvider.lookupWindow, getWindowId.
  destruct (SAFE_APP_NAME_PATTERN (normalizeNFC appName)); [|reflexivity].
  cbn [negb snd]. unfold mtry, mbind, exec, perform, ret, tryCatch, bind.
  now destruct (execFileAsync _ _).
Qed.

Lemma lookupWindow_run (appName : string) :
  (SAFE_APP_NAME_PATTERN (normalizeNFC appName) = false
   /\ lookupWindow appName tt = ([], Normal None, tt))
  \/ (exists found,
        lookupWindow appName tt
        = ([Exec "swift"
              ["-e"; swiftProgram (toLowerCase (normalizeNFC appName))]],
           Normal found, tt)
        /\ allChars Quoting.isPlainLower (toLowerCase (normalizeNFC appName))
           = true).
Proof.
  unfold MacOSProvider.lookupWindow.
  destruct (SAFE_APP_NAME_PATTERN (normalizeNFC appName)) eqn:Hsafe;
    [right | left; now split].
  cbn [negb]. unfold mtry, mbind, exec, perform, ret.
  apply andb_true_iff in Hsafe as [_ Hsafe].
  apply MacOSFacts.safeName_lower in Hsafe.
  destruct (execFileAsync _ _); eexists; (split; [reflexivity | assumption]).
Qed.

Lemma buildBaseArgs_head (opts : CaptureOptions Num) :
  exists rest,
    buildBaseArgs Num numTruthy numPositive showNum opts = "-x" :: rest.
Proof. unfold buildBaseArgs. now eexists. Qed.

(** What a run of [screencapture] that ends the method gives. *)
Lemma screencapture_run (opts : CaptureOptions Num) (extra : list string) :
  let args :=
    buildBaseArgs Num numTruthy numPositive showNum opts ++ extra
    ++ [outputPath opts] in
  exists middle,
    args = "-x" :: middle ++ [outputPath opts]
    /\ (exec (Num := Num) (S := unit) execFileAsync "screencapture" args ;;;
        ret tt) tt
       = ([Exec "screencapture" args],
          match execFileAsync "screencapture" args with
          | Normal _ => Normal tt
          | Throw e => Throw e
          end, tt).
Proof.
  cbv zeta. destruct (buildBaseArgs_head opts) as [rest ->].
  exists (rest ++ extra). split.
  - cbn [app]. now rewrite app_assoc.
  - unfold mbind, exec, perform, ret. now destruct (execFileAsync _ _).
Qed.

(** X26. The commands of the macOS provider, in every run of a capture
    method.  The method runs nothing, or one [swift] run of the window
    look-up (on a program made for a name of lower-case letters, digits,
    spaces, hyphens and underscores), and then either throws without
    running anything else, or runs [screencapture] as its last command,
    once, with [-x] as first argument and the output path as last
    argument; it then completes exactly when that command does.  So a
    method that completes has run [screencapture], last. *)
Theorem macos_capture_commands
  (opts : CaptureOptions Num) (target : WindowTarget Num)
  (region : RegionTarget Num)
  (r : list (action Num) * completion unit * unit) :
  r = captureFullscreen opts tt
  \/ r = captureWindow opts target tt
  \/ r = captureRegion opts region tt ->
  exists looked,
    Forall windowLookup looked
    /\ (List.length looked <= 1)%nat
    /\ ((trace r = looked /\ exists e, outcome r = Throw e)
        \/ (exists args,
              trace r = looked ++ [Exec "screencapture" args]
              /\ silentTo (outputPath opts) args
              /\ outcome r
                 = match execFileAsync "screencapture" args with
                   | Normal _ => Normal tt
                   | Throw e => Throw e
                   end)).
Proof.
  assert (forall extra looked,
            Forall (windowLookup (Num := Num)) looked ->
            (List.length looked <= 1)%nat ->
            let args :=
              buildBaseArgs Num numTruthy numPositive showNum opts ++ extra
              ++ [outputPath opts] in
            let r := (looked ++ [Exec (Num := Num) "screencapture" args],
                      match execFileAsync "screencapture" args with
                      | Normal _ => Normal tt
                      | Throw e => Throw e
                      end, tt) in
            exists looked',
              Forall windowLookup looked'
              /\ (List.length looked' <= 1)%nat
              /\ ((trace r = looked' /\ exists e, outcome r = Throw e)
                  \/ (exists args',
                        trace r = looked' ++ [Exec "screencapture" args']
                        /\ silentTo (outputPath opts) args'
                        /\ outcome r
                           = match execFileAsync "screencapture" args' with
                             | Normal _ => Normal tt
                             | Throw e => Throw e
                             end))) as Hlast.
  { intros extra looked Hb Hlen. cbv zeta. rewrite trace_of, outcome_of.
    exists looked. split; [assumption|]. split; [assumption|]. right.
    eexists. split; [reflexivity|]. split; [|reflexivity].
    destruct (screencapture_run opts extra) as (middle & -> & _).
    now exists middle. }
  intros [-> | [-> | ->]].
  - unfold MacOSProvider.captureFullscreen. cbv zeta.
    destruct (screencapture_run opts []) as (middle & _ & Hrun).
    cbv zeta in Hrun. cbn [app] in Hrun. rewrite Hrun.
    apply (Hlast [] []); [constructor | cbn; lia].
  - unfold MacOSProvider.captureWindow. cbv zeta.
    set (wid0 := option_map inl (windowId target)).
    match goal with
    | |- context [trace (mbind ?m ?k tt)] =>
        set (first := m); set (rest := k)
    end.
    assert (exists t0 wid,
              first tt = (t0, Normal wid, tt)
              /\ Forall windowLookup t0
              /\ (List.length t0 <= 1)%nat) as (t0 & wid & Hfirst & Ht0 & Hc0).
    { subst first.
      destruct (negb (truthyWid Num numTruthy wid0) && hasWindowName target).
      - destruct (lookupWindow_run (template (windowName target)))
          as [(_ & Hl) | (found & Hl & Hsafe)].
        + exists [], None. erewrite bind_normal by exact Hl.
          split; [reflexivity|]. split; [constructor | cbn; lia].
        + exists [Exec "swift"
                    ["-e";
                     swiftProgram
                       (toLowerCase
                          (normalizeNFC (template (windowName target))))]],
            (option_map inr found).
          erewrite bind_normal by exact Hl.
          split; [reflexivity|]. split; [|cbn; lia].
          constructor; [|constructor].
          exists (toLowerCase (normalizeNFC (template (windowName target)))).
          now split.
      - exists [], wid0. split; [reflexivity|].
        split; [constructor | cbn; lia]. }
    erewrite bind_normal by exact Hfirst. subst rest. cbv beta.
    destruct (truthyWid Num numTruthy wid); cbn [negb].
    + destruct (screencapture_run opts
                  ["-l"; showWid Num showNum showNumber wid])
        as (middle & _ & Hrun).
      cbv zeta in Hrun. rewrite Hrun, !trace_of, !outcome_of, ?final_of.
      now apply (Hlast ["-l"; showWid Num showNum showNumber wid] t0).
    + unfold throw. rewrite !trace_of, !outcome_of, app_nil_r.
      exists t0. split; [assumption|]. split; [assumption|]. left.
      split; [reflexivity|]. now eexists.
  - unfold MacOSProvider.captureRegion. cbv zeta.
    match goal with
    | |- context [exec _ _ (_ ++ ?extra ++ _)] =>
        destruct (screencapture_run opts extra) as (middle & _ & Hrun);
        cbv zeta in Hrun; rewrite Hrun; apply (Hlast extra [])
    end; [constructor | cbn; lia].
Qed.

(** X27. A window asked for by a name that the safe pattern refuses, with
    no window identifier, is not captured: [captureWindow] throws
    [Window not found] with the name as given and runs no command at
    all. *)
Theorem macos_window_unsafe_name
  (opts : CaptureOptions Num) (target : WindowTarget Num) (name : string) :
  hasWindowId numTruthy target = false ->
  windowName target = Some name ->
  name <> EmptyString ->
  SAFE_APP_NAME_PATTERN (normalizeNFC name) = false ->
  captureWindow opts target tt
  = ([], Throw (ErrorObject ("Window not found: " ++ name)), tt).
Proof.
  intros Hid Hname Hne Hsafe.
  assert (hasWindowName target = true) as Hn.
  { unfold hasWindowName, given, falsy. rewrite Hname.
    destruct (String.eqb name EmptyString) eqn:E; [|reflexivity].
    apply String.eqb_eq in E. contradiction. }
  assert (truthyWid Num numTruthy (option_map inl (windowId target)) = false)
    as Hw.
  { unfold hasWindowId in Hid. now destruct (windowId target). }
  unfold MacOSProvider.captureWindow. cbv zeta.
  rewrite Hw, Hn, Hname. cbn [negb andb template].
  unfold MacOSProvider.lookupWindow. rewrite Hsafe. reflexivity.
Qed.

End Methods.

Lemma macos_capture_commands_witness :
  exists looked,
    Forall windowLookup looked
    /\ (List.length looked <= 1)%nat
    /\ ((trace
           (MacOSProvider.captureFullscreen Z LinuxExample.intTruthy
              LinuxExample.intPositive numToString LinuxExample.everyCommand
              LinuxExample.toTmp tt)
         = looked
         /\ exists e,
              outcome
                (MacOSProvider.captureFullscreen Z LinuxExample.intTruthy
                   LinuxExample.intPositive numToString
                   LinuxExample.everyCommand LinuxExample.toTmp tt)
              = Throw e)
        \/ (exists args,
              trace
                (MacOSProvider.captureFullscreen Z LinuxExample.intTruthy
                   LinuxExample.intPositive numToString
                   LinuxExample.everyCommand LinuxExample.toTmp tt)
              = looked ++ [Exec "screencapture" args]
              /\ silentTo "/tmp/shot.png" args
              /\ outcome
                   (MacOSProvider.captureFullscreen Z LinuxExample.intTruthy
                      LinuxExample.intPositive numToString
                      LinuxExample.everyCommand LinuxExample.toTmp tt)
                 = match LinuxExample.everyCommand "screencapture" args with
                   | Normal _ => Normal tt
                   | Throw e => Throw e
                   end)).
Proof.
  apply (macos_capture_commands Z LinuxExample.intTruthy
           LinuxExample.intPositive numToString LinuxExample.everyCommand
           (fun s => s) (fun _ => "1") LinuxExample.toTmp
           LinuxExample.noWindow LinuxExample.corner).
  left. reflexivity.
Defined.

Lemma macos_window_unsafe_name_witness :
  MacOSProvider.captureWindow Z LinuxExample.intTruthy
    LinuxExample.intPositive numToString LinuxExample.everyCommand
    (fun s => s) (fun _ => "1") LinuxExample.toTmp
    {| windowId := None; windowName := Some "evil;rm -rf /" |} tt
  = ([], Throw (ErrorObject ("Window not found: " ++ "evil;rm -rf /")), tt).
Proof.
  apply (macos_window_unsafe_name Z LinuxExample.intTruthy
           LinuxExample.intPositive numToString LinuxExample.everyCommand
           (fun s => s) (fun _ => "1"));
    [reflexivity | reflexivity | discriminate | reflexivity].
Defined.

End MacOSProviderFacts.

(** ** The take_system_screenshot tool *)

Module SystemToolFacts.
Import JS JSText Effects Helpers Runtime Provider TakeSystemScreenshot.
Import SystemNotions EffectsFacts.
Local Open Scope list_scope.

Section Tool.

Variable Num : Type.
Variable W : Type.
Variable process_platform : string.
Variable newMacOSProvider newLinuxProvider newWindowsProvider
  : ScreenshotProvider Num.
Variable HOME : option string.
Variable cwd isoNow : string.
Variable realpath : Path.FileSystem.
Variable mkdirSync : string -> completion unit.
Variable existsBefore existsAfter : string -> bool.
Variable fileNotCreated : string.

Local Notation action := (TakeSystemScreenshot.action Num).
Local Notation state := (TakeSystemScreenshot.state Num W).
Local Notation default := (Config.defaultOutDir HOME).
Local Notation factory :=
  (getScreenshotProvider Num W process_platform newMacOSProvider
     newLinuxProvider newWindowsProvider).
Local Notation tool :=
  (take_system_screenshot Num W process_platform newMacOSProvider
     newLinuxProvider newWindowsProvider HOME cwd isoNow realpath mkdirSync
     existsBefore existsAfter fileNotCreated).
Local Notation body :=
  (capture Num W process_platform newMacOSProvider newLinuxProvider
     newWindowsProvider HOME cwd isoNow realpath mkdirSync existsBefore
     existsAfter fileNotCreated).
Local Notation pathValidation a :=
  (Path.validateOutputPath cwd (arg_outputPath Num a) (defaultName isoNow a)
     (pathConfig HOME) realpath).
Local Notation caching p s :=
  {| module := module s; _cachedProvider := Some p |}.

(** The provider the factory gives is the cached one, or one that has just
    answered that it is available and is cached from then on; the factory
    leaves the state alone when it throws. *)
Lemma factory_run (s : state) :
  (exists p,
     _cachedProvider s = Some p /\ factory s = ([], Normal p, s))
  \/ (exists p,
        _cachedProvider s = None /\ isAvailable p = Normal true
        /\ factory s = ([IsAvailable (platform p)], Normal p, caching p s))
  \/ (exists t e,
        _cachedProvider s = None
        /\ factory s = (t, Throw e, s)
        /\ Forall (fun act => captured act = None) t).
Proof.
  unfold getScreenshotProvider, mbind, get, put, perform, throw, ret.
  destruct (_cachedProvider s) as [p|] eqn:Hc.
  - left. exists p. now split.
  - right.
    destruct (String.eqb process_platform "darwin");
      [|destruct (String.eqb process_platform "linux");
        [|destruct (String.eqb process_platform "win32")]].
    1-3: match goal with
         | |- context [isAvailable ?p] =>
             destruct (isAvailable p) as [[|]|e] eqn:Ha; cbn [negb app];
               [ left; exists p; now repeat split
               | right; eexists _, _; split; [reflexivity|];
                 split; [reflexivity | now repeat constructor]
               | right; eexists _, _; split; [reflexivity|];
                 split; [reflexivity | now repeat constructor] ]
         end.
    right. eexists _, _. split; [reflexivity|].
    split; [reflexivity | constructor].
Qed.

Local Notation regionMissing := "Region mode requires region coordinates"%string.

(** What the tool does with a provider. *)
Lemma withProvider_run (p : ScreenshotProvider Num) (a : arguments Num)
  (s : state) :
  let pv := pathValidation a in
  let dest := template (Path.path pv) in
  withProvider Num W HOME cwd isoNow realpath mkdirSync existsBefore
    existsAfter fileNotCreated p a s
  = if negb (Path.valid pv) then
      ([],
       Normal (err ("Output path validation failed: "
                    ++ template (Path.error pv))), s)
    else
      match ensureDir existsBefore mkdirSync dest with
      | Throw e => ([File (EnsureDir dest)], Throw e, s)
      | Normal _ =>
          match shot p a (optionsFor a dest) with
          | None => ([File (EnsureDir dest)], Normal (err regionMissing), s)
          | Some (act, Throw e) => ([File (EnsureDir dest); act], Throw e, s)
          | Some (act, Normal _) =>
              ([File (EnsureDir dest); act],
               Normal (if negb (existsAfter dest) then err fileNotCreated
                       else ok ("System screenshot saved: " ++ dest)),
               s)
          end
      end.
Proof.
  cbv zeta. unfold withProvider. fold (defaultName isoNow a). cbv zeta.
  destruct (Path.valid (pathValidation a)); [|reflexivity]. cbn [negb].
  fold (optionsFor a (template (Path.path (pathValidation a)))).
  unfold mbind at 1, perform at 1.
  destruct (ensureDir existsBefore mkdirSync _) as [[]|e]; [|reflexivity].
  unfold captureByMode, shot, mbind, perform, ret.
  destruct (arg_mode Num a).
  - destruct (captureFullscreen p _) as [[]|e]; [|reflexivity].
    now destruct (existsAfter _).
  - destruct (captureWindow p _ _) as [[]|e]; [|reflexivity].
    now destruct (existsAfter _).
  - destruct (arg_region Num a) as [r|]; [|reflexivity].
    destruct (captureRegion p _ _) as [[]|e]; [|reflexivity].
    now destruct (existsAfter _).
Qed.

Local Notation handler :=
  (fun e : thrown =>
     ret (Act := action) (S := state)
       (err ("System screenshot error: " ++ Url.errorMessage e))).

(** The [try] with a provider: it answers, leaves the state alone, hands
    the provider only the accepted path, and answers without an error only
    after a capture that completed and left the file. *)
Lemma withProvider_cases (p : ScreenshotProvider Num) (a : arguments Num)
  (s : state) :
  let pv := pathValidation a in
  exists t resp,
    mtry (withProvider Num W HOME cwd isoNow realpath mkdirSync existsBefore
            existsAfter fileNotCreated p a) handler s
    = (t, Normal resp, s)
    /\ (forall act opts,
          In act t -> captured act = Some opts ->
          Path.valid pv = true
          /\ Path.path pv = Some (outputPath opts)
          /\ opts = optionsFor a (outputPath opts)
          /\ exists answer, shot p a opts = Some (act, answer))
    /\ (isError resp = None ->
        exists dest act before,
          Path.path pv = Some dest
          /\ resp = ok ("System screenshot saved: " ++ dest)
          /\ existsAfter dest = true
          /\ shot p a (optionsFor a dest) = Some (act, Normal tt)
          /\ t = before ++ [act]).
Proof.
  cbv zeta. rewrite try_run, withProvider_run. cbv zeta.
  destruct (Path.valid (pathValidation a)) eqn:Hv; cbn [negb].
  2:{ eexists _, _. rewrite outcome_of, trace_of, final_of.
      split; [reflexivity|]. split; [intros act opts []|discriminate]. }
  pose proof (ToolFacts.valid_has_path cwd _ _ _ _ Hv) as Hp.
  set (dest := template (Path.path (pathValidation a))) in *.
  assert (forall act answer (opts : CaptureOptions Num),
            shot p a (optionsFor a dest) = Some (act, answer) ->
            captured act = Some opts -> opts = optionsFor a dest) as Hshot.
  { intros act answer opts. unfold shot.
    destruct (arg_mode Num a); [| |destruct (arg_region Num a)];
      intros [= <- _]; cbn [captured]; congruence. }
  assert (forall act answer (t : list action),
            shot p a (optionsFor a dest) = Some (act, answer) ->
            forall act' opts,
              In act' [File (EnsureDir dest); act] ->
              captured act' = Some opts ->
              true = true
              /\ Path.path (pathValidation a) = Some (outputPath opts)
              /\ opts = optionsFor a (outputPath opts)
              /\ exists answer', shot p a opts = Some (act', answer'))
    as Hguard.
  { intros act answer _ Hs act' opts [<-|[<-|[]]] Hc; [discriminate Hc|].
    rewrite (Hshot _ _ _ Hs Hc). cbn [optionsFor outputPath].
    repeat split; [assumption|]. now exists answer. }
  destruct (ensureDir existsBefore mkdirSync dest) as [[]|e].
  2:{ eexists _, _. rewrite outcome_of, trace_of, final_of. unfold ret.
      rewrite outcome_of, trace_of, final_of.
      split; [reflexivity|]. split; [|discriminate].
      intros act opts [<-|[]] Hc. discriminate Hc. }
  destruct (shot p a (optionsFor a dest)) as [[act [[]|e]]|] eqn:Hs.
  - eexists _, _. rewrite outcome_of, trace_of, final_of.
    split; [reflexivity|]. split; [now apply (Hguard act (Normal tt) [])|].
    destruct (existsAfter dest) eqn:He; cbn [negb]; [|discriminate].
    intros _. exists dest, act, [File (EnsureDir dest)].
    now repeat split.
  - eexists _, _. rewrite outcome_of, trace_of, final_of. unfold ret.
    rewrite outcome_of, trace_of, final_of, app_nil_r.
    split; [reflexivity|]. split; [now apply (Hguard act (Throw e) [])|].
    discriminate.
  - eexists _, _. rewrite outcome_of, trace_of, final_of.
    split; [reflexivity|]. split; [|discriminate].
    intros act opts [<-|[]] Hc. discriminate Hc.
Qed.

Local Notation ready g :=
  {| puppeteerSemaphore := puppeteerSemaphore g; _defaultDirCreated := true |}.

Lemma system_ensure_then {B : Type} (k : M action state B) (s : state) :
  (TakeSystemScreenshot.onModule Num W
     (ensureDefaultDirectory File HOME mkdirSync) ;;; k) s
  = if _defaultDirCreated (module s) then k s
    else match mkdirSync default with
         | Normal _ =>
             let r :=
               k {| module := ready (module s);
                    _cachedProvider := _cachedProvider s |} in
             (File (Mkdir default) :: trace r, outcome r, final r)
         | Throw e => ([File (Mkdir default)], Throw e, s)
         end.
Proof.
  destruct s as [g c].
  unfold TakeSystemScreenshot.onModule, ensureDefaultDirectory.
  unfold mbind, get, put, perform, ret.
  cbn [module _cachedProvider].
  destruct (_defaultDirCreated g); cbn [negb].
  - cbn [module _cachedProvider app].
    now destruct (k _) as [[t o] f'].
  - destruct (mkdirSync default) as [[]|e]; [|reflexivity].
    cbn [module _cachedProvider puppeteerSemaphore _defaultDirCreated app].
    now destruct (k _) as [[t o] f'].
Qed.

(** The [try] of the tool. *)
Lemma tried_cases (a : arguments Num) (s : state) :
  let pv := pathValidation a in
  exists t resp s',
    mtry (body a) handler s = (t, Normal resp, s')
    /\ module s' = module s
    /\ (_cachedProvider s' = _cachedProvider s
        \/ exists p,
             _cachedProvider s = None /\ isAvailable p = Normal true
             /\ _cachedProvider s' = Some p)
    /\ (forall act opts,
          In act t -> captured act = Some opts ->
          Path.valid pv = true
          /\ Path.path pv = Some (outputPath opts)
          /\ opts = optionsFor a (outputPath opts)
          /\ exists p answer,
               shot p a opts = Some (act, answer)
               /\ (_cachedProvider s = Some p
                   \/ _cachedProvider s = None
                      /\ isAvailable p = Normal true))
    /\ (isError resp = None ->
        exists dest act before p,
          Path.path pv = Some dest
          /\ resp = ok ("System screenshot saved: " ++ dest)
          /\ existsAfter dest = true
          /\ shot p a (optionsFor a dest) = Some (act, Normal tt)
          /\ (_cachedProvider s = Some p
              \/ _cachedProvider s = None /\ isAvailable p = Normal true)
          /\ t = before ++ [act]).
Proof.
  cbv zeta. unfold capture.
  destruct (factory_run s)
    as [(p & Hc & Hf) | [(p & Hc & Ha & Hf) | (t & e & Hc & Hf & Ht)]].
  - rewrite (try_bind_normal _ _ _ _ _ _ _ _ _ Hf).
    destruct (withProvider_cases p a s) as (t & resp & -> & Hg & Hs).
    rewrite trace_of, outcome_of, final_of. cbn [app].
    exists t, resp, s. split; [reflexivity|]. split; [reflexivity|].
    split; [now left|]. split.
    + intros act opts Hin Hcp.
      destruct (Hg act opts Hin Hcp) as (H1 & H2 & H3 & answer & H4).
      repeat (split; [assumption|]). exists p, answer. split; [assumption|].
      now left.
    + intro He. destruct (Hs He) as (dest & act & before & H1 & H2 & H3 & H4 & H5).
      exists dest, act, before, p. repeat (split; [assumption|]).
      split; [now left | assumption].
  - rewrite (try_bind_normal _ _ _ _ _ _ _ _ _ Hf).
    destruct (withProvider_cases p a (caching p s)) as (t & resp & -> & Hg & Hs).
    rewrite trace_of, outcome_of, final_of. cbn [app].
    exists (IsAvailable (platform p) :: t), resp, (caching p s).
    split; [reflexivity|]. split; [reflexivity|].
    split; [right; exists p; now repeat split|]. split.
    + intros act opts [<-|Hin] Hcp; [discriminate Hcp|].
      destruct (Hg act opts Hin Hcp) as (H1 & H2 & H3 & answer & H4).
      repeat (split; [assumption|]). exists p, answer. split; [assumption|].
      now right.
    + intro He. destruct (Hs He) as (dest & act & before & H1 & H2 & H3 & H4 & H5).
      exists dest, act, (IsAvailable (platform p) :: before), p.
      repeat (split; [assumption|]).
      split; [now right | now rewrite H5].
  - rewrite (try_bind_throw _ _ _ _ _ _ _ _ _ Hf). unfold ret.
    rewrite trace_of, outcome_of, final_of, app_nil_r.
    exists t, (err ("System screenshot error: " ++ Url.errorMessage e)), s.
    split; [reflexivity|]. split; [reflexivity|]. split; [now left|].
    split; [|discriminate].
    intros act opts Hin Hcp. rewrite Forall_forall in Ht.
    rewrite (Ht act Hin) in Hcp. discriminate Hcp.
Qed.

(** The runs of the tool: it throws when the default directory cannot be
    created, and otherwise is its [try] run on the module with the
    directory recorded. *)
Lemma system_cases (a : arguments Num) (s : state) :
  (exists e,
     _defaultDirCreated (module s) = false /\ mkdirSync default = Throw e
     /\ tool a s = ([File (Mkdir default)], Throw e, s))
  \/ (exists pre s1 t resp s',
        tool a s = (pre ++ t, Normal resp, s')
        /\ mtry (body a) handler s1 = (t, Normal resp, s')
        /\ Forall (fun act => captured act = None) pre
        /\ _cachedProvider s1 = _cachedProvider s
        /\ puppeteerSemaphore (module s1) = puppeteerSemaphore (module s)
        /\ _defaultDirCreated (module s1) = true).
Proof.
  unfold take_system_screenshot. rewrite system_ensure_then.
  destruct (_defaultDirCreated (module s)) eqn:Hflag.
  - right. destruct (tried_cases a s) as (t & resp & s' & Hr & _).
    exists [], s, t, resp, s'. now repeat split.
  - destruct (mkdirSync default) as [[]|e].
    + right.
      set (s1 := {| module := ready (module s);
                    _cachedProvider := _cachedProvider s |}).
      destruct (tried_cases a s1) as (t & resp & s' & Hr & _).
      exists [File (Mkdir default)], s1, t, resp, s'. cbv zeta.
      rewrite Hr, trace_of, outcome_of, final_of.
      repeat split; try reflexivity. now repeat constructor.
    + left. exists e. now repeat split.
Qed.



(** X30. The tool throws in one case only, when the default directory has
    not been created yet and creating it fails; it has then done nothing
    else.  Otherwise it answers, the directory is recorded as created, the
    semaphore is untouched, and the cached provider is the one there was
    or, when there was none, a provider that has just answered that it is
    available: a provider that is not available is never cached. *)
Theorem system_throws_only_for_mkdir (a : arguments Num) (s : state) :
  match outcome (tool a s) with
  | Throw e =>
      _defaultDirCreated (module s) = false
      /\ mkdirSync default = Throw e
      /\ tool a s = ([File (Mkdir default)], Throw e, s)
  | Normal _ =>
      _defaultDirCreated (module (final (tool a s))) = true
      /\ puppeteerSemaphore (module (final (tool a s)))
         = puppeteerSemaphore (module s)
      /\ (_cachedProvider (final (tool a s)) = _cachedProvider s
          \/ exists p,
               _cachedProvider s = None /\ isAvailable p = Normal true
               /\ _cachedProvider (final (tool a s)) = Some p)
  end.
Proof.
  destruct (system_cases a s)
    as [(e & Hf & He & Hr)
       | (pre & s1 & t & resp & s' & Hr & Ht & _ & Hcache & Hsem & Hflag)];
    rewrite Hr, outcome_of; [now repeat split|].
  rewrite final_of.
  destruct (tried_cases a s1) as (t' & resp' & s'' & Hr' & Hm & Hc & _).
  rewrite Ht in Hr'. injection Hr' as <- <- <-.
  rewrite Hm, Hcache in *. now repeat split.
Qed.

End Tool.



End SystemToolFacts.

(** * Repeated validation *)

Module Repeat.
Import JS NodePath Url Path Spec Notions Resolved.
Import JSFacts PatternFacts Ipv4Shape Ipv6Facts UrlFacts PathFacts.
Import RelativeFacts UrlMore MacOSFacts.

(** ** The normal form of a resolved path *)


















(** ** Validating the result again *)











End Repeat.
